(** * cpp-vcd-tracer: a shallow embedding of the VCD tracer library

    The development follows the three source units of the library:
    - [vcd_tracer.ipp]: [identifier_generator::next] and [value::dump];
    - [vcd_tracer.hpp]: [sample], [value] ([set], [set_state]), [module]
      ([add_var], [register_var]) and the registration closures of [top];
    - [vcd_tracer.cpp]: [module::finalize_header], [top::log_time],
      [top::time_update_core], [top::time_update_delta],
      [top::time_update_abs] and [value_base::dump].

    Conventions.
    - [scope_fn::sequence_t] is [std::uint64_t]: a [Z] kept in
      [0, 2^64) with the wrap-around written out ([wrap64]).
    - [std::chrono::nanoseconds] has a signed 64 bit count: a [Z] in
      [-2^63, 2^63); the conversions the comparisons perform are
      written out ([to_u64], [to_i64]).
    - The output stream is the list of the lines written to it, oldest
      first; [render] gives back the characters.
    - Value objects live in a store [heap] and are named by their
      address; the closure [[this](out, start) { return this->dump(out, start); }]
      is the constructor [value_dumper this]. *)

From Stdlib Require Import ZArith String Ascii List DecimalString Lia Bool.
From Stdlib Require Import Sorted.
From Stdlib Require OrderedTypeEx.
From stdpp Require Import base option list strings gmap.

Open Scope Z_scope.

(** ** Output stream *)

(** One line written to the [std::ostream]: [L_time t] is ["#" << t << "\n"],
    [L_text s] is [s << "\n"]. *)
Inductive vcd_line :=
| L_time (t : Z)
| L_text (s : string).

Definition nl : string := String (ascii_of_nat 10) EmptyString.

(** [operator<<] of an unsigned integer: its decimal digits. *)
Definition dec (z : Z) : string :=
  NilZero.string_of_uint (N.to_uint (Z.to_N z)).

Definition render_line (l : vcd_line) : string :=
  match l with
  | L_time t => "#" +:+ dec t +:+ nl
  | L_text s => s +:+ nl
  end.

Definition render (out : list vcd_line) : string :=
  String.concat "" (map render_line out).

(** ** Machine integers *)

Definition wrap64 (z : Z) : Z := z mod 2 ^ 64.

(** Conversion of a signed 64 bit count to [std::uint64_t]. *)
Definition to_u64 (z : Z) : Z := z mod 2 ^ 64.

(** Conversion of a [std::uint64_t] to [long int]. *)
Definition to_i64 (z : Z) : Z := (z + 2 ^ 63) mod 2 ^ 64 - 2 ^ 63.

(** ** [identifier_generator] (vcd_tracer.ipp) *)

Definition VCD_NAME_START : ascii := "!"%char.
Definition VCD_NAME_END : ascii := "z"%char.
Definition NUL : ascii := ascii_of_nat 0.

(** [std::array<char, 16> _identifier{ 0 }; size_t _size{ 0 };] *)
Record identifier_generator := mk_identifier_generator {
  _identifier : list ascii;
  _size : nat
}.

Definition identifier_generator_new : identifier_generator :=
  {| _identifier := replicate 16 NUL; _size := 0 |}.

(** The characters a [const char *] into the array denotes: up to the
    first NUL (the array itself ends the string when it holds none). *)
Fixpoint c_str (l : list ascii) : string :=
  match l with
  | [] => EmptyString
  | c :: l' => if Ascii.eqb c NUL then EmptyString else String c (c_str l')
  end.

(** [_identifier[i]++] *)
Definition char_succ (c : ascii) : ascii := ascii_of_nat (S (nat_of_ascii c)).

(** The [do { i--; ... } while (i != 0)] loop of [next], entered with
    [i]. The result is the array and whether the loop left through the
    [return] in its body. *)
Fixpoint next_carry (i : nat) (id : list ascii) : list ascii * bool :=
  match i with
  | O => (id, false)
  | S j =>
      match id !! j with
      | Some c =>
          if Ascii.eqb c VCD_NAME_END
          then next_carry j (<[j := VCD_NAME_START]> id)
          else (<[j := char_succ c]> id, true)
      | None => (id, true)
      end
  end.

(** [identifier_generator::next]. Writes past the end of the array (the
    terminator when [_size] reaches 16) are dropped by the list update. *)
Definition next (g : identifier_generator) : string * identifier_generator :=
  if Nat.eqb (_size g) (length (_identifier g)) then
    (c_str (_identifier g), g)
  else if Nat.eqb (_size g) 0 then
    let id := <[1%nat := NUL]> (<[0%nat := VCD_NAME_START]> (_identifier g)) in
    (c_str id, {| _identifier := id; _size := 1 |})
  else
    match next_carry (_size g) (_identifier g) with
    | (id, true) => (c_str id, {| _identifier := id; _size := _size g |})
    | (id, false) =>
        let id1 := <[_size g := VCD_NAME_START]> id in
        let id2 := <[S (_size g) := NUL]> id1 in
        (c_str id2, {| _identifier := id2; _size := S (_size g) |})
    end.

(** The generator after [n] calls of [next] whose results are dropped. *)
Fixpoint skip (n : nat) (g : identifier_generator) : identifier_generator :=
  match n with
  | O => g
  | S n' => skip n' (snd (next g))
  end.

(** [GenerateVcdKey] of the tests: the result of call number [n]
    (counting from 0) of a fresh generator. *)
Definition GenerateVcdKey (n : nat) : string :=
  fst (next (skip n identifier_generator_new)).

(** ** [value_base::dump] (vcd_tracer.cpp) *)

Inductive value_state :=
| unknown_x
| undriven_z
| known.

Definition value_state_eqb (a b : value_state) : bool :=
  match a, b with
  | unknown_x, unknown_x | undriven_z, undriven_z | known, known => true
  | _, _ => false
  end.

(** The element types [value_base::dump] is instantiated at: [bool], the
    integer types by width and signedness, and [float] / [double]. A
    sample of any of them is carried as a [Z]: 0 or 1 for [bool], the
    integer itself for an integer type, and for the floating types the
    model covers the integer valued samples below [10^16] only, which
    [%-.16g] prints as their decimal digits. *)
Inductive elem_type :=
| T_bool
| T_integer (bits : Z) (is_signed : bool)
| T_real (bits : Z).

(** [bit_size<T>::value] *)
Definition bit_size_of (T : elem_type) : nat :=
  match T with
  | T_bool => 1
  | T_integer bits _ => Z.to_nat bits
  | T_real bits => Z.to_nat bits
  end.

(** [vcd_var_type<T>::value] *)
Definition vcd_var_type (T : elem_type) : string :=
  match T with
  | T_real _ => "real"
  | _ => "wire"
  end.

(** [static_cast<T>] of an integer: reduction into the range of [T].
    It is applied to [1 << (bit_size - 1)]; a shift by the width of [T]
    or more has no defined result in the source, the reduction gives 0. *)
Definition int_cast (T : elem_type) (z : Z) : Z :=
  match T with
  | T_integer bits true => (z + 2 ^ (bits - 1)) mod 2 ^ bits - 2 ^ (bits - 1)
  | T_integer bits false => z mod 2 ^ bits
  | _ => z
  end.

Definition bit_char (b : bool) : string := if b then "1" else "0".

(** The [for (int i = bit_size - 2; i >= 0; i--)] loop of the vector
    branch with [n] iterations left. [>>] on a negative [mask] is the
    arithmetic shift, as is [Z.shiftr]. *)
Fixpoint dump_bits (n : nat) (value mask : Z) (prev_bit compress : bool) : string :=
  match n with
  | O => bit_char prev_bit
  | S n' =>
      let mask := Z.shiftr mask 1 in
      let this_bit := negb (Z.eqb (Z.land value mask) 0) in
      if compress && Bool.eqb this_bit prev_bit
      then dump_bits n' value mask this_bit compress
      else bit_char prev_bit +:+ dump_bits n' value mask this_bit false
  end.

(** [snprintf("%-.16g")] on an integer valued sample below [10^16]. *)
Definition format_g16 (v : Z) : string :=
  if Z.ltb v 0 then "-" +:+ dec (- v) else dec v.

(** [value_base::dump<T>(out, bit_size, state, value)]; [identifier] is
    [_scope.identifier]. *)
Definition value_base_dump (T : elem_type) (identifier : string)
    (bit_size : nat) (state : value_state) (value : Z) : list vcd_line :=
  match T with
  | T_real _ => [L_text ("r" +:+ format_g16 value +:+ " " +:+ identifier)]
  | T_bool =>
      match state with
      | unknown_x => [L_text ("x" +:+ identifier)]
      | undriven_z => [L_text ("z" +:+ identifier)]
      | known => [L_text ((if Z.eqb value 0 then "0" else "1") +:+ identifier)]
      end
  | T_integer _ _ =>
      let body :=
        match state with
        | unknown_x => "x"
        | undriven_z => "z"
        | known =>
            let mask := int_cast T (Z.shiftl 1 (Z.of_nat bit_size - 1)) in
            let prev_bit := negb (Z.eqb (Z.land value mask) 0) in
            dump_bits (bit_size - 1) value mask prev_bit true
        end in
      [L_text ("b" +:+ body +:+ " " +:+ identifier)]
  end.

(** ** [sample] and [value] (vcd_tracer.hpp, vcd_tracer.ipp) *)

(** [scope_fn::dump_sequence_t] *)
Record dump_sequence_t := mk_dump_sequence {
  dumped : option Z;
  next_seq : option Z
}.

Definition end_sequence : dump_sequence_t :=
  {| dumped := None; next_seq := None |}.

(** [sample<SAMPLE_T, SAMPLE_CUR_SEQ>]. The specialisation without a
    counter has no [sequence]; it can only be used with a trace depth of
    1, where the field is never read, so every sample carries it. *)
Record sample := mk_sample {
  sequence : Z;
  state : value_state;
  value : Z
}.

(** A default initialised sample; [garbage] is the indeterminate content
    of [value]. *)
Definition sample_default (garbage : Z) : sample :=
  {| sequence := to_u64 (-1); state := unknown_x; value := garbage |}.

(** [sample::set]: [cur_seq] is [*SAMPLE_CUR_SEQ]. *)
Definition sample_set (cur_seq v : Z) (s : sample) : sample :=
  {| sequence := cur_seq; state := known; value := v |}.

(** [sample::set_state] *)
Definition sample_set_state (cur_seq : Z) (S : value_state) (s : sample) : sample :=
  {| sequence := cur_seq; state := S; value := value s |}.

(** The function a [value] uses to reset its registration: [nop_update],
    or the closure [[identifier, var_map](fn) { var_map->dumper_map[identifier] = fn; }]
    made by [top]. *)
Inductive updater_fn :=
| nop_update
| slot_updater (identifier : string).

(** [value_context] *)
Record value_context := mk_value_context {
  identifier : string;
  updater : updater_fn
}.

(** [value<T, BIT_SIZE, TRACE_DEPTH, CUR_SEQ>] with the [_scope] of its
    base class. [index<1>] has no [read]; the field is then unused. *)
Record vcd_value := mk_value {
  T : elem_type;
  BIT_SIZE : nat;
  TRACE_DEPTH : Z;
  _scope : value_context;
  _idx_write : Z;
  _idx_read : Z;
  _samples : list sample
}.

Definition with_scope (c : value_context) (v : vcd_value) : vcd_value :=
  {| T := T v; BIT_SIZE := BIT_SIZE v; TRACE_DEPTH := TRACE_DEPTH v;
     _scope := c; _idx_write := _idx_write v; _idx_read := _idx_read v;
     _samples := _samples v |}.

Definition with_write (w : Z) (v : vcd_value) : vcd_value :=
  {| T := T v; BIT_SIZE := BIT_SIZE v; TRACE_DEPTH := TRACE_DEPTH v;
     _scope := _scope v; _idx_write := w; _idx_read := _idx_read v;
     _samples := _samples v |}.

Definition with_read (r : Z) (v : vcd_value) : vcd_value :=
  {| T := T v; BIT_SIZE := BIT_SIZE v; TRACE_DEPTH := TRACE_DEPTH v;
     _scope := _scope v; _idx_write := _idx_write v; _idx_read := r;
     _samples := _samples v |}.

Definition with_samples (l : list sample) (v : vcd_value) : vcd_value :=
  {| T := T v; BIT_SIZE := BIT_SIZE v; TRACE_DEPTH := TRACE_DEPTH v;
     _scope := _scope v; _idx_write := _idx_write v; _idx_read := _idx_read v;
     _samples := l |}.

(** [_samples[static_cast<size_t>(i % TRACE_DEPTH)]]; [%] truncates. *)
Definition slot (v : vcd_value) (i : Z) : nat :=
  Z.to_nat (Z.rem i (TRACE_DEPTH v)).

Definition sample_at (v : vcd_value) (i : Z) : sample :=
  match _samples v !! slot v i with
  | Some s => s
  | None => sample_default 0
  end.

Definition update_sample (f : sample -> sample) (i : Z) (v : vcd_value) : vcd_value :=
  with_samples (<[slot v i := f (sample_at v i)]> (_samples v)) v.

(** The constructors that do not register: [value(void)] and
    [value(const T default_value)] ([default_value = None] for the
    first). [_scope] is [{ "", scope_fn::nop_update }]. *)
Definition value_new (T : elem_type) (BIT_SIZE : nat) (TRACE_DEPTH : Z)
    (cur_seq garbage : Z) (default_value : option Z) : vcd_value :=
  let v :=
    {| T := T; BIT_SIZE := BIT_SIZE; TRACE_DEPTH := TRACE_DEPTH;
       _scope := {| identifier := ""; updater := nop_update |};
       _idx_write := -1; _idx_read := 0;
       _samples := replicate (Z.to_nat TRACE_DEPTH) (sample_default garbage) |} in
  match default_value with
  | None => update_sample (sample_set_state cur_seq unknown_x) 0 v
  | Some d => update_sample (sample_set cur_seq d) 0 v
  end.

(** [value::set_state<S>]; [cur_seq] is [*CUR_SEQ]. *)
Definition set_state (cur_seq : Z) (S : value_state) (v : vcd_value) : vcd_value :=
  if Z.eqb (TRACE_DEPTH v) 1 then
    if negb (value_state_eqb (state (sample_at v 0)) S)
    then with_write 1 (update_sample (sample_set_state cur_seq S) 0 v)
    else v
  else
    let w := _idx_write v in
    if Z.eqb w (-1)
       || (Z.ltb w (TRACE_DEPTH v) && negb (value_state_eqb (state (sample_at v w)) S))
    then
      let w1 :=
        if Z.eqb w (-1) || negb (Z.eqb (sequence (sample_at v w)) cur_seq)
        then w + 1 else w in
      let v1 := with_write w1 v in
      if Z.ltb w1 (TRACE_DEPTH v)
      then update_sample (sample_set_state cur_seq S) w1 v1
      else v1
    else v.

(** [value::unknown] and [value::undriven] *)
Definition unknown (cur_seq : Z) : vcd_value -> vcd_value := set_state cur_seq unknown_x.
Definition undriven (cur_seq : Z) : vcd_value -> vcd_value := set_state cur_seq undriven_z.

(** [value::sample_changed] *)
Definition sample_changed (new_sample prev_sample : Z) : bool :=
  negb (Z.eqb new_sample prev_sample).

(** [value::set]; [cur_seq] is [*CUR_SEQ]. *)
Definition set (cur_seq : Z) (x : Z) (v : vcd_value) : vcd_value :=
  if Z.eqb (TRACE_DEPTH v) 1 then
    if sample_changed x (value (sample_at v 0))
       || negb (value_state_eqb (state (sample_at v 0)) known)
    then with_write 1 (update_sample (sample_set cur_seq x) 0 v)
    else v
  else
    let w := _idx_write v in
    if Z.eqb w (-1)
       || (Z.ltb w (TRACE_DEPTH v)
           && (sample_changed x (value (sample_at v w))
               || negb (value_state_eqb (state (sample_at v w)) known)))
    then
      let w1 :=
        if Z.eqb w (-1) || negb (Z.eqb (sequence (sample_at v w)) cur_seq)
        then w + 1 else w in
      let v1 := with_write w1 v in
      if Z.ltb w1 (TRACE_DEPTH v)
      then update_sample (sample_set cur_seq x) w1 v1
      else v1
    else v.

(** The line [value_base::dump<T>] writes for the sample at index [i]. *)
Definition dump_sample (v : vcd_value) (i : Z) : list vcd_line :=
  let s := sample_at v i in
  value_base_dump (T v) (identifier (_scope v)) (BIT_SIZE v) (state s) (value s).

(** [value::dump(out, start)]: the lines written, the result and the
    object afterwards. The branch for a buffered value without a counter
    is left out: the class does not compile there. *)
Definition value_dump (v : vcd_value) (start : bool)
    : list vcd_line * dump_sequence_t * vcd_value :=
  if Z.eqb (TRACE_DEPTH v) 1 then
    if negb (Z.eqb (_idx_write v) 0)
    then (dump_sample v 0, end_sequence, with_write 0 v)
    else ([], end_sequence, v)
  else
    let v := if start then with_read 0 v else v in
    if Z.ltb (_idx_write v) (_idx_read v) then
      ([], end_sequence, with_write (-1) v)
    else
      let read_index := _idx_read v in
      if start then
        ([], {| dumped := None; next_seq := Some (sequence (sample_at v read_index)) |}, v)
      else
        let out := dump_sample v read_index in
        let done := Some (sequence (sample_at v read_index)) in
        let v1 := with_read (_idx_read v + 1) v in
        if Z.ltb (_idx_write v1) (_idx_read v1) then
          (out, {| dumped := done; next_seq := None |}, with_write (-1) v1)
        else
          (out, {| dumped := done;
                   next_seq := Some (sequence (sample_at v1 (_idx_read v1))) |}, v1).

(** ** Registration interface ([scope_fn]) *)

(** [scope_fn::dumper_fn]: the stub [scope_fn::nop_dump], or the closure
    [[this](out, start) { return this->dump(out, start); }] of the value
    at address [this]. *)
Inductive dumper_fn :=
| nop_dump
| value_dumper (this : nat).

(** A [std::map] with [std::string] keys, in key order. *)
Fixpoint map_assign {V : Type} (k : string) (x : V) (m : list (string * V))
    : list (string * V) :=
  match m with
  | [] => [(k, x)]
  | (k', x') :: m' =>
      match String.compare k k' with
      | Eq => (k, x) :: m'
      | Lt => (k, x) :: m
      | Gt => (k', x') :: map_assign k x m'
      end
  end.

Fixpoint map_find {V : Type} (k : string) (m : list (string * V)) : option V :=
  match m with
  | [] => None
  | (k', x') :: m' => if String.eqb k k' then Some x' else map_find k m'
  end.

(** ** [module_instance] and [module] (vcd_tracer.hpp, vcd_tracer.cpp) *)

(** [module_instance]: [vcd_scope] is the text collected so far, one
    line per element. *)
#[local] Unset Elimination Schemes.
Inductive module_instance := mk_module_instance {
  instance_name : string;
  vcd_scope : list vcd_line;
  children : list module_instance
}.
#[local] Set Elimination Schemes.

(** A [module] names the instance it holds by the path of child indices
    from the root instance. *)
Definition module_path := list nat.

(** The three constructors of [module] start the text of the instance. *)
Definition module_new (name : string) : module_instance :=
  {| instance_name := name;
     vcd_scope := [L_text ("$scope module " +:+ name +:+ " $end")];
     children := [] |}.

Fixpoint instance_at (p : module_path) (c : module_instance) : option module_instance :=
  match p with
  | [] => Some c
  | i :: p' =>
      match children c !! i with
      | Some ch => instance_at p' ch
      | None => None
      end
  end.

Fixpoint update_at (p : module_path) (f : module_instance -> module_instance)
    (c : module_instance) : module_instance :=
  match p with
  | [] => f c
  | i :: p' =>
      {| instance_name := instance_name c;
         vcd_scope := vcd_scope c;
         children := alter (update_at p' f) i (children c) |}
  end.

(** [parent._context->children.push_back(_context)] *)
Definition push_child (ch : module_instance) (c : module_instance) : module_instance :=
  {| instance_name := instance_name c;
     vcd_scope := vcd_scope c;
     children := children c ++ [ch] |}.

(** [_context->vcd_scope << ...] *)
Definition append_scope (l : vcd_line) (c : module_instance) : module_instance :=
  {| instance_name := instance_name c;
     vcd_scope := vcd_scope c ++ [l];
     children := children c |}.

(** [module(module &parent, instance_name)] and [get_module]: the new
    instance becomes the last child of [parent]; the result is the tree
    and the path of the new module. *)
Definition module_child (parent : module_path) (name : string) (root : module_instance)
    : option (module_instance * module_path) :=
  match instance_at parent root with
  | Some c =>
      Some (update_at parent (push_child (module_new name)) root,
            parent ++ [length (children c)])
  | None => None
  end.

(** The chain of [register_var] calls from the module at [p] up to the
    root: every level puts its instance name and a dot in front. *)
Fixpoint register_path (p : module_path) (c : module_instance) (leaf : string) : string :=
  instance_name c +:+ "." +:+
  match p with
  | [] => leaf
  | i :: p' =>
      match children c !! i with
      | Some ch => register_path p' ch leaf
      | None => leaf
      end
  end.

Definition var_line (var_type : string) (bit_size : nat) (id var_name : string) : vcd_line :=
  L_text ("$var " +:+ var_type +:+ " " +:+ dec (Z.of_nat bit_size) +:+ " " +:+ id
          +:+ " " +:+ var_name +:+ " $end").

Section Module.

(** The state behind the root's [_register_fn] and that function. *)
Context {S : Type}.
Variable register_fn : string -> dumper_fn -> S -> value_context * S.

(** [module::add_var] of the module at [p]. *)
Definition add_var (p : module_path) (var_name var_type : string) (bit_size : nat)
    (fn : dumper_fn) (root : module_instance) (s : S)
    : option (value_context * module_instance * S) :=
  match instance_at p root with
  | Some _ =>
      let (ctx, s') := register_fn (register_path p root var_name) fn s in
      Some (ctx,
            update_at p (append_scope (var_line var_type bit_size (identifier ctx) var_name)) root,
            s')
  | None => None
  end.

End Module.

(** [module::finalize_header(out, context)] *)
Fixpoint finalize_header_context (c : module_instance) : list vcd_line :=
  vcd_scope c
  ++ flat_map finalize_header_context (children c)
  ++ [L_text "$upscope $end"].

(** [module::finalize_header(out)]: [None] is the reset [_context]. *)
Definition module_finalize_header (ctx : option module_instance)
    : list vcd_line * option module_instance :=
  match ctx with
  | Some c => (finalize_header_context c, None)
  | None => ([], None)
  end.

(** ** [top] (vcd_tracer.hpp, vcd_tracer.cpp) *)

(** [top::map_data] *)
Record map_data := mk_map_data {
  identifier_map : list (string * string);
  dumper_map : list (string * dumper_fn)
}.

Record top := mk_top {
  _tracepoint : Z;
  _timestamp : Z;
  _identifier_generator : identifier_generator;
  _var_map : map_data;
  root : option module_instance
}.

(** [top::top(name)]; [_tracepoint] and [_timestamp] have no
    initialiser: [tp0] and [ts0] are their indeterminate content. *)
Definition top_new (name : string) (tp0 ts0 : Z) : top :=
  {| _tracepoint := tp0; _timestamp := ts0;
     _identifier_generator := identifier_generator_new;
     _var_map := {| identifier_map := []; dumper_map := [] |};
     root := Some (module_new name) |}.

Definition with_tracepoint (tp : Z) (t : top) : top :=
  {| _tracepoint := tp; _timestamp := _timestamp t;
     _identifier_generator := _identifier_generator t;
     _var_map := _var_map t; root := root t |}.

Definition with_timestamp (ts : Z) (t : top) : top :=
  {| _tracepoint := _tracepoint t; _timestamp := ts;
     _identifier_generator := _identifier_generator t;
     _var_map := _var_map t; root := root t |}.

Definition with_root (r : option module_instance) (t : top) : top :=
  {| _tracepoint := _tracepoint t; _timestamp := _timestamp t;
     _identifier_generator := _identifier_generator t;
     _var_map := _var_map t; root := r |}.

(** [var_map->dumper_map[identifier] = fn] *)
Definition set_dumper (id : string) (fn : dumper_fn) (t : top) : top :=
  {| _tracepoint := _tracepoint t; _timestamp := _timestamp t;
     _identifier_generator := _identifier_generator t;
     _var_map := {| identifier_map := identifier_map (_var_map t);
                    dumper_map := map_assign id fn (dumper_map (_var_map t)) |};
     root := root t |}.

(** The registration closure [top::top] gives to its root module. *)
Definition top_register (full_path : string) (fn : dumper_fn) (t : top)
    : value_context * top :=
  let (id, g) := next (_identifier_generator t) in
  ({| identifier := id; updater := slot_updater id |},
   {| _tracepoint := _tracepoint t; _timestamp := _timestamp t;
      _identifier_generator := g;
      _var_map := {| identifier_map := map_assign id full_path (identifier_map (_var_map t));
                     dumper_map := map_assign id fn (dumper_map (_var_map t)) |};
      root := root t |}).

(** Calling an [updater_fn]. *)
Definition call_updater (u : updater_fn) (fn : dumper_fn) (t : top) : top :=
  match u with
  | nop_update => t
  | slot_updater id => set_dumper id fn t
  end.

(** The session together with the value objects of the program. *)
Record world := mk_world {
  session : top;
  heap : gmap nat vcd_value
}.

(** Calling a [dumper_fn]; [None] when the closure refers to an object
    that is gone (no defined behaviour). *)
Definition call_dumper (fn : dumper_fn) (start : bool) (h : gmap nat vcd_value)
    : option (list vcd_line * dump_sequence_t * gmap nat vcd_value) :=
  match fn with
  | nop_dump => Some ([], end_sequence, h)
  | value_dumper this =>
      match h !! this with
      | Some v =>
          let '(out, r, v') := value_dump v start in
          Some (out, r, <[this := v']> h)
      | None => None
      end
  end.

(** [top::log_time]: the lines written and the new [_tracepoint]. *)
Definition log_time (new_time : Z) (force : bool) (tracepoint : Z)
    : list vcd_line * Z :=
  if force || negb (Z.eqb new_time tracepoint)
  then ([L_time new_time], new_time)
  else ([], tracepoint).

(** [std::map<sequence_t, std::vector<std::string>> status], in key
    order; [status_push s id] is [status[s].push_back(id)]. *)
Fixpoint status_push (s : Z) (id : string) (status : list (Z * list string))
    : list (Z * list string) :=
  match status with
  | [] => [(s, [id])]
  | (k, ids) :: status' =>
      if Z.ltb s k then (s, [id]) :: status
      else if Z.eqb s k then (k, ids ++ [id]) :: status'
      else (k, ids) :: status_push s id status'
  end.

Definition status_note (r : dump_sequence_t) (id : string)
    (status : list (Z * list string)) : list (Z * list string) :=
  match next_seq r with
  | Some s => status_push s id status
  | None => status
  end.

(** First pass of [top::time_update_core] over the entries [m] of the
    dumper map. [first] is [first_sequence], [None] while [first_unset]. *)
Fixpoint first_pass (m : list (string * dumper_fn)) (status : list (Z * list string))
    (first : option Z) (h : gmap nat vcd_value)
    : option (list vcd_line * list (Z * list string) * option Z * gmap nat vcd_value) :=
  match m with
  | [] => Some ([], status, first, h)
  | (id, dump_fn) :: m' =>
      match call_dumper dump_fn true h with
      | Some (out, r, h1) =>
          let status1 := status_note r id status in
          let first1 :=
            match dumped r, first with
            | Some d, None => Some d
            | Some d, Some f => if Z.ltb d f then Some d else first
            | None, _ => first
            end in
          match first_pass m' status1 first1 h1 with
          | Some (out', status2, first2, h2) => Some (out ++ out', status2, first2, h2)
          | None => None
          end
      | None => None
      end
  end.

(** The loop over the identifiers of one bucket in the second pass.
    [dumper_map[identifier]] on a missing key holds no function:
    calling it has no result. *)
Fixpoint dump_bucket (m : list (string * dumper_fn)) (ids : list string)
    (status : list (Z * list string)) (h : gmap nat vcd_value)
    : option (list vcd_line * list (Z * list string) * gmap nat vcd_value) :=
  match ids with
  | [] => Some ([], status, h)
  | id :: ids' =>
      match map_find id m with
      | Some dump_fn =>
          match call_dumper dump_fn false h with
          | Some (out, r, h1) =>
              match dump_bucket m ids' (status_note r id status) h1 with
              | Some (out', status2, h2) => Some (out ++ out', status2, h2)
              | None => None
              end
          | None => None
          end
      | None => None
      end
  end.

(** Second pass of [top::time_update_core]: the [while (status.size() > 0)]
    loop, at most [fuel] rounds. The result is the lines written, the
    tracepoint and the store. *)
Fixpoint second_pass (fuel : nat) (m : list (string * dumper_fn)) (timestamp : Z)
    (status : list (Z * list string)) (first : option Z) (tracepoint : Z)
    (h : gmap nat vcd_value)
    : option (list vcd_line * Z * gmap nat vcd_value) :=
  match status with
  | [] => Some ([], tracepoint, h)
  | (s, ids) :: _ =>
      match fuel with
      | O => None
      | Datatypes.S fuel' =>
          let first_sequence := match first with Some f => f | None => s end in
          let delta := wrap64 (s - first_sequence) in
          let (out1, tp1) := log_time (wrap64 (timestamp + delta)) false tracepoint in
          match dump_bucket m ids status h with
          | Some (out2, status2, h2) =>
              match second_pass fuel' m timestamp (tail status2) (Some first_sequence) tp1 h2 with
              | Some (out3, tp3, h3) => Some (out1 ++ out2 ++ out3, tp3, h3)
              | None => None
              end
          | None => None
          end
      end
  end.

(** A bound on the rounds of the second pass: every round erases one
    bucket, and a bucket is made by the first pass or by a value that
    has just been read, at most [_idx.write + 1] times for each value. *)
Definition rounds_of (fn : dumper_fn) (h : gmap nat vcd_value) : nat :=
  match fn with
  | nop_dump => 0
  | value_dumper this =>
      match h !! this with
      | Some v => Z.to_nat (_idx_write v + 2)
      | None => 0
      end
  end.

Definition rounds (m : list (string * dumper_fn)) (h : gmap nat vcd_value) : nat :=
  Datatypes.S (list_sum (map (fun e => rounds_of (snd e) h) m)).

(** [top::time_update_core] *)
Definition time_update_core (w : world) : option (list vcd_line * world) :=
  let t := session w in
  let m := dumper_map (_var_map t) in
  match first_pass m [] None (heap w) with
  | Some (out1, status, first, h1) =>
      match second_pass (rounds m h1) m (_timestamp t) status first (_tracepoint t) h1 with
      | Some (out2, tp, h2) =>
          Some (out1 ++ out2, {| session := with_tracepoint tp t; heap := h2 |})
      | None => None
      end
  | None => None
  end.

(** The constant part of the header. *)
Definition STATIC_VCD_HEADER : list vcd_line :=
  [L_text "$version"; L_text "   C++ Simple VCD Logger"; L_text "$end"].

(** [top::finalize_header]; [date] is the line [std::asctime] gives for
    the time point. *)
Definition finalize_header (date : string) (w : world) : option (list vcd_line * world) :=
  let t := session w in
  let out1 :=
    [L_text "$date"; L_text ("   " +:+ date); L_text "$end";
     L_text "$timescale"; L_text "   1ns"; L_text "$end"] ++ STATIC_VCD_HEADER in
  let (out2, r) := module_finalize_header (root t) in
  let out3 := [L_text "$enddefinitions $end"] in
  let (out4, tp) := log_time 0 true (_tracepoint t) in
  let t1 := with_timestamp 0 (with_tracepoint tp (with_root r t)) in
  match time_update_core {| session := t1; heap := heap w |} with
  | Some (out5, w') => Some (out1 ++ out2 ++ out3 ++ out4 ++ out5, w')
  | None => None
  end.

(** [top::time_update_delta]; [delta] is [delta.count()]. *)
Definition time_update_delta (delta : Z) (w : world) : option (list vcd_line * world) :=
  match time_update_core w with
  | Some (out1, w1) =>
      let t := session w1 in
      let ts := wrap64 (_timestamp t + to_u64 delta) in
      let ts := if Z.leb ts (_tracepoint t) then _tracepoint t else ts in
      let (out2, tp) := log_time ts false (_tracepoint t) in
      Some (out1 ++ out2,
            {| session := with_tracepoint tp (with_timestamp ts t); heap := heap w1 |})
  | None => None
  end.

(** [top::time_update_abs]; [new_timestamp] is [new_timestamp.count()].
    The first comparison is made in [std::uint64_t], the second in
    [long int]. *)
Definition time_update_abs (new_timestamp : Z) (w : world) : option (list vcd_line * world) :=
  match time_update_core w with
  | Some (out1, w1) =>
      let t := session w1 in
      if Z.leb (_timestamp t) (to_u64 new_timestamp) then
        let count :=
          if Z.leb new_timestamp (to_i64 (_tracepoint t))
          then to_i64 (_tracepoint t) else new_timestamp in
        let ts := to_u64 count in
        let (out2, tp) := log_time ts false (_tracepoint t) in
        Some (out1 ++ out2,
              {| session := with_tracepoint tp (with_timestamp ts t); heap := heap w1 |})
      else Some (out1, w1)
  | None => None
  end.

(** [top::finalize_trace] *)
Definition finalize_trace (w : world) : option (list vcd_line * world) :=
  match time_update_delta 1 w with
  | Some (out1, w1) =>
      match time_update_delta 1000 w1 with
      | Some (out2, w2) => Some (out1 ++ out2, w2)
      | None => None
      end
  | None => None
  end.

(** ** Values of a session *)

(** [add_var] of the module at [p] under the root of [top]. *)
Definition top_add_var (p : module_path) (var_name var_type : string) (bit_size : nat)
    (fn : dumper_fn) (t : top) : option (value_context * top) :=
  match root t with
  | Some r =>
      match add_var top_register p var_name var_type bit_size fn r t with
      | Some (ctx, r', t') => Some (ctx, with_root (Some r') t')
      | None => None
      end
  | None => None
  end.

(** [value(void)] and [value(default_value)] at the free address [this]. *)
Definition declare (this : nat) (v : vcd_value) (w : world) : world :=
  {| session := session w; heap := <[this := v]> (heap w) |}.

(** [module::elaborate(var, var_name)] for the module at [p]:
    [value::elaborate] and [value_base::elaborate_base]. *)
Definition elaborate (p : module_path) (this : nat) (var_name : string) (w : world)
    : option world :=
  match heap w !! this with
  | Some v =>
      match top_add_var p var_name (vcd_var_type (T v)) (BIT_SIZE v)
              (value_dumper this) (session w) with
      | Some (ctx, t') =>
          Some {| session := t'; heap := <[this := with_scope ctx v]> (heap w) |}
      | None => None
      end
  | None => None
  end.

(** [value(add_fn, var_name)] and [value(add_fn, var_name, default_value)]
    at the free address [this], with the [add_fn] of the module at [p]:
    the base class registers first, then the body sets [_idx.write] and
    the default. *)
Definition construct (p : module_path) (this : nat) (var_name : string)
    (T : elem_type) (BIT_SIZE : nat) (TRACE_DEPTH : Z) (cur_seq garbage : Z)
    (default_value : option Z) (w : world) : option world :=
  match top_add_var p var_name (vcd_var_type T) BIT_SIZE (value_dumper this) (session w) with
  | Some (ctx, t') =>
      let v :=
        {| T := T; BIT_SIZE := BIT_SIZE; TRACE_DEPTH := TRACE_DEPTH;
           _scope := ctx; _idx_write := -1; _idx_read := 0;
           _samples := replicate (Z.to_nat TRACE_DEPTH) (sample_default garbage) |} in
      let v :=
        match default_value with
        | Some d => update_sample (sample_set cur_seq d) 0 v
        | None => v
        end in
      Some {| session := t'; heap := <[this := v]> (heap w) |}
  | None => None
  end.

(** [value_base::~value_base] of the value at [this]. *)
Definition destroy (this : nat) (w : world) : option world :=
  match heap w !! this with
  | Some v =>
      Some {| session := call_updater (updater (_scope v)) nop_dump (session w);
              heap := delete this (heap w) |}
  | None => None
  end.

(** A method call on the value at [this]. *)
Definition on_value (this : nat) (f : vcd_value -> vcd_value) (w : world) : world :=
  {| session := session w; heap := alter f this (heap w) |}.

(** ** The encoding in the words of the specification *)

(** The bits [n - 1 .. 0] of [v], most significant first. *)
Fixpoint msb_first (n : nat) (v : Z) : list bool :=
  match n with
  | O => []
  | Datatypes.S n' => Z.testbit v (Z.of_nat n') :: msb_first n' v
  end.

(** Removal of the leading bits equal to [b]. *)
Fixpoint drop_run (b : bool) (l : list bool) : list bool :=
  match l with
  | [] => []
  | c :: l' => if Bool.eqb c b then drop_run b l' else l
  end.

(** The run of leading bits equal to the first one collapsed to one copy. *)
Definition compact (l : list bool) : list bool :=
  match l with
  | [] => []
  | b :: l' => b :: drop_run b l'
  end.

Fixpoint bits_text (l : list bool) : string :=
  match l with
  | [] => ""
  | b :: l' => bit_char b +:+ bits_text l'
  end.

(** ** Notions used by the statements *)

(** Two states of one value object that differ in its indices only. *)
Definition same_frame (v v' : vcd_value) : Prop :=
  T v' = T v /\ BIT_SIZE v' = BIT_SIZE v /\ TRACE_DEPTH v' = TRACE_DEPTH v /\
  _scope v' = _scope v /\ _samples v' = _samples v.

(** The line [value_base::dump] writes for the sample [s] of [v]. *)
Definition encode (v : vcd_value) (s : sample) : list vcd_line :=
  value_base_dump (T v) (identifier (_scope v)) (BIT_SIZE v) (state s) (value s).

(** A run of calls of [value::dump], one for each flag. *)
Fixpoint dump_run (starts : list bool) (v : vcd_value) : list vcd_line * vcd_value :=
  match starts with
  | [] => ([], v)
  | b :: bs =>
      let '(out, _, v1) := value_dump v b in
      let (out', v2) := dump_run bs v1 in
      (out ++ out', v2)
  end.

(** The samples of a buffered value that wait for the next flush. *)
Definition pending (v : vcd_value) : list sample :=
  take (Z.to_nat (_idx_write v + 1)) (_samples v).

(** The declarations of a scope and its sub-scopes, in the order of
    their creation. *)
Record var_decl := mk_var_decl {
  var_kind : string;
  var_bits : nat;
  var_id : string;
  var_name : string
}.

#[local] Unset Elimination Schemes.
Inductive scope_tree :=
| Scope (name : string) (vars : list var_decl) (subs : list scope_tree).
#[local] Set Elimination Schemes.

Definition decl_line (d : var_decl) : vcd_line :=
  var_line (var_kind d) (var_bits d) (var_id d) (var_name d).

(** The header text of a scope tree in the words of the specification:
    depth first, the scope line, the variables, the sub-scopes, and one
    closing line. *)
Fixpoint header_text (t : scope_tree) : list vcd_line :=
  match t with
  | Scope name vars subs =>
      L_text ("$scope module " +:+ name +:+ " $end")
      :: map decl_line vars
      ++ flat_map header_text subs
      ++ [L_text "$upscope $end"]
  end.

(** The instance tree the library holds for a scope tree. *)
Fixpoint instance_of (t : scope_tree) : module_instance :=
  match t with
  | Scope name vars subs =>
      {| instance_name := name;
         vcd_scope := L_text ("$scope module " +:+ name +:+ " $end") :: map decl_line vars;
         children := map instance_of subs |}
  end.

Definition tree_add_var (d : var_decl) (t : scope_tree) : scope_tree :=
  match t with
  | Scope name vars subs => Scope name (vars ++ [d]) subs
  end.

Definition tree_add_sub (name' : string) (t : scope_tree) : scope_tree :=
  match t with
  | Scope name vars subs => Scope name vars (subs ++ [Scope name' [] []])
  end.

Fixpoint tree_update_at (p : module_path) (f : scope_tree -> scope_tree)
    (t : scope_tree) : scope_tree :=
  match p with
  | [] => f t
  | i :: p' =>
      match t with
      | Scope name vars subs => Scope name vars (alter (tree_update_at p' f) i subs)
      end
  end.

(** [elaborated S register_fn c t]: the calls of the [module]
    constructors and of [add_var] that lead to the instance tree [c],
    with the scope tree [t] they describe. *)
Inductive elaborated {S : Type} (register_fn : string -> dumper_fn -> S -> value_context * S)
    : module_instance -> scope_tree -> Prop :=
| elaborated_root name :
    elaborated register_fn (module_new name) (Scope name [] [])
| elaborated_child c t p name c' p' :
    elaborated register_fn c t ->
    module_child p name c = Some (c', p') ->
    elaborated register_fn c' (tree_update_at p (tree_add_sub name) t)
| elaborated_var c t p var_name var_type bit_size fn s ctx c' s' :
    elaborated register_fn c t ->
    add_var register_fn p var_name var_type bit_size fn c s = Some (ctx, c', s') ->
    elaborated register_fn c'
      (tree_update_at p
         (tree_add_var {| var_kind := var_type; var_bits := bit_size;
                          var_id := identifier ctx; var_name := var_name |}) t).

Fixpoint starts_with (pre s : string) : bool :=
  match pre with
  | EmptyString => true
  | String a pre' =>
      match s with
      | EmptyString => false
      | String b s' => Ascii.eqb a b && starts_with pre' s'
      end
  end.

Definition is_scope_line (l : vcd_line) : bool :=
  match l with
  | L_text s => starts_with "$scope module " s
  | L_time _ => false
  end.

Definition is_upscope_line (l : vcd_line) : bool :=
  match l with
  | L_text s => String.eqb s "$upscope $end"
  | L_time _ => false
  end.

(** The nesting depth after the lines [out], starting at depth [d];
    [None] when a scope is closed that was not opened. *)
Fixpoint nesting (out : list vcd_line) (d : nat) : option nat :=
  match out with
  | [] => Some d
  | l :: out' =>
      if is_scope_line l then nesting out' (Datatypes.S d)
      else if is_upscope_line l then
        match d with
        | O => None
        | Datatypes.S d' => nesting out' d'
        end
      else nesting out' d
  end.

(** ** The merge in the words of the specification *)

(** The samples of a buffered value the current drain has not read yet. *)
Definition unread (v : vcd_value) : list sample :=
  take (Z.to_nat (_idx_write v + 1 - _idx_read v))
       (drop (Z.to_nat (_idx_read v)) (_samples v)).

(** The value behind the callback registered as [id]. *)
Definition slot_value (m : list (string * dumper_fn)) (h : gmap nat vcd_value)
    (id : string) : option vcd_value :=
  match map_find id m with
  | Some (value_dumper this) => h !! this
  | _ => None
  end.

Definition queue (m : list (string * dumper_fn)) (h : gmap nat vcd_value)
    (id : string) : list sample :=
  match slot_value m h id with
  | Some v => unread v
  | None => []
  end.

(** The pending samples of the signal registered as [id]. *)
Definition waiting (m : list (string * dumper_fn)) (h : gmap nat vcd_value)
    (id : string) : list sample :=
  match slot_value m h id with
  | Some v => pending v
  | None => []
  end.

(** Sequences recorded under a strictly increasing counter: every
    sample is later than the one before it, within [std::uint64_t]. *)
Fixpoint increasing_b (l : list sample) : bool :=
  match l with
  | [] => true
  | s :: l' =>
      Z.leb 0 (sequence s) && Z.ltb (sequence s) (2 ^ 64)
      && match l' with
         | [] => true
         | s' :: _ => Z.ltb (sequence s) (sequence s')
         end
      && increasing_b l'
  end.

(** A buffered value (capacity above 1) that has not overflowed, known
    to the registry as [id]. *)
Definition buffered_b (id : string) (v : vcd_value) : bool :=
  Z.ltb 1 (TRACE_DEPTH v)
  && Nat.eqb (length (_samples v)) (Z.to_nat (TRACE_DEPTH v))
  && Z.leb (-1) (_idx_write v) && Z.ltb (_idx_write v) (TRACE_DEPTH v)
  && String.eqb (identifier (_scope v)) id
  && increasing_b (pending v).

Fixpoint distinct_b (l : list string) : bool :=
  match l with
  | [] => true
  | x :: l' => negb (existsb (String.eqb x) l') && distinct_b l'
  end.

(** A registry of buffered signals: every callback is the stub or
    that of a live buffered value registered once. *)
Definition registered_b (m : list (string * dumper_fn)) (h : gmap nat vcd_value) : bool :=
  distinct_b (map fst m)
  && forallb (fun e =>
                match snd e with
                | nop_dump => true
                | value_dumper this =>
                    match h !! this with
                    | Some v => buffered_b (fst e) v
                    | None => false
                    end
                end) m.

(** The line of the sample [e.2] of the signal registered as [e.1]. *)
Definition entry_lines (m : list (string * dumper_fn)) (h : gmap nat vcd_value)
    (e : string * sample) : list vcd_line :=
  match slot_value m h (fst e) with
  | Some v => encode v (snd e)
  | None => []
  end.

Definition bucket_lines (m : list (string * dumper_fn)) (h : gmap nat vcd_value)
    (es : list (string * sample)) : list vcd_line :=
  flat_map (entry_lines m h) es.

(** The lines of a flush that writes the buckets [buckets], each a
    sequence with the samples recorded under it: the first bucket at
    the current timestamp, every later one after its own time line. *)
Definition flush_lines (m : list (string * dumper_fn)) (h : gmap nat vcd_value)
    (timestamp tracepoint : Z) (buckets : list (Z * list (string * sample)))
    : list vcd_line :=
  match buckets with
  | [] => []
  | (s0, es0) :: rest =>
      (if Z.eqb timestamp tracepoint then [] else [L_time timestamp])
      ++ bucket_lines m h es0
      ++ flat_map (fun b => L_time (wrap64 (timestamp + (fst b - s0)))
                            :: bucket_lines m h (snd b)) rest
  end.

(** The sequence of the last bucket of [bs], or [k] when there is none. *)
Fixpoint last_key (k : Z) (bs : list (Z * list (string * sample))) : Z :=
  match bs with
  | [] => k
  | b :: bs' => last_key (fst b) bs'
  end.

(** The tracepoint such a flush leaves. *)
Definition flush_tracepoint (timestamp tracepoint : Z)
    (buckets : list (Z * list (string * sample))) : Z :=
  match buckets with
  | [] => tracepoint
  | (s0, _) :: rest => wrap64 (timestamp + (last_key s0 rest - s0))
  end.

(** [buckets] holds the pending samples of the registry in increasing
    sequence order: the sequences of the buckets increase strictly, a
    bucket holds samples of its sequence only and at least one, and the
    samples of every signal are all there, in the order of its buffer. *)
Definition merged (m : list (string * dumper_fn)) (h : gmap nat vcd_value)
    (buckets : list (Z * list (string * sample))) : Prop :=
  StronglySorted Z.lt (map fst buckets) /\
  Forall (fun b => snd b <> [] /\ Forall (fun e => sequence (snd e) = fst b) (snd b)) buckets /\
  forall id : string,
    List.filter (fun e => String.eqb (fst e) id) (concat (map snd buckets))
    = map (pair id) (waiting m h id).

(** ** Notions used by the proofs *)

(** A value whose buffer is used up: [TRACE_DEPTH] samples wait and the
    counter has moved on since the newest, or an earlier call has
    already moved [_idx.write] past the buffer. *)
Definition used_up (cur_seq : Z) (v : vcd_value) : Prop :=
  _idx_write v = TRACE_DEPTH v \/
  (_idx_write v = TRACE_DEPTH v - 1 /\ sequence (sample_at v (_idx_write v)) <> cur_seq).

Section ScopeTreeInd.

Variable P : scope_tree -> Prop.
Hypothesis P_scope : forall name vars subs, Forall P subs -> P (Scope name vars subs).

Fixpoint scope_tree_ind (t : scope_tree) : P t :=
  match t with
  | Scope name vars subs =>
      P_scope name vars subs
        ((fix all (l : list scope_tree) : Forall P l :=
            match l with
            | [] => @List.Forall_nil _ P
            | t' :: l' => @List.Forall_cons _ P t' l' (scope_tree_ind t') (all l')
            end) subs)
  end.

End ScopeTreeInd.

Fixpoint scopes (t : scope_tree) : nat :=
  match t with
  | Scope _ _ subs => Datatypes.S (list_sum (map scopes subs))
  end.

Definition later (a b : sample) : Prop := sequence a < sequence b.

(** A value in the course of a drain. *)
Definition draining (v : vcd_value) : Prop :=
  1 < TRACE_DEPTH v /\
  length (_samples v) = Z.to_nat (TRACE_DEPTH v) /\
  0 <= _idx_read v /\
  -1 <= _idx_write v < TRACE_DEPTH v /\
  Sorted later (unread v) /\
  Forall (fun s => 0 <= sequence s < 2 ^ 64) (unread v).

(** The values a drain works on: every callback of the registry is the
    stub or belongs to a live value that knows its identifier. *)
Definition drain_inv (m : list (string * dumper_fn)) (h : gmap nat vcd_value) : Prop :=
  forall id this, map_find id m = Some (value_dumper this) ->
    exists v, h !! this = Some v /\ identifier (_scope v) = id /\ draining v.

(** Two stores with the same objects, up to their indices. *)
Definition heap_frame (h h' : gmap nat vcd_value) : Prop :=
  forall this,
    match h !! this, h' !! this with
    | Some v, Some v' => same_frame v v'
    | None, None => True
    | _, _ => False
    end.

(** The entries of the status map, each identifier with its key. *)
Definition heads (st : list (Z * list string)) : list (Z * string) :=
  flat_map (fun b => map (pair (fst b)) (snd b)) st.

(** [status[next].push_back(id)] for the value whose unread samples
    are [q] after the read. *)
Definition note_next (q : list sample) (id : string)
    (st : list (Z * list string)) : list (Z * list string) :=
  match q with
  | s :: _ => status_push (sequence s) id st
  | [] => st
  end.

(** The samples a bucket writes: the oldest unread one of every
    identifier. [qs] pairs the identifiers with their unread samples. *)
Definition bucket_entries (qs : list (string * list sample)) : list (string * sample) :=
  flat_map (fun q => match snd q with
                     | s :: _ => [(fst q, s)]
                     | [] => []
                     end) qs.

Definition bucket_notes (qs : list (string * list sample))
    (st : list (Z * list string)) : list (Z * list string) :=
  foldl (fun st q => note_next (tail (snd q)) (fst q) st) st qs.

(** The keys the reads of a bucket add to the status map. *)
Definition note_heads (qs : list (string * list sample)) : list (Z * string) :=
  flat_map (fun q => match tail (snd q) with
                     | s' :: _ => [(sequence s', fst q)]
                     | [] => []
                     end) qs.

(** The number of unread samples of the registry. *)
Definition load (m : list (string * dumper_fn)) (h : gmap nat vcd_value) : nat :=
  list_sum (map (fun e => length (queue m h (fst e))) m).

(** The lines and the tracepoint of the rounds of the second pass
    that write [buckets]. *)
Fixpoint drain_lines (m : list (string * dumper_fn)) (h : gmap nat vcd_value)
    (timestamp : Z) (first : option Z) (tracepoint : Z)
    (buckets : list (Z * list (string * sample))) : list vcd_line * Z :=
  match buckets with
  | [] => ([], tracepoint)
  | (s, es) :: bs =>
      let f := match first with Some f => f | None => s end in
      let (out1, tp1) := log_time (wrap64 (timestamp + wrap64 (s - f))) false tracepoint in
      let (out3, tp3) := drain_lines m h timestamp (Some f) tp1 bs in
      (out1 ++ bucket_lines m h es ++ out3, tp3)
  end.

(** The status map of a drain: its keys increase, no bucket is empty,
    and it holds exactly the identifiers with unread samples, each once
    and under the sequence of its oldest unread sample. *)
Definition status_ok (m : list (string * dumper_fn)) (h : gmap nat vcd_value)
    (st : list (Z * list string)) : Prop :=
  StronglySorted Z.lt (map fst st) /\
  Forall (fun b => snd b <> []) st /\
  NoDup (map snd (heads st)) /\
  (forall k id, (k, id) ∈ heads st ->
     exists s rest, queue m h id = s :: rest /\ sequence s = k) /\
  (forall id, queue m h id <> [] -> id ∈ map snd (heads st)).

Definition bucket_ok (b : Z * list (string * sample)) : Prop :=
  snd b <> [] /\
  Forall (fun e => sequence (snd e) = fst b /\ 0 <= sequence (snd e) < 2 ^ 64) (snd b).

(** The identifiers of a bucket with their unread samples. *)
Definition bucket_queues (m : list (string * dumper_fn)) (h : gmap nat vcd_value)
    (ids : list string) : list (string * list sample) :=
  map (fun id => (id, queue m h id)) ids.

(** The state of the first pass after the callbacks of [done]. *)
Definition peeked (m : list (string * dumper_fn)) (h0 : gmap nat vcd_value)
    (done : list string) (st : list (Z * list string))
    (h : gmap nat vcd_value) : Prop :=
  heap_frame h0 h /\
  (forall id this, map_find id m = Some (value_dumper this) ->
     exists v0 v,
       h0 !! this = Some v0 /\ h !! this = Some v /\ buffered_b id v0 = true /\
       (id ∈ done -> draining v /\ unread v = pending v0) /\
       (id ∉ done -> v = v0)) /\
  StronglySorted Z.lt (map fst st) /\
  Forall (fun b => snd b <> []) st /\
  NoDup (map snd (heads st)) /\
  (forall k id, (k, id) ∈ heads st ->
     id ∈ done /\ exists s rest, queue m h id = s :: rest /\ sequence s = k) /\
  (forall id, id ∈ done -> queue m h id <> [] -> id ∈ map snd (heads st)).

(** ** Sessions of the tests and of the examples *)

(** [module(parent, name)] for a parent under the root of the session. *)
Definition top_module (parent : module_path) (name : string) (w : world)
    : option (world * module_path) :=
  match root (session w) with
  | Some r =>
      match module_child parent name r with
      | Some (r', p) =>
          Some ({| session := with_root (Some r') (session w); heap := heap w |}, p)
      | None => None
      end
  | None => None
  end.

(** Calls [var.set(x)], each with the address of the value, the
    content of the sequence counter at the call, and [x]. *)
Definition sets (calls : list (nat * Z * Z)) (w : world) : world :=
  foldl (fun w c => on_value (fst (fst c)) (set (snd (fst c)) (snd c)) w) w calls.

Definition T_int : elem_type := T_integer 32 true.

Definition epoch : string := "Thu Jan  1 00:00:00 1970".

Definition new_world : world :=
  {| session := top_new "root" 0 0; heap := ∅ |}.

(** The registration function of the tests of [module]: the identifier
    is the full path. *)
Definition path_register (full_path : string) (fn : dumper_fn) (s : unit)
    : value_context * unit :=
  ({| identifier := full_path; updater := nop_update |}, s).

(** Test "VCD Top": a [value<bool>] constructed in module [mod1]. *)
Definition test_top : option (list vcd_line) :=
  '(w, mod1) ← top_module [] "mod1" new_world;
  w ← construct mod1 1 "flag" T_bool 1 1 0 0 None w;
  '(out, _) ← finalize_header epoch w;
  Some out.

(** A session with [value<int, 9, d1, &seq> var_1] and
    [value<int, 11, d2, &seq> var_2] at the addresses 1 and 2,
    elaborated as [ka] and [ki] in module [mod1], after its header; the
    counter starts at 42. *)
Definition two_buffered (d1 d2 : Z) : option (list vcd_line * world) :=
  '(w, mod1) ← top_module [] "mod1" new_world;
  let w := declare 1 (value_new T_int 9 d1 42 0 None) w in
  let w := declare 2 (value_new T_int 11 d2 42 0 None) w in
  w ← elaborate mod1 1 "ka" w;
  w ← elaborate mod1 2 "ki" w;
  finalize_header epoch w.

(** Test "VCD Top Trace Buf". *)
Definition test_top_trace_buf : option (list vcd_line * list vcd_line) :=
  '(header, w) ← two_buffered 10 12;
  let w := sets [(1%nat, 42, 0x11); (1%nat, 43, 0x12); (2%nat, 44, 0x21);
                 (2%nat, 45, 0x22); (1%nat, 46, 0x13); (1%nat, 47, 0x14);
                 (2%nat, 48, 0x23)] w in
  '(data, _) ← time_update_abs 10 w;
  Some (header, data).

(** Two signals of capacity 10 after 6 interleaved calls of [set]
    under the sequences 42 to 47. *)
Definition merge_world : world :=
  match two_buffered 10 10 with
  | Some (_, w) =>
      sets [(1%nat, 42, 0x11); (1%nat, 43, 0x12); (2%nat, 44, 0x21);
            (2%nat, 45, 0x22); (1%nat, 46, 0x13); (1%nat, 47, 0x14)] w
  | None => new_world
  end.

(** A session with one [value<int, 9, 4, &seq>] at address 1, elaborated
    as [ka] in the root module, after its header. *)
Definition one_buffered : option (list vcd_line * world) :=
  let w := declare 1 (value_new T_int 9 4 42 0 None) new_world in
  w ← elaborate [] 1 "ka" w;
  finalize_header epoch w.

(** The times of the time lines of a trace. *)
Definition times (out : list vcd_line) : list Z :=
  flat_map (fun l => match l with L_time t => [t] | L_text _ => [] end) out.

(** The session [one_buffered] after [time_update_abs(10ns)], two calls
    of [set] under the sequences 42 and 43, and [time_update_abs(5ns)];
    with the lines written so far. *)
Definition backwards_abs : option (list vcd_line * world) :=
  '(out0, w) ← one_buffered;
  '(out1, w) ← time_update_abs 10 w;
  let w := sets [(1%nat, 42, 1); (1%nat, 43, 2)] w in
  '(out2, w) ← time_update_abs 5 w;
  Some (out0 ++ out1 ++ out2, w).

(** The session [backwards_abs] after one more call of [set], before
    the next time update. *)
Definition rewind_world : world :=
  match backwards_abs with
  | Some (_, w) => sets [(1%nat, 44, 3)] w
  | None => new_world
  end.

(** The session [one_buffered] after two calls of [set] under the
    sequences 42 and 43. *)
Definition two_pending_world : world :=
  match one_buffered with
  | Some (_, w) => sets [(1%nat, 42, 1); (1%nat, 43, 2)] w
  | None => new_world
  end.

(** A [value<int, 9, 2, &seq>] known as [vv], as in the tests of the
    values, after two calls of [set] under the sequences 42 and 43. *)
Definition full_buffer : vcd_value :=
  set 43 2 (set 42 1
    (with_scope {| identifier := "vv"; updater := nop_update |}
       (value_new T_int 9 2 42 0 None))).

(** The line a time update writes after its flush: the new time, when
    it differs from the tracepoint. *)
Definition final_lines (new_time tracepoint : Z) : list vcd_line :=
  if Z.eqb new_time tracepoint then [] else [L_time new_time].

(** Test "VCD Module": five modules under [root] and five values. *)
Definition test_module : option (list vcd_line) :=
  '(r, mod1) ← module_child [] "mod1" (module_new "root");
  '(r, mod2) ← module_child [] "mod2" r;
  '(r, submod_a) ← module_child mod1 "submod_a" r;
  '(r, submod_b) ← module_child mod1 "submod_b" r;
  '(r, submod_c) ← module_child mod2 "submod_c" r;
  '(_, r, _) ← add_var path_register [] "ka" "real" 32 (value_dumper 1) r tt;
  '(_, r, _) ← add_var path_register mod1 "ki" "real" 64 (value_dumper 2) r tt;
  '(_, r, _) ← add_var path_register mod2 "ku" "wire" 1 (value_dumper 3) r tt;
  '(_, r, _) ← add_var path_register submod_a "ke" "wire" 32 (value_dumper 4) r tt;
  '(_, r, _) ← add_var path_register submod_c "ko" "wire" 16 (value_dumper 5) r tt;
  Some (finalize_header_context r).

(** ** Notions used by the further properties *)

(** The place value of a symbol of an identifier: 1 for [!] up to 90
    for [z]. *)
Definition digit (c : ascii) : Z := Z.of_nat (nat_of_ascii c) - 32.

(** An identifier read as a numeral of base 90 without a zero digit,
    most significant symbol first. *)
Definition rank_from (acc : Z) (l : list ascii) : Z :=
  fold_left (fun a c => a * 90 + digit c) l acc.

Definition rank (s : string) : Z := rank_from 0 (list_ascii_of_string s).

(** The numeral of [k] symbols [!]. *)
Fixpoint ones (k : nat) : Z :=
  match k with
  | O => 0
  | Datatypes.S k' => ones k' * 90 + 1
  end.

(** The number of identifiers of at most 15 symbols, the longest the
    array holds with its terminator. *)
Definition identifier_capacity : Z := 90 * ones 15.

Definition in_alphabet (c : ascii) : bool :=
  Nat.leb 33 (nat_of_ascii c) && Nat.leb (nat_of_ascii c) 122.

(** A buffered value by its shape alone. *)
Definition shaped (v : vcd_value) : Prop :=
  1 < TRACE_DEPTH v /\
  length (_samples v) = Z.to_nat (TRACE_DEPTH v) /\
  -1 <= _idx_write v < TRACE_DEPTH v.

(** A buffered value a flush has called: once nothing is left to read,
    nothing is pending. *)
Definition settled (v : vcd_value) : Prop :=
  shaped v /\ 0 <= _idx_read v /\ (unread v = [] -> _idx_write v = -1).

(** [R] holds of every value behind a callback of the registry. *)
Definition registry_all (R : vcd_value -> Prop) (m : list (string * dumper_fn))
    (h : gmap nat vcd_value) : Prop :=
  forall id this, map_find id m = Some (value_dumper this) ->
    exists v, h !! this = Some v /\ R v.

(** The order of the keys of a [std::map<std::string, _>]. *)
Definition key_lt (a b : string) : Prop := String.compare a b = Lt.

(** Keys in strictly increasing order, as a [std::map] holds them. *)
Fixpoint keys_sorted_b (l : list string) : bool :=
  match l with
  | [] => true
  | a :: l' =>
      match l' with
      | [] => true
      | b :: _ => match String.compare a b with Lt => true | _ => false end
      end && keys_sorted_b l'
  end.

(** A session after [n] registrations: the generator has been called
    [n] times and the registry holds the identifiers of these calls,
    in the order of a [std::map]. *)
Definition registered_n (n : nat) (t : top) : Prop :=
  _identifier_generator t = skip n identifier_generator_new /\
  keys_sorted_b (map fst (dumper_map (_var_map t))) = true /\
  forall id, id ∈ map fst (dumper_map (_var_map t)) <->
             exists i, (i < n)%nat /\ id = GenerateVcdKey i.

(** Every pending sample of the registry has a sequence below [bound]. *)
Definition pending_below_b (bound : Z) (m : list (string * dumper_fn))
    (h : gmap nat vcd_value) : bool :=
  forallb (fun e => forallb (fun s => Z.ltb (sequence s) bound) (waiting m h (fst e))) m.

(** An unbuffered value ([TRACE_DEPTH] 1) known to the registry as [id]. *)
Definition unbuffered_b (id : string) (v : vcd_value) : bool :=
  Z.eqb (TRACE_DEPTH v) 1 && String.eqb (identifier (_scope v)) id.

(** A registry of unbuffered signals: every callback is the stub or
    that of a live unbuffered value registered once. *)
Definition plain_b (m : list (string * dumper_fn)) (h : gmap nat vcd_value) : bool :=
  distinct_b (map fst m)
  && forallb (fun e =>
                match snd e with
                | nop_dump => true
                | value_dumper this =>
                    match h !! this with
                    | Some v => unbuffered_b (fst e) v
                    | None => false
                    end
                end) m.

(** The lines of the unbuffered values whose flag [_idx.write] is set,
    in the order of the registry. *)
Definition changed_lines (m : list (string * dumper_fn)) (h : gmap nat vcd_value)
    : list vcd_line :=
  flat_map (fun e =>
              match snd e with
              | nop_dump => []
              | value_dumper this =>
                  match h !! this with
                  | Some v => if negb (Z.eqb (_idx_write v) 0) then dump_sample v 0 else []
                  | None => []
                  end
              end) m.

(** The instance names from the root instance [c] down to the module
    at [p]. *)
Fixpoint names_along (p : module_path) (c : module_instance) : list string :=
  instance_name c ::
  match p with
  | [] => []
  | i :: p' =>
      match children c !! i with
      | Some ch => names_along p' ch
      | None => []
      end
  end.

(** The lines [top::finalize_header] writes before the definitions of
    the scopes. *)
Definition header_preamble (date : string) : list vcd_line :=
  [L_text "$date"; L_text ("   " +:+ date); L_text "$end";
   L_text "$timescale"; L_text "   1ns"; L_text "$end";
   L_text "$version"; L_text "   C++ Simple VCD Logger"; L_text "$end"].

(** * Facts *)

(** ** Regression against the unit tests *)

Example GenerateVcdKey_0 : GenerateVcdKey 0 = "!".
Proof. reflexivity. Qed.
Example dump_9_155 : value_base_dump (T_integer 32 true) "vv" 9 known 0x155 = [L_text "b101010101 vv"].
Proof. reflexivity. Qed.
Example dump_9_0AA : value_base_dump (T_integer 32 true) "vv" 9 known 0x0AA = [L_text "b010101010 vv"].
Proof. reflexivity. Qed.
Example dump_15 : value_base_dump (T_integer 32 false) "vv" 15 known 0x4242 = [L_text "b100001001000010 vv"].
Proof. reflexivity. Qed.
Example dump_11 : value_base_dump (T_integer 32 true) "vv" 11 known 0x355 = [L_text "b01101010101 vv"].
Proof. reflexivity. Qed.
Example dump_17 : value_base_dump (T_integer 32 false) "vv" 17 known 0x1DEAD = [L_text "b101111010101101 vv"].
Proof. reflexivity. Qed.

(** ** Identifier generator *)

Lemma next_carry_run (pre : list ascii) (c : ascii) (k : nat) :
  c <> VCD_NAME_END ->
  forall rest,
    next_carry (length pre + 1 + k) (pre ++ c :: replicate k VCD_NAME_END ++ rest)
    = (pre ++ char_succ c :: replicate k VCD_NAME_START ++ rest, true).
Proof.
  intros Hc. induction k as [| k IH]; intros rest.
  - replace (length pre + 1 + 0)%nat with (Datatypes.S (length pre)) by lia.
    cbn [next_carry replicate app].
    rewrite list_lookup_middle by reflexivity.
    destruct (Ascii.eqb_spec c VCD_NAME_END) as [? | _]; [contradiction |].
    rewrite insert_app_r_alt by lia. rewrite Nat.sub_diag. reflexivity.
  - replace (length pre + 1 + Datatypes.S k)%nat
      with (Datatypes.S (length pre + 1 + k)) by lia.
    assert (forall x : ascii, replicate (Datatypes.S k) x ++ rest = replicate k x ++ x :: rest)
      as Hshift.
    { intros x. rewrite replicate_S_end, <- app_assoc. reflexivity. }
    rewrite !Hshift.
    assert (forall x : ascii,
              pre ++ c :: replicate k VCD_NAME_END ++ x :: rest
              = (pre ++ c :: replicate k VCD_NAME_END) ++ x :: rest) as Hsplit.
    { intros x. rewrite <- app_assoc. reflexivity. }
    cbn [next_carry]. rewrite (Hsplit VCD_NAME_END).
    rewrite list_lookup_middle
      by (rewrite length_app; cbn [length]; rewrite length_replicate; lia).
    rewrite Ascii.eqb_refl.
    rewrite insert_app_r_alt
      by (rewrite length_app; cbn [length]; rewrite length_replicate; lia).
    replace (length pre + 1 + k - length (pre ++ c :: replicate k VCD_NAME_END))%nat
      with 0%nat by (rewrite length_app; cbn [length]; rewrite length_replicate; lia).
    cbn [insert list_insert]. rewrite <- Hsplit. apply IH.
Qed.

(** A call of [next] increments the last symbol below [z] and wraps
    the symbols [z] after it to [!]. *)
Lemma next_increment (pre : list ascii) (c : ascii) (k : nat) (rest : list ascii) :
  c <> VCD_NAME_END -> rest <> [] ->
  next {| _identifier := pre ++ c :: replicate k VCD_NAME_END ++ rest;
          _size := length pre + 1 + k |}
  = (c_str (pre ++ char_succ c :: replicate k VCD_NAME_START ++ rest),
     {| _identifier := pre ++ char_succ c :: replicate k VCD_NAME_START ++ rest;
        _size := length pre + 1 + k |}).
Proof.
  intros Hc Hrest. unfold next. cbn [_size _identifier].
  destruct (Nat.eqb_spec (length pre + 1 + k)
              (length (pre ++ c :: replicate k VCD_NAME_END ++ rest))) as [E | _].
  { rewrite length_app in E. cbn [length] in E. rewrite length_app, length_replicate in E.
    destruct rest; [contradiction | cbn [length] in E; lia]. }
  destruct (Nat.eqb_spec (length pre + 1 + k) 0) as [E | _]; [lia |].
  rewrite (next_carry_run pre c k Hc rest). reflexivity.
Qed.

Lemma next_carry_all (k : nat) :
  forall rest,
    next_carry k (replicate k VCD_NAME_END ++ rest)
    = (replicate k VCD_NAME_START ++ rest, false).
Proof.
  induction k as [| k IH]; intros rest; [reflexivity |].
  assert (forall x : ascii, replicate (Datatypes.S k) x ++ rest = replicate k x ++ x :: rest)
    as Hshift.
  { intros x. rewrite replicate_S_end, <- app_assoc. reflexivity. }
  rewrite !Hshift. cbn [next_carry].
  rewrite list_lookup_middle by (rewrite length_replicate; reflexivity).
  rewrite Ascii.eqb_refl.
  rewrite insert_app_r_alt by (rewrite length_replicate; lia).
  rewrite length_replicate, Nat.sub_diag. cbn [insert list_insert]. apply IH.
Qed.

(** When every symbol is [z], a call of [next] wraps them all to [!]
    and adds a symbol [!]. *)
Lemma next_new_column (k : nat) (a b : ascii) (rest : list ascii) :
  (0 < k)%nat ->
  next {| _identifier := replicate k VCD_NAME_END ++ a :: b :: rest; _size := k |}
  = (c_str (replicate (Datatypes.S k) VCD_NAME_START ++ NUL :: rest),
     {| _identifier := replicate (Datatypes.S k) VCD_NAME_START ++ NUL :: rest;
        _size := Datatypes.S k |}).
Proof.
  intros Hk. unfold next. cbn [_size _identifier].
  destruct (Nat.eqb_spec k (length (replicate k VCD_NAME_END ++ a :: b :: rest))) as [E | _].
  { rewrite length_app, length_replicate in E. cbn [length] in E. lia. }
  destruct (Nat.eqb_spec k 0) as [E | _]; [lia |].
  rewrite (next_carry_all k).
  assert (<[Datatypes.S k := NUL]>
            (<[k := VCD_NAME_START]> (replicate k VCD_NAME_START ++ a :: b :: rest))
          = replicate (Datatypes.S k) VCD_NAME_START ++ NUL :: rest) as ->; [| reflexivity].
  rewrite insert_app_r_alt by (rewrite length_replicate; lia).
  rewrite length_replicate, Nat.sub_diag. cbn [insert list_insert].
  rewrite insert_app_r_alt by (rewrite length_replicate; lia).
  rewrite length_replicate.
  replace (Datatypes.S k - k)%nat with 1%nat by lia. cbn [insert list_insert].
  rewrite (replicate_S_end k), <- app_assoc. reflexivity.
Qed.

(** C3. A fresh generator returns ["!"], [")"], ["z"], ["!!"], [!"],
    ["!z"] and ["!] at the calls numbered 0, 8, 89, 90, 91, 179 and 180:
    the last symbol runs through [!] .. [z], then wraps to [!] with a
    carry into the symbol before it, or into a new symbol. *)
Theorem identifier_generator_calls :
  GenerateVcdKey 0 = "!" /\
  GenerateVcdKey 8 = ")" /\
  GenerateVcdKey 89 = "z" /\
  GenerateVcdKey 90 = "!!" /\
  GenerateVcdKey 91 = String "!" (String (ascii_of_nat 34) "") /\
  GenerateVcdKey 179 = "!z" /\
  GenerateVcdKey 180 = String (ascii_of_nat 34) "!".
Proof. repeat split; vm_compute; reflexivity. Qed.

(** ** Value encoder *)

Lemma shiftr_pow2_succ (n : nat) :
  Z.shiftr (2 ^ Z.of_nat (Datatypes.S n)) 1 = 2 ^ Z.of_nat n.
Proof.
  rewrite Z.shiftr_div_pow2 by lia.
  rewrite Nat2Z.inj_succ, Z.pow_succ_r by lia.
  rewrite Z.pow_1_r, Z.mul_comm, Z.div_mul by lia.
  reflexivity.
Qed.

Lemma land_pow2_testbit (v k : Z) :
  0 <= k -> negb (Z.eqb (Z.land v (2 ^ k)) 0) = Z.testbit v k.
Proof.
  intros Hk.
  destruct (Z.testbit v k) eqn:Hb.
  - destruct (Z.eqb_spec (Z.land v (2 ^ k)) 0) as [E | E]; [| reflexivity].
    assert (Hbit : Z.testbit (Z.land v (2 ^ k)) k = true).
    { rewrite Z.land_spec, Hb, Z.pow2_bits_true by lia. reflexivity. }
    rewrite E, Z.bits_0 in Hbit. discriminate.
  - assert (E : Z.land v (2 ^ k) = 0).
    { apply Z.bits_inj'. intros n Hn.
      rewrite Z.land_spec, Z.bits_0, Z.pow2_bits_eqb by lia.
      destruct (Z.eqb_spec k n) as [-> | _].
      - rewrite Hb. reflexivity.
      - apply andb_false_r. }
    rewrite E. reflexivity.
Qed.

Lemma dump_bits_plain (n : nat) (v : Z) (prev : bool) :
  dump_bits n v (2 ^ Z.of_nat n) prev false = bits_text (prev :: msb_first n v).
Proof.
  revert prev. induction n as [| n IH]; intros prev.
  - destruct prev; reflexivity.
  - cbn [dump_bits msb_first bits_text].
    rewrite shiftr_pow2_succ, land_pow2_testbit by lia.
    rewrite andb_false_l, IH. reflexivity.
Qed.

Lemma dump_bits_compact (n : nat) (v : Z) (prev : bool) :
  dump_bits n v (2 ^ Z.of_nat n) prev true
  = bits_text (prev :: drop_run prev (msb_first n v)).
Proof.
  revert prev. induction n as [| n IH]; intros prev.
  - destruct prev; reflexivity.
  - cbn [dump_bits msb_first drop_run].
    rewrite shiftr_pow2_succ, land_pow2_testbit by lia.
    rewrite andb_true_l.
    destruct (Bool.eqb (Z.testbit v (Z.of_nat n)) prev) eqn:E.
    + apply eqb_prop in E. rewrite IH, E. reflexivity.
    + rewrite dump_bits_plain. reflexivity.
Qed.

Lemma int_cast_mask (bits : Z) (sgn : bool) (k : Z) :
  0 <= k < bits -> (sgn = false \/ k < bits - 1) ->
  int_cast (T_integer bits sgn) (Z.shiftl 1 k) = 2 ^ k.
Proof.
  intros Hk Hs. rewrite Z.shiftl_1_l. unfold int_cast.
  assert (0 < 2 ^ k) by (apply Z.pow_pos_nonneg; lia).
  assert (2 ^ k < 2 ^ bits) by (apply Z.pow_lt_mono_r; lia).
  destruct sgn.
  - destruct Hs as [Hs | Hs]; [discriminate |].
    assert (2 ^ k < 2 ^ (bits - 1)) by (apply Z.pow_lt_mono_r; lia).
    assert (2 ^ bits = 2 * 2 ^ (bits - 1)).
    { rewrite <- Z.pow_succ_r by lia. f_equal. lia. }
    rewrite Z.mod_small by lia. lia.
  - apply Z.mod_small. lia.
Qed.

(** The encoding of a known value of an integer type, in the words of
    the specification. *)
Lemma value_base_dump_known (bits : Z) (sgn : bool) (id : string) (bw : nat) (v : Z) :
  (0 < bw)%nat -> Z.of_nat bw <= bits -> (sgn = false \/ Z.of_nat bw < bits) ->
  value_base_dump (T_integer bits sgn) id bw known v
  = [L_text ("b" +:+ bits_text (compact (msb_first bw v)) +:+ " " +:+ id)].
Proof.
  intros Hbw Hle Hs. destruct bw as [| n]; [lia |].
  unfold value_base_dump.
  rewrite int_cast_mask;
    [| lia | destruct Hs as [Hs | Hs]; [left; exact Hs | right; lia]].
  replace (Z.of_nat (Datatypes.S n) - 1) with (Z.of_nat n) by lia.
  rewrite land_pow2_testbit by lia.
  replace (Datatypes.S n - 1)%nat with n by lia.
  rewrite dump_bits_compact. reflexivity.
Qed.

Lemma compact_nonempty (n : nat) (v : Z) :
  (0 < n)%nat -> (0 < length (compact (msb_first n v)))%nat.
Proof. destruct n; cbn; lia. Qed.

(** C4, as amended. For a signal of an integer element type other than
    [bool] and of bit width above 1: an unknown sample is written as
    [bx <id>] and an undriven one as [bz <id>]; a known value, when the
    bit width is within the width of the element type and the type is
    unsigned or wider than the bit width, is written as [b], the bits
    most significant first with the leading run collapsed to one copy
    (at least one bit), a space and the identifier; the 17 bit value
    [0x1DEAD] is written as [b101111010101101 <id>]. *)
Theorem vector_encoding (bits : Z) (sgn : bool) (id : string) (bw : nat) (v : Z) :
  (1 < bw)%nat ->
  value_base_dump (T_integer bits sgn) id bw unknown_x v = [L_text ("bx " +:+ id)] /\
  value_base_dump (T_integer bits sgn) id bw undriven_z v = [L_text ("bz " +:+ id)] /\
  (Z.of_nat bw <= bits -> (sgn = false \/ Z.of_nat bw < bits) ->
   value_base_dump (T_integer bits sgn) id bw known v
   = [L_text ("b" +:+ bits_text (compact (msb_first bw v)) +:+ " " +:+ id)] /\
   (0 < length (compact (msb_first bw v)))%nat) /\
  value_base_dump (T_integer 32 false) id 17 known 0x1DEAD
  = [L_text ("b101111010101101 " +:+ id)].
Proof.
  intros Hbw. repeat split.
  - apply value_base_dump_known; [lia | assumption | assumption].
  - apply compact_nonempty. lia.
Qed.

Lemma vector_encoding_witness :
  (1 < 9)%nat /\
  value_base_dump (T_integer 32 true) "vv" 9 known 0x155 = [L_text "b101010101 vv"].
Proof.
  split; [lia |].
  apply (proj1 (proj2 (proj2 (vector_encoding 32 true "vv" 9 0x155 ltac:(lia))))); [lia |].
  right. lia.
Defined.

(** The claim C4 as stated fails on a signal of a floating type: its bit
    width is 64, and an unknown sample is written in the real format. *)
Lemma vector_encoding_counterexample :
  (1 < bit_size_of (T_real 64))%nat /\
  value_base_dump (T_real 64) "!" (bit_size_of (T_real 64)) unknown_x 0 = [L_text "r0 !"] /\
  value_base_dump (T_real 64) "!" (bit_size_of (T_real 64)) unknown_x 0 <> [L_text "bx !"].
Proof. repeat split; [vm_compute; lia | discriminate]. Qed.

(** C5, as amended. For a signal whose element type is [bool], whatever
    its bit width, a sample is written as one character, [1] or [0] for
    a known value, [x] for unknown and [z] for undriven, followed at
    once by the identifier. *)
Theorem scalar_encoding (id : string) (bw : nat) (st : value_state) (v : Z) :
  value_base_dump T_bool id bw st v =
  [L_text (String (match st with
                   | unknown_x => "x"
                   | undriven_z => "z"
                   | known => if Z.eqb v 0 then "0" else "1"
                   end)%char id)].
Proof. destruct st; cbn; [| | destruct (Z.eqb v 0)]; reflexivity. Qed.

(** The claim C5 as stated fails on a signal of bit width 1 whose
    element type is [int]: the vector format is used. *)
Lemma scalar_encoding_counterexample :
  value_base_dump (T_integer 32 true) "!" 1 known 1 = [L_text "b1 !"] /\
  value_base_dump (T_integer 32 true) "!" 1 known 1 <> [L_text "1!"].
Proof. split; [reflexivity | discriminate]. Qed.

(** A known value of a signed type at the full width of the type: the
    mask is negative, [mask >> 1] keeps its sign bit, and every test
    below the top bit sees the bits above it as well. [value<int>] writes
    2 as [b011]. *)
Example dump_signed_full_width :
  value_base_dump (T_integer 32 true) "!" 32 known 2 = [L_text "b011 !"] /\
  bits_text (compact (msb_first 32 2)) = "010".
Proof. split; reflexivity. Qed.

(** ** Buffered values *)

Lemma same_frame_refl (v : vcd_value) : same_frame v v.
Proof. repeat split. Qed.

Lemma same_frame_trans (v1 v2 v3 : vcd_value) :
  same_frame v1 v2 -> same_frame v2 v3 -> same_frame v1 v3.
Proof.
  unfold same_frame. intros (?&?&?&?&?) (?&?&?&?&?).
  repeat split; congruence.
Qed.

Lemma slot_bound (v : vcd_value) (i : Z) :
  0 < TRACE_DEPTH v -> (slot v i < Z.to_nat (TRACE_DEPTH v))%nat.
Proof.
  intros HD. unfold slot.
  destruct (Z_lt_le_dec i 0) as [Hi | Hi].
  - pose proof (Z.rem_nonpos i (TRACE_DEPTH v) ltac:(lia) ltac:(lia)). lia.
  - pose proof (Z.rem_bound_pos i (TRACE_DEPTH v) Hi HD). lia.
Qed.

Lemma sample_at_elem (v : vcd_value) (i : Z) :
  0 < TRACE_DEPTH v -> length (_samples v) = Z.to_nat (TRACE_DEPTH v) ->
  sample_at v i ∈ _samples v.
Proof.
  intros HD Hlen. unfold sample_at.
  destruct (_samples v !! slot v i) as [s |] eqn:E.
  - eapply list_elem_of_lookup_2. exact E.
  - apply lookup_ge_None in E. pose proof (slot_bound v i HD). lia.
Qed.

Lemma sample_at_frame (v v' : vcd_value) (i : Z) :
  same_frame v v' -> sample_at v' i = sample_at v i.
Proof.
  intros (_ & _ & HD & _ & Hs). unfold sample_at, slot. rewrite HD, Hs. reflexivity.
Qed.

Lemma encode_frame (v v' : vcd_value) (s : sample) :
  same_frame v v' -> encode v' s = encode v s.
Proof.
  intros (HT & HB & _ & Hsc & _). unfold encode. rewrite HT, HB, Hsc. reflexivity.
Qed.

Lemma dump_sample_encode (v : vcd_value) (i : Z) :
  dump_sample v i = encode v (sample_at v i).
Proof. reflexivity. Qed.

(** [value::dump] moves the indices only. *)
Lemma value_dump_frame (v : vcd_value) (start : bool) :
  same_frame v (value_dump v start).2.
Proof.
  unfold value_dump.
  repeat match goal with
         | |- context [if ?c then _ else _] => destruct c
         end; cbn; repeat split.
Qed.

(** Every line [value::dump] writes is the encoding of a stored sample. *)
Lemma value_dump_lines (v : vcd_value) (start : bool) (l : vcd_line) :
  0 < TRACE_DEPTH v -> length (_samples v) = Z.to_nat (TRACE_DEPTH v) ->
  l ∈ (value_dump v start).1.1 ->
  exists s, s ∈ _samples v /\ l ∈ encode v s.
Proof.
  intros HD Hlen. unfold value_dump.
  repeat match goal with
         | |- context [if ?c then _ else _] => destruct c
         end; cbn [fst snd]; intros Hl;
    try (apply elem_of_nil in Hl; contradiction);
    rewrite dump_sample_encode in Hl;
    match type of Hl with
    | _ ∈ encode ?v' (sample_at ?v' ?i) =>
        exists (sample_at v' i); split;
        [ change (_samples v) with (_samples v');
          apply sample_at_elem; cbn; assumption
        | exact Hl ]
    end.
Qed.

Lemma dump_run_lines (starts : list bool) (v : vcd_value) (l : vcd_line) :
  0 < TRACE_DEPTH v -> length (_samples v) = Z.to_nat (TRACE_DEPTH v) ->
  l ∈ (dump_run starts v).1 ->
  exists s, s ∈ _samples v /\ l ∈ encode v s.
Proof.
  revert v. induction starts as [| b bs IH]; intros v HD Hlen Hl.
  - apply elem_of_nil in Hl. contradiction.
  - cbn [dump_run] in Hl.
    pose proof (value_dump_frame v b) as F.
    pose proof (value_dump_lines v b l HD Hlen) as Hfirst.
    destruct (value_dump v b) as [[out r] v1]. cbn in F, Hfirst.
    destruct (dump_run bs v1) as [out' v2] eqn:E. cbn in Hl.
    apply elem_of_app in Hl as [Hl | Hl]; [auto |].
    destruct F as (HT & HB & HD1 & Hsc & Hs).
    destruct (IH v1) as (s & Hin & Henc).
    + rewrite HD1. exact HD.
    + rewrite Hs, HD1. exact Hlen.
    + rewrite E. exact Hl.
    + exists s. split; [rewrite <- Hs; exact Hin |].
      rewrite <- (encode_frame v v1 s); [exact Henc | repeat split; assumption].
Qed.

Lemma set_used_up (cur_seq x : Z) (v : vcd_value) :
  1 < TRACE_DEPTH v -> used_up cur_seq v ->
  same_frame v (set cur_seq x v) /\
  _idx_read (set cur_seq x v) = _idx_read v /\
  (_idx_write (set cur_seq x v) = _idx_write v \/
   _idx_write (set cur_seq x v) = TRACE_DEPTH v) /\
  (_idx_write v = TRACE_DEPTH v -> set cur_seq x v = v).
Proof.
  intros HD Hfull. unfold set.
  destruct (Z.eqb_spec (TRACE_DEPTH v) 1) as [E | _]; [lia |].
  destruct (Z.eqb_spec (_idx_write v) (-1)) as [E | _].
  { destruct Hfull as [H | [H _]]; lia. }
  cbn [orb].
  destruct Hfull as [Hw | [Hw Hseq]].
  - destruct (Z.ltb_spec (_idx_write v) (TRACE_DEPTH v)) as [? | _]; [lia |].
    cbn [andb]. repeat split; auto.
  - destruct (Z.ltb_spec (_idx_write v) (TRACE_DEPTH v)) as [_ | ?]; [| lia].
    cbn [andb].
    destruct (sample_changed _ _ || _).
    + destruct (Z.eqb_spec (sequence (sample_at v (_idx_write v))) cur_seq) as [? | _];
        [contradiction |].
      cbn [negb].
      destruct (Z.ltb_spec (_idx_write v + 1) (TRACE_DEPTH v)) as [? | _]; [lia |].
      cbn. repeat split; try (right; lia); intros; lia.
    + repeat split; auto.
Qed.

Lemma set_state_used_up (cur_seq : Z) (S : value_state) (v : vcd_value) :
  1 < TRACE_DEPTH v -> used_up cur_seq v ->
  same_frame v (set_state cur_seq S v) /\
  _idx_read (set_state cur_seq S v) = _idx_read v /\
  (_idx_write (set_state cur_seq S v) = _idx_write v \/
   _idx_write (set_state cur_seq S v) = TRACE_DEPTH v) /\
  (_idx_write v = TRACE_DEPTH v -> set_state cur_seq S v = v).
Proof.
  intros HD Hfull. unfold set_state.
  destruct (Z.eqb_spec (TRACE_DEPTH v) 1) as [E | _]; [lia |].
  destruct (Z.eqb_spec (_idx_write v) (-1)) as [E | _].
  { destruct Hfull as [H | [H _]]; lia. }
  cbn [orb].
  destruct Hfull as [Hw | [Hw Hseq]].
  - destruct (Z.ltb_spec (_idx_write v) (TRACE_DEPTH v)) as [? | _]; [lia |].
    cbn [andb]. repeat split; auto.
  - destruct (Z.ltb_spec (_idx_write v) (TRACE_DEPTH v)) as [_ | ?]; [| lia].
    cbn [andb].
    destruct (negb _).
    + destruct (Z.eqb_spec (sequence (sample_at v (_idx_write v))) cur_seq) as [? | _];
        [contradiction |].
      cbn [negb].
      destruct (Z.ltb_spec (_idx_write v + 1) (TRACE_DEPTH v)) as [? | _]; [lia |].
      cbn. repeat split; try (right; lia); intros; lia.
    + repeat split; auto.
Qed.

(** ** Overflow of a buffer *)

Lemma pending_used_up (cur_seq : Z) (v : vcd_value) :
  length (_samples v) = Z.to_nat (TRACE_DEPTH v) -> used_up cur_seq v ->
  pending v = _samples v.
Proof.
  intros Hlen Hfull. unfold pending. apply take_ge.
  destruct Hfull as [Hw | [Hw _]]; lia.
Qed.

(** C7, as amended. For a buffered signal of capacity [D] above 1 with
    [D] samples pending, a further call of [set], [unknown] or
    [undriven] in the same flush window is dropped without an error
    when the sequence counter has moved on since the newest pending
    sample, and so is every call after such a one: the [D] pending
    samples stay as they are, and every line a later flush writes for
    the signal is the encoding of one of them. (A call under the
    sequence of the newest pending sample overwrites that sample.) *)
Theorem overflow_drops (cur_seq x : Z) (S : value_state) (v v' : vcd_value) :
  1 < TRACE_DEPTH v ->
  length (_samples v) = Z.to_nat (TRACE_DEPTH v) ->
  used_up cur_seq v ->
  v' = set cur_seq x v \/ v' = set_state cur_seq S v ->
  length (pending v) = Z.to_nat (TRACE_DEPTH v) /\
  pending v' = pending v /\
  same_frame v v' /\
  (forall cur_seq', used_up cur_seq' v' \/ v' = v) /\
  forall starts l, l ∈ (dump_run starts v').1 ->
    exists s, s ∈ pending v /\ l ∈ encode v s.
Proof.
  intros HD Hlen Hfull Hv'.
  assert (same_frame v v' /\
          (_idx_write v' = _idx_write v \/ _idx_write v' = TRACE_DEPTH v) /\
          (_idx_write v = TRACE_DEPTH v -> v' = v)) as (F & Hw & Hsame).
  { destruct Hv' as [-> | ->].
    - destruct (set_used_up cur_seq x v HD Hfull) as (F & _ & Hw & Hsame). auto.
    - destruct (set_state_used_up cur_seq S v HD Hfull) as (F & _ & Hw & Hsame). auto. }
  pose proof F as (HT & HB & HD' & Hsc & Hs).
  rewrite (pending_used_up cur_seq v Hlen Hfull).
  assert (pending v' = _samples v) as Hp.
  { unfold pending. rewrite Hs. apply take_ge.
    destruct Hfull as [H | [H _]]; destruct Hw as [Hw | Hw]; lia. }
  split; [exact Hlen |]. split; [exact Hp |]. split; [exact F |]. split.
  - intros cur_seq'. destruct Hw as [Hw | Hw].
    + destruct Hfull as [H | [H Hseq]]; [right; auto |].
      destruct (Z.eq_dec (_idx_write v') (TRACE_DEPTH v')) as [E | E]; [left; left; exact E |].
      destruct Hv' as [-> | ->].
      * unfold set in *.
        destruct (Z.eqb_spec (TRACE_DEPTH v) 1); [lia |].
        destruct (Z.eqb_spec (_idx_write v) (-1)); [lia |]. cbn [orb] in *.
        destruct (Z.ltb_spec (_idx_write v) (TRACE_DEPTH v)); [| lia]. cbn [andb] in *.
        destruct (sample_changed _ _ || _); [| right; reflexivity].
        destruct (Z.eqb_spec (sequence (sample_at v (_idx_write v))) cur_seq); [contradiction |].
        cbn [negb] in *.
        destruct (Z.ltb_spec (_idx_write v + 1) (TRACE_DEPTH v)); [lia |].
        cbn in E. lia.
      * unfold set_state in *.
        destruct (Z.eqb_spec (TRACE_DEPTH v) 1); [lia |].
        destruct (Z.eqb_spec (_idx_write v) (-1)); [lia |]. cbn [orb] in *.
        destruct (Z.ltb_spec (_idx_write v) (TRACE_DEPTH v)); [| lia]. cbn [andb] in *.
        destruct (negb (value_state_eqb _ _)); [| right; reflexivity].
        destruct (Z.eqb_spec (sequence (sample_at v (_idx_write v))) cur_seq); [contradiction |].
        cbn [negb] in *.
        destruct (Z.ltb_spec (_idx_write v + 1) (TRACE_DEPTH v)); [lia |].
        cbn in E. lia.
    + left. left. lia.
  - intros starts l Hl.
    destruct (dump_run_lines starts v' l) as (s & Hin & Henc).
    + lia.
    + rewrite Hs, HD'. exact Hlen.
    + exact Hl.
    + exists s. split; [rewrite <- Hs; exact Hin |].
      rewrite <- (encode_frame v v' s F). exact Henc.
Qed.

Lemma overflow_drops_witness :
  1 < TRACE_DEPTH full_buffer /\
  used_up 44 full_buffer /\
  pending (set 44 3 full_buffer) = pending full_buffer.
Proof.
  assert (1 < TRACE_DEPTH full_buffer) as HD by (vm_compute; reflexivity).
  assert (used_up 44 full_buffer) as Hfull
      by (right; split; [vm_compute; reflexivity | vm_compute; discriminate]).
  split; [exact HD |]. split; [exact Hfull |].
  apply (overflow_drops 44 3 unknown_x full_buffer (set 44 3 full_buffer) HD);
    [vm_compute; reflexivity | exact Hfull | left; reflexivity].
Defined.

(** The claim C7 as stated fails for a call under the sequence of the
    newest pending sample: with 2 of 2 samples pending, [set(3)] under
    the sequence 43 of the newest overwrites it, and the flush writes 3. *)
Lemma overflow_drops_counterexample :
  length (pending full_buffer) = Z.to_nat (TRACE_DEPTH full_buffer) /\
  pending (set 43 3 full_buffer) <> pending full_buffer /\
  (dump_run [true; false; false] (set 43 3 full_buffer)).1
  = [L_text "b01 vv"; L_text "b011 vv"].
Proof. vm_compute. repeat split. discriminate. Qed.

(** A buffer whose write index has passed its capacity: the drain reads
    slot 0 once more after the last slot. *)
Example overflowed_drain_repeats :
  _idx_write (set 44 3 full_buffer) = TRACE_DEPTH full_buffer /\
  (dump_run [true; false; false; false] (set 44 3 full_buffer)).1
  = [L_text "b01 vv"; L_text "b010 vv"; L_text "b01 vv"].
Proof. vm_compute. split; reflexivity. Qed.

(** ** Registry *)

Lemma map_find_assign_eq {V : Type} (k : string) (x : V) (m : list (string * V)) :
  map_find k (map_assign k x m) = Some x.
Proof.
  induction m as [| [k' x'] m IH]; cbn.
  - rewrite String.eqb_refl. reflexivity.
  - destruct (String.compare k k') eqn:E; cbn.
    + rewrite String.eqb_refl. reflexivity.
    + rewrite String.eqb_refl. reflexivity.
    + destruct (String.eqb_spec k k') as [-> | _]; [| exact IH].
      pose proof (String.compare_antisym k' k') as E'.
      rewrite E in E'. discriminate.
Qed.

Lemma map_find_assign_ne {V : Type} (k k0 : string) (x : V) (m : list (string * V)) :
  k <> k0 -> map_find k0 (map_assign k x m) = map_find k0 m.
Proof.
  intros Hne. induction m as [| [k' x'] m IH]; cbn.
  - destruct (String.eqb_spec k0 k); [congruence | reflexivity].
  - destruct (String.compare k k') eqn:E; cbn.
    + apply String.compare_eq_iff in E. subst k'.
      destruct (String.eqb_spec k0 k); [congruence | reflexivity].
    + destruct (String.eqb_spec k0 k); [congruence | reflexivity].
    + destruct (String.eqb_spec k0 k'); [reflexivity | exact IH].
Qed.

Lemma call_nop_dump (start : bool) (h : gmap nat vcd_value) :
  call_dumper nop_dump start h = Some ([], end_sequence, h).
Proof. reflexivity. Qed.

Lemma top_register_slot (full_path : string) (fn : dumper_fn) (t : top) :
  let (ctx, t') := top_register full_path fn t in
  updater ctx = slot_updater (identifier ctx) /\
  map_find (identifier ctx) (dumper_map (_var_map t')) = Some fn.
Proof.
  unfold top_register. destruct (next (_identifier_generator t)) as [id g].
  cbn. split; [reflexivity | apply map_find_assign_eq].
Qed.

Lemma top_add_var_slot (p : module_path) (name type : string) (bits : nat)
    (fn : dumper_fn) (t t' : top) (ctx : value_context) :
  top_add_var p name type bits fn t = Some (ctx, t') ->
  updater ctx = slot_updater (identifier ctx) /\
  map_find (identifier ctx) (dumper_map (_var_map t')) = Some fn.
Proof.
  unfold top_add_var, add_var. destruct (root t) as [r |]; [| discriminate].
  destruct (instance_at p r); [| discriminate].
  pose proof (top_register_slot (register_path p r name) fn t) as H.
  destruct (top_register (register_path p r name) fn t) as [ctx0 t0].
  intros [= <- <-]. exact H.
Qed.

(** Registration leaves in the slot of the new identifier the closure
    over the value, and in the value the function that resets it. *)
Lemma elaborate_registers (p : module_path) (this : nat) (name : string) (w w' : world) :
  elaborate p this name w = Some w' ->
  exists v,
    heap w' !! this = Some v /\
    updater (_scope v) = slot_updater (identifier (_scope v)) /\
    map_find (identifier (_scope v)) (dumper_map (_var_map (session w')))
    = Some (value_dumper this).
Proof.
  unfold elaborate. destruct (heap w !! this) as [v |]; [| discriminate].
  destruct (top_add_var _ _ _ _ _ _) as [[ctx t'] |] eqn:E; [| discriminate].
  intros [= <-]. apply top_add_var_slot in E as [Hu Hs].
  exists (with_scope ctx v). cbn. rewrite lookup_insert_eq. auto.
Qed.

Lemma construct_registers (p : module_path) (this : nat) (name : string)
    (T : elem_type) (B : nat) (D cur_seq garbage : Z) (d : option Z) (w w' : world) :
  construct p this name T B D cur_seq garbage d w = Some w' ->
  exists v,
    heap w' !! this = Some v /\
    updater (_scope v) = slot_updater (identifier (_scope v)) /\
    map_find (identifier (_scope v)) (dumper_map (_var_map (session w')))
    = Some (value_dumper this).
Proof.
  unfold construct.
  destruct (top_add_var _ _ _ _ _ _) as [[ctx t'] |] eqn:E; [| discriminate].
  intros [= <-]. apply top_add_var_slot in E as [Hu Hs].
  eexists. cbn. rewrite lookup_insert_eq. split; [reflexivity |].
  destruct d; cbn; auto.
Qed.

(** C8. Destroying a registered value puts [nop_dump] in its slot of
    the registry: the callback found there afterwards writes nothing and
    reports neither a dumped nor a pending sequence, and the object is
    gone from the store. *)
Theorem destroyed_value_is_silent (w : world) (this : nat) (v : vcd_value) :
  heap w !! this = Some v ->
  updater (_scope v) = slot_updater (identifier (_scope v)) ->
  exists w',
    destroy this w = Some w' /\
    heap w' !! this = None /\
    map_find (identifier (_scope v)) (dumper_map (_var_map (session w'))) = Some nop_dump /\
    forall fn start h,
      map_find (identifier (_scope v)) (dumper_map (_var_map (session w'))) = Some fn ->
      call_dumper fn start h = Some ([], end_sequence, h).
Proof.
  intros Hv Hu. unfold destroy. rewrite Hv, Hu. eexists. split; [reflexivity |].
  cbn. rewrite lookup_delete_eq.
  split; [reflexivity |]. split; [apply map_find_assign_eq |].
  intros fn start h. rewrite map_find_assign_eq. intros [= <-]. reflexivity.
Qed.

Lemma destroyed_value_is_silent_witness :
  exists w w',
    construct [] 1 "flag" T_bool 1 1 0 0 None new_world = Some w /\
    map_find "!" (dumper_map (_var_map (session w))) = Some (value_dumper 1) /\
    destroy 1 w = Some w' /\
    map_find "!" (dumper_map (_var_map (session w'))) = Some nop_dump.
Proof.
  destruct (construct [] 1 "flag" T_bool 1 1 0 0 None new_world) as [w |] eqn:E;
    [| vm_compute in E; discriminate].
  destruct (construct_registers _ _ _ _ _ _ _ _ _ _ _ E) as (v & Hv & Hu & Hslot).
  assert (identifier (_scope v) = "!") as Hid.
  { vm_compute in E. injection E as <-. vm_compute in Hv. injection Hv as <-. reflexivity. }
  destruct (destroyed_value_is_silent w 1 v Hv Hu) as (w' & Hd & _ & Hnop & _).
  rewrite Hid in *.
  exists w, w'. auto.
Defined.

(** The closure over the value itself is not to be called after the
    destruction: its object is gone. *)
Lemma destroyed_closure_dangles (w w' : world) (this : nat) (start : bool) :
  destroy this w = Some w' ->
  call_dumper (value_dumper this) start (heap w') = None.
Proof.
  unfold destroy. destruct (heap w !! this); [| discriminate].
  intros [= <-]. cbn. rewrite lookup_delete_eq. reflexivity.
Qed.

(** ** Scope tree *)

Lemma finalize_header_instance_of (t : scope_tree) :
  finalize_header_context (instance_of t) = header_text t.
Proof.
  induction t as [name vars subs IH] using scope_tree_ind.
  cbn [instance_of finalize_header_context header_text vcd_scope children app].
  do 3 f_equal.
  induction IH as [| t' subs' Ht' _ IH']; [reflexivity |].
  cbn. rewrite Ht', IH'. reflexivity.
Qed.

Lemma instance_at_instance_of (p : module_path) (t : scope_tree) (c : module_instance) :
  instance_at p (instance_of t) = Some c ->
  exists t', c = instance_of t'.
Proof.
  revert t. induction p as [| i p IH]; intros [name vars subs]; cbn.
  - intros [= <-]. exists (Scope name vars subs). reflexivity.
  - rewrite list_lookup_fmap. destruct (subs !! i) as [t' |]; cbn; [| discriminate].
    apply IH.
Qed.

Lemma update_at_instance_of (p : module_path) (f : module_instance -> module_instance)
    (g : scope_tree -> scope_tree) (t : scope_tree) :
  (forall t', f (instance_of t') = instance_of (g t')) ->
  update_at p f (instance_of t) = instance_of (tree_update_at p g t).
Proof.
  intros Hfg. revert t. induction p as [| i p IH]; intros t.
  - exact (Hfg t).
  - destruct t as [name vars subs].
    cbn [update_at tree_update_at instance_of instance_name vcd_scope children].
    f_equal. symmetry. apply (list_fmap_alter instance_of (tree_update_at p g) (update_at p f)). apply Forall_forall.
    intros t' _. symmetry. apply IH.
Qed.

Lemma push_child_instance_of (name : string) (t : scope_tree) :
  push_child (module_new name) (instance_of t) = instance_of (tree_add_sub name t).
Proof.
  destruct t as [n vars subs]. cbn. unfold push_child. cbn.
  rewrite map_app. reflexivity.
Qed.

Lemma append_scope_instance_of (d : var_decl) (t : scope_tree) :
  append_scope (decl_line d) (instance_of t) = instance_of (tree_add_var d t).
Proof.
  destruct t as [n vars subs]. cbn. unfold append_scope. cbn.
  rewrite map_app. reflexivity.
Qed.

(** The instance tree the constructors and [add_var] build is the one
    of the scope tree they describe. *)
Lemma elaborated_instance_of {S : Type}
    (register_fn : string -> dumper_fn -> S -> value_context * S)
    (c : module_instance) (t : scope_tree) :
  elaborated register_fn c t -> c = instance_of t.
Proof.
  induction 1 as [name | c t p name c' p' _ IH Hc
                 | c t p vn vt bs fn s ctx c' s' _ IH Hv].
  - reflexivity.
  - subst c. unfold module_child in Hc.
    destruct (instance_at p (instance_of t)); [| discriminate].
    injection Hc as <- _.
    apply update_at_instance_of. apply push_child_instance_of.
  - subst c. unfold add_var in Hv.
    destruct (instance_at p (instance_of t)); [| discriminate].
    destruct (register_fn _ fn s) as [ctx0 s0].
    injection Hv as <- <- _.
    apply (update_at_instance_of p _
             (tree_add_var {| var_kind := vt; var_bits := bs;
                              var_id := identifier ctx0; var_name := vn |})).
    intros t'. apply (append_scope_instance_of
                        {| var_kind := vt; var_bits := bs;
                           var_id := identifier ctx0; var_name := vn |}).
Qed.

Lemma decl_line_plain (d : var_decl) :
  is_scope_line (decl_line d) = false /\ is_upscope_line (decl_line d) = false.
Proof. split; reflexivity. Qed.

Lemma nesting_decls (vars : list var_decl) (rest : list vcd_line) (d : nat) :
  nesting (map decl_line vars ++ rest) d = nesting rest d.
Proof.
  induction vars as [| x vars IH]; [reflexivity |].
  cbn [map app nesting].
  destruct (decl_line_plain x) as [-> ->]. exact IH.
Qed.

(** The header text of a scope tree leaves the nesting depth as it
    found it and never closes a scope that is not open. *)
Lemma nesting_header_text (t : scope_tree) (rest : list vcd_line) (d : nat) :
  nesting (header_text t ++ rest) d = nesting rest d.
Proof.
  revert rest d. induction t as [name vars subs IH] using scope_tree_ind.
  intros rest d. cbn [header_text app nesting is_scope_line].
  assert (starts_with "$scope module " ("$scope module " +:+ name +:+ " $end") = true)
    as -> by reflexivity.
  rewrite <- !app_assoc, nesting_decls.
  induction IH as [| t' subs' Ht' _ IH'].
  - reflexivity.
  - cbn [flat_map]. rewrite <- app_assoc, Ht'. exact IH'.
Qed.

(** C9. For every scope tree the constructors of [module] and
    [add_var] build, the finalized header text is the depth first
    pre-order text of the tree: for each node its [$scope module]
    line, one [$var] line for each of its variables in the order of
    their registration, the text of its children in the order of their
    creation, and one [$upscope $end]; so the text closes every scope it
    opens, and none that is not open. *)
Theorem scope_header {S : Type}
    (register_fn : string -> dumper_fn -> S -> value_context * S)
    (c : module_instance) (t : scope_tree) :
  elaborated register_fn c t ->
  finalize_header_context c = header_text t /\
  forall d, nesting (finalize_header_context c) d = Some d.
Proof.
  intros H. apply elaborated_instance_of in H. subst c.
  rewrite finalize_header_instance_of. split; [reflexivity |].
  intros d. rewrite <- (app_nil_r (header_text t)).
  rewrite nesting_header_text. reflexivity.
Qed.

Lemma scope_header_witness :
  exists c,
    elaborated path_register c
      (Scope "root" []
         [Scope "mod1" [{| var_kind := "real"; var_bits := 64;
                           var_id := "root.mod1.ki"; var_name := "ki" |}] []]) /\
    finalize_header_context c
    = [L_text "$scope module root $end";
       L_text "$scope module mod1 $end";
       L_text "$var real 64 root.mod1.ki ki $end";
       L_text "$upscope $end";
       L_text "$upscope $end"].
Proof.
  eexists. 
  assert (elaborated path_register
            (update_at [0%nat]
               (append_scope (var_line "real" 64 "root.mod1.ki" "ki"))
               (update_at [] (push_child (module_new "mod1")) (module_new "root")))
            (Scope "root" []
               [Scope "mod1" [{| var_kind := "real"; var_bits := 64;
                                 var_id := "root.mod1.ki"; var_name := "ki" |}] []])) as H.
  { apply (elaborated_var path_register
             (update_at [] (push_child (module_new "mod1")) (module_new "root"))
             (tree_update_at [] (tree_add_sub "mod1") (Scope "root" [] []))
             [0%nat] "ki" "real" 64 (value_dumper 2) tt
             {| identifier := "root.mod1.ki"; updater := nop_update |} _ tt).
    - apply (elaborated_child path_register (module_new "root") (Scope "root" [] [])
               [] "mod1" _ [0%nat]).
      + apply elaborated_root.
      + reflexivity.
    - reflexivity. }
  split; [exact H |].
  rewrite (proj1 (scope_header path_register _ _ H)). reflexivity.
Defined.

(** ** Reading a buffered value *)

Lemma increasing_b_spec (l : list sample) :
  increasing_b l = true ->
  Sorted later l /\ Forall (fun s => 0 <= sequence s < 2 ^ 64) l.
Proof.
  induction l as [| s l IH]; cbn [increasing_b]; intros H.
  - split; constructor.
  - apply andb_prop in H as [H H3]. apply andb_prop in H as [H H2].
    apply andb_prop in H as [H0 H1].
    destruct (IH H3) as [IHs IHr].
    split.
    + constructor; [exact IHs |].
      destruct l as [| s' l']; constructor. unfold later. lia.
    + constructor; [lia | exact IHr].
Qed.

Lemma buffered_b_spec (id : string) (v : vcd_value) :
  buffered_b id v = true ->
  1 < TRACE_DEPTH v /\
  length (_samples v) = Z.to_nat (TRACE_DEPTH v) /\
  -1 <= _idx_write v < TRACE_DEPTH v /\
  identifier (_scope v) = id /\
  Sorted later (pending v) /\
  Forall (fun s => 0 <= sequence s < 2 ^ 64) (pending v).
Proof.
  unfold buffered_b. intros H.
  repeat match type of H with
         | _ && _ = true => let H' := fresh "H" in apply andb_prop in H as [H H']
         end.
  apply increasing_b_spec in H0 as [Hs Hr].
  apply String.eqb_eq in H1. apply Nat.eqb_eq in H4.
  repeat split; try assumption; lia.
Qed.

Lemma take_drop_cons {A : Type} (n r : nat) (l : list A) (x : A) (rest : list A) :
  take n (drop r l) = x :: rest ->
  l !! r = Some x /\ (0 < n)%nat /\ take (n - 1) (drop (Datatypes.S r) l) = rest.
Proof.
  intros H. destruct n as [| n]; [discriminate |].
  destruct (l !! r) as [y |] eqn:E.
  - rewrite (drop_S l y r E) in H. cbn in H. injection H as -> <-.
    repeat split; [lia |]. f_equal. lia.
  - apply lookup_ge_None in E. rewrite drop_ge in H by lia. discriminate.
Qed.

Lemma slot_small (v : vcd_value) (i : Z) :
  0 <= i < TRACE_DEPTH v -> slot v i = Z.to_nat i.
Proof. intros H. unfold slot. rewrite Z.rem_small by lia. reflexivity. Qed.

Lemma sample_at_lookup (v : vcd_value) (i : Z) (s : sample) :
  0 <= i < TRACE_DEPTH v -> _samples v !! Z.to_nat i = Some s -> sample_at v i = s.
Proof. intros Hi Hs. unfold sample_at. rewrite slot_small, Hs by lia. reflexivity. Qed.

(** The peek: [dump(out, true)] of a buffered value writes nothing,
    returns no dumped sequence and as next sequence that of the oldest
    pending sample. *)
Lemma value_dump_peek (v : vcd_value) :
  1 < TRACE_DEPTH v ->
  length (_samples v) = Z.to_nat (TRACE_DEPTH v) ->
  -1 <= _idx_write v < TRACE_DEPTH v ->
  exists v',
    value_dump v true
    = ([], {| dumped := None; next_seq := sequence <$> head (pending v) |}, v') /\
    same_frame v v' /\ 0 <= _idx_read v' /\
    -1 <= _idx_write v' < TRACE_DEPTH v' /\
    unread v' = pending v.
Proof.
  intros HD Hlen Hw. unfold value_dump.
  destruct (Z.eqb_spec (TRACE_DEPTH v) 1) as [? | _]; [lia |].
  cbn [_idx_write _idx_read with_read].
  destruct (Z.ltb_spec (_idx_write v) 0) as [Hneg | Hpos].
  - assert (_idx_write v = -1) as Hw1 by lia.
    eexists. split; [| split; [| split; [| split]]].
    + unfold pending. rewrite Hw1. cbn. reflexivity.
    + repeat split.
    + cbn. lia.
    + cbn. lia.
    + unfold unread, pending. cbn. rewrite Hw1. reflexivity.
  - destruct (_samples v) as [| s0 l] eqn:Es; [cbn in Hlen; lia |].
    exists (with_read 0 v). split; [| split; [| split; [| split]]].
    + f_equal. f_equal. f_equal.
      unfold pending. rewrite Es.
      replace (Z.to_nat (_idx_write v + 1)) with (Datatypes.S (Z.to_nat (_idx_write v))) by lia.
      cbn [take head fmap option_fmap option_map]. do 2 f_equal.
      apply sample_at_lookup; cbn; [lia |]. rewrite Es. reflexivity.
    + repeat split.
    + cbn. lia.
    + cbn. lia.
    + unfold unread, pending. cbn. rewrite Z.sub_0_r. reflexivity.
Qed.

(** The read: [dump(out, false)] of a value with an unread sample
    writes that sample and returns the sequence of the one after it. *)
Lemma value_dump_pop (v : vcd_value) (s : sample) (rest : list sample) :
  draining v -> unread v = s :: rest ->
  exists v',
    value_dump v false
    = (encode v s,
       {| dumped := Some (sequence s); next_seq := sequence <$> head rest |}, v') /\
    same_frame v v' /\ draining v' /\ unread v' = rest.
Proof.
  intros (HD & Hlen & Hr & Hw & Hsorted & Hrange) Hu.
  pose proof Hu as Hu'. unfold unread in Hu'.
  apply take_drop_cons in Hu' as (Hs & Hn & Hrest).
  assert (_idx_read v <= _idx_write v) as Hrw by lia.
  assert (sample_at v (_idx_read v) = s) as Hat
      by (apply sample_at_lookup; [lia | exact Hs]).
  rewrite Hu in Hsorted, Hrange.
  apply Sorted_inv in Hsorted as [Hsorted _].
  apply Forall_inv_tail in Hrange.
  unfold value_dump.
  destruct (Z.eqb_spec (TRACE_DEPTH v) 1) as [? | _]; [lia |].
  destruct (Z.ltb_spec (_idx_write v) (_idx_read v)) as [? | _]; [lia |].
  cbn [_idx_write _idx_read with_read].
  change (dump_sample v (_idx_read v)) with (encode v (sample_at v (_idx_read v))). rewrite Hat.
  destruct (Z.ltb_spec (_idx_write v) (_idx_read v + 1)) as [Hlast | Hmore].
  - assert (rest = []) as ->.
    { rewrite <- Hrest.
      replace (Z.to_nat (_idx_write v + 1 - _idx_read v) - 1)%nat with 0%nat by lia.
      reflexivity. }
    eexists. split; [reflexivity |]. split; [repeat split |].
    assert (unread (with_write (-1) (with_read (_idx_read v + 1) v)) = []) as Hnil.
    { unfold unread. cbn.
      replace (Z.to_nat (-1 + 1 - (_idx_read v + 1))) with 0%nat by lia. reflexivity. }
    split; [| exact Hnil].
    unfold draining. rewrite Hnil. cbn. repeat split; try lia; constructor.
  - assert (unread (with_read (_idx_read v + 1) v) = rest) as Hnext.
    { unfold unread. cbn. rewrite <- Hrest. f_equal; [lia |]. f_equal. lia. }
    exists (with_read (_idx_read v + 1) v).
    split; [| split; [repeat split | split; [| exact Hnext]]].
    + f_equal. f_equal. f_equal.
      destruct rest as [| s' rest'].
      { exfalso. revert Hrest.
        replace (Z.to_nat (_idx_write v + 1 - _idx_read v) - 1)%nat
          with (Datatypes.S (Z.to_nat (_idx_write v - _idx_read v - 1))) by lia.
        destruct (_samples v !! Datatypes.S (Z.to_nat (_idx_read v))) as [y |] eqn:E.
        - rewrite (drop_S _ y _ E). discriminate.
        - apply lookup_ge_None in E. lia. }
      cbn. f_equal.
      apply take_drop_cons in Hrest as (Hs' & _ & _).
      change (sample_at (with_read (_idx_read v + 1) v) (_idx_read v + 1))
        with (sample_at v (_idx_read v + 1)).
      f_equal. apply sample_at_lookup; [lia |].
      replace (Z.to_nat (_idx_read v + 1)) with (Datatypes.S (Z.to_nat (_idx_read v))) by lia.
      exact Hs'.
    + unfold draining. rewrite Hnext. cbn. repeat split; try lia; assumption.
Qed.

(** ** Recording into a buffered value *)

Lemma increasing_b_sequences (l l' : list sample) :
  map sequence l = map sequence l' -> increasing_b l = increasing_b l'.
Proof.
  revert l'. induction l as [| s l IH]; intros [| s' l'] H; try discriminate; [reflexivity |].
  cbn [map] in H. injection H as Hs Hl.
  cbn [increasing_b]. rewrite Hs, (IH l' Hl).
  destruct l as [| a l]; destruct l' as [| a' l']; try discriminate; [reflexivity |].
  cbn [map] in Hl. injection Hl as -> _. reflexivity.
Qed.

Lemma increasing_b_snoc (l : list sample) (s : sample) :
  increasing_b l = true ->
  0 <= sequence s < 2 ^ 64 ->
  (forall s', last l = Some s' -> sequence s' < sequence s) ->
  increasing_b (l ++ [s]) = true.
Proof.
  intros Hl Hs Hlast. induction l as [| a l IH].
  - cbn. rewrite andb_true_r, andb_true_r. apply andb_true_intro. split; lia.
  - cbn [increasing_b] in Hl.
    apply andb_prop in Hl as [Hl H3]. apply andb_prop in Hl as [Hl H2].
    cbn [app increasing_b]. rewrite Hl, andb_true_l.
    rewrite IH; [rewrite andb_true_r | exact H3 |].
    + destruct l as [| b l]; cbn [app]; [| exact H2].
      apply Z.ltb_lt. apply Hlast. reflexivity.
    + intros s' Hs'. apply Hlast. destruct l; [discriminate | exact Hs'].
Qed.

(** The pending samples of a value whose newest sample is in slot [w]. *)
Lemma pending_newest (v : vcd_value) :
  0 <= _idx_write v < TRACE_DEPTH v ->
  length (_samples v) = Z.to_nat (TRACE_DEPTH v) ->
  pending v = take (Z.to_nat (_idx_write v)) (_samples v) ++ [sample_at v (_idx_write v)].
Proof.
  intros Hw Hlen. unfold pending.
  replace (Z.to_nat (_idx_write v + 1)) with (Datatypes.S (Z.to_nat (_idx_write v))) by lia.
  destruct (_samples v !! Z.to_nat (_idx_write v)) as [s |] eqn:E.
  - rewrite (take_S_r _ _ _ E), (sample_at_lookup v _ s Hw E). reflexivity.
  - apply lookup_ge_None in E. lia.
Qed.

(** The store both [set] and [set_state] perform: [f] writes the
    sample, under the sequence [cur_seq]. *)
Lemma record_keeps_buffered (id : string) (cur_seq : Z) (f : sample -> sample)
    (v : vcd_value) :
  (forall s, sequence (f s) = cur_seq) ->
  buffered_b id v = true ->
  0 <= cur_seq < 2 ^ 64 ->
  Forall (fun s => sequence s <= cur_seq) (pending v) ->
  let w := _idx_write v in
  let w1 := if Z.eqb w (-1) || negb (Z.eqb (sequence (sample_at v w)) cur_seq)
            then w + 1 else w in
  w1 < TRACE_DEPTH v ->
  buffered_b id (update_sample f w1 (with_write w1 v)) = true.
Proof.
  intros Hf Hb Hseq Hle w w1 Hw1.
  unfold buffered_b in Hb.
  repeat match type of Hb with
         | _ && _ = true => let H' := fresh "H" in apply andb_prop in Hb as [Hb H']
         end.
  pose proof H as Hinc. pose proof H0 as Hid. pose proof H1 as Hlt. pose proof H2 as Hge.
  pose proof H3 as Hlen. clear H H0 H1 H2 H3.
  apply Z.ltb_lt in Hb, Hlt. apply Z.leb_le in Hge. apply Nat.eqb_eq in Hlen.
  assert (0 <= w1 < TRACE_DEPTH v) as Hr.
  { revert Hw1. subst w1 w.
    destruct (Z.eqb_spec (_idx_write v) (-1)); cbn [orb]; [lia |].
    destruct (negb _); lia. }
  assert (pending (update_sample f w1 (with_write w1 v))
          = take (Z.to_nat w1) (_samples v) ++ [f (sample_at v w1)]) as Hp.
  { unfold pending, update_sample. cbn [_idx_write _samples with_samples with_write].
    change (slot (with_write w1 v) w1) with (slot v w1).
    change (sample_at (with_write w1 v) w1) with (sample_at v w1).
    rewrite slot_small by lia.
    replace (Z.to_nat (w1 + 1)) with (Datatypes.S (Z.to_nat w1)) by lia.
    rewrite (take_S_r _ _ (f (sample_at v w1))) by (apply list_lookup_insert_eq; lia).
    rewrite take_insert_ge by lia. reflexivity. }
  unfold buffered_b. rewrite Hp.
  cbn [TRACE_DEPTH _samples _idx_write _scope update_sample with_samples with_write].
  rewrite length_insert.
  repeat (apply andb_true_intro; split);
    try (apply Z.ltb_lt; lia); try (apply Z.leb_le; lia);
    try (apply Nat.eqb_eq; exact Hlen); try exact Hid.
  subst w1 w.
  destruct (Z.eqb_spec (_idx_write v) (-1)) as [E | E]; cbn [orb] in *.
  - rewrite E. cbn [Z.add Z.to_nat take app].
    apply (increasing_b_snoc []); [reflexivity | rewrite Hf; exact Hseq | discriminate].
  - assert (0 <= _idx_write v < TRACE_DEPTH v) as Hw by lia.
    pose proof (pending_newest v Hw Hlen) as Hpn.
    destruct (Z.eqb_spec (sequence (sample_at v (_idx_write v))) cur_seq) as [Es | Es];
      cbn [negb] in *.
    + rewrite (increasing_b_sequences _ (pending v)); [exact Hinc |].
      rewrite Hpn, !map_app. cbn [map]. rewrite Hf, Es. reflexivity.
    + change (take (Z.to_nat (_idx_write v + 1)) (_samples v)) with (pending v).
      apply increasing_b_snoc; [exact Hinc | rewrite Hf; exact Hseq |].
      intros s' Hs'. rewrite Hpn, last_snoc in Hs'. injection Hs' as <-.
      rewrite Hf.
      assert (sequence (sample_at v (_idx_write v)) <= cur_seq); [| lia].
      rewrite Hpn in Hle. apply Forall_app in Hle as [_ Hle].
      apply Forall_cons in Hle as [Hle _]. exact Hle.
Qed.

(** Under a sequence counter that does not go back, [set] keeps the
    pending samples of a buffered value in strictly increasing
    sequence, as long as the buffer has room. *)
Lemma set_keeps_buffered (id : string) (cur_seq x : Z) (v : vcd_value) :
  buffered_b id v = true ->
  0 <= cur_seq < 2 ^ 64 ->
  Forall (fun s => sequence s <= cur_seq) (pending v) ->
  _idx_write (set cur_seq x v) < TRACE_DEPTH v ->
  buffered_b id (set cur_seq x v) = true.
Proof.
  intros Hb Hseq Hle. pose proof (buffered_b_spec id v Hb) as (HD & _).
  pose proof (record_keeps_buffered id cur_seq (sample_set cur_seq x) v
                ltac:(reflexivity) Hb Hseq Hle) as H.
  cbn zeta in H. unfold set.
  destruct (Z.eqb_spec (TRACE_DEPTH v) 1); [lia |].
  destruct (_ || _ && _); [| intros _; exact Hb].
  destruct (Z.ltb_spec
              (if Z.eqb (_idx_write v) (-1)
                  || negb (Z.eqb (sequence (sample_at v (_idx_write v))) cur_seq)
               then _idx_write v + 1 else _idx_write v) (TRACE_DEPTH v)) as [Hlt | Hge].
  - intros _. exact (H Hlt).
  - cbn [_idx_write with_write]. lia.
Qed.

Lemma set_state_keeps_buffered (id : string) (cur_seq : Z) (S : value_state) (v : vcd_value) :
  buffered_b id v = true ->
  0 <= cur_seq < 2 ^ 64 ->
  Forall (fun s => sequence s <= cur_seq) (pending v) ->
  _idx_write (set_state cur_seq S v) < TRACE_DEPTH v ->
  buffered_b id (set_state cur_seq S v) = true.
Proof.
  intros Hb Hseq Hle. pose proof (buffered_b_spec id v Hb) as (HD & _).
  pose proof (record_keeps_buffered id cur_seq (sample_set_state cur_seq S) v
                ltac:(reflexivity) Hb Hseq Hle) as H.
  cbn zeta in H. unfold set_state.
  destruct (Z.eqb_spec (TRACE_DEPTH v) 1); [lia |].
  destruct (_ || _ && _); [| intros _; exact Hb].
  destruct (Z.ltb_spec
              (if Z.eqb (_idx_write v) (-1)
                  || negb (Z.eqb (sequence (sample_at v (_idx_write v))) cur_seq)
               then _idx_write v + 1 else _idx_write v) (TRACE_DEPTH v)) as [Hlt | Hge].
  - intros _. exact (H Hlt).
  - cbn [_idx_write with_write]. lia.
Qed.

(** ** The registry and the store *)

Lemma distinct_b_NoDup (l : list string) : distinct_b l = true -> NoDup l.
Proof.
  induction l as [| x l IH]; cbn; intros H; [constructor |].
  apply andb_prop in H as [Hx Hl]. constructor; [| auto].
  intros Hin. apply negb_true_iff in Hx.
  assert (existsb (String.eqb x) l = true) as E; [| congruence].
  apply existsb_exists. exists x. split; [| apply String.eqb_refl].
  apply list_elem_of_In. exact Hin.
Qed.

Lemma map_find_elem {V : Type} (m : list (string * V)) (id : string) (x : V) :
  map_find id m = Some x -> (id, x) ∈ m.
Proof.
  induction m as [| [k y] m IH]; cbn; [discriminate |].
  destruct (String.eqb_spec id k) as [-> | _].
  - intros [= ->]. left.
  - intros H. right. auto.
Qed.

Lemma elem_map_find {V : Type} (m : list (string * V)) (id : string) (x : V) :
  NoDup (map fst m) -> (id, x) ∈ m -> map_find id m = Some x.
Proof.
  induction m as [| [k y] m IH]; cbn; intros Hnd Hin.
  - apply elem_of_nil in Hin. contradiction.
  - apply NoDup_cons in Hnd as [Hk Hnd].
    apply elem_of_cons in Hin as [[= -> ->] | Hin].
    + rewrite String.eqb_refl. reflexivity.
    + destruct (String.eqb_spec id k) as [-> | _]; [| auto].
      exfalso. apply Hk. apply (list_elem_of_fmap_2 fst) in Hin. exact Hin.
Qed.

Lemma heap_frame_refl (h : gmap nat vcd_value) : heap_frame h h.
Proof. intros this. destruct (h !! this); [apply same_frame_refl | exact I]. Qed.

Lemma heap_frame_trans (h1 h2 h3 : gmap nat vcd_value) :
  heap_frame h1 h2 -> heap_frame h2 h3 -> heap_frame h1 h3.
Proof.
  intros H12 H23 this. specialize (H12 this). specialize (H23 this).
  destruct (h1 !! this), (h2 !! this), (h3 !! this); try contradiction; try exact I.
  eapply same_frame_trans; eassumption.
Qed.

Lemma heap_frame_insert (h : gmap nat vcd_value) (this : nat) (v v' : vcd_value) :
  h !! this = Some v -> same_frame v v' -> heap_frame h (<[this := v']> h).
Proof.
  intros Hv F a. destruct (decide (this = a)) as [<- | Hne].
  - rewrite Hv, lookup_insert_eq. exact F.
  - rewrite lookup_insert_ne by exact Hne.
    destruct (h !! a); [apply same_frame_refl | exact I].
Qed.

Lemma entry_lines_frame (m : list (string * dumper_fn)) (h h' : gmap nat vcd_value)
    (e : string * sample) :
  heap_frame h h' -> entry_lines m h' e = entry_lines m h e.
Proof.
  intros F. unfold entry_lines, slot_value.
  destruct (map_find (fst e) m) as [[| this] |]; try reflexivity.
  specialize (F this). destruct (h !! this), (h' !! this); try contradiction.
  - apply encode_frame. exact F.
  - reflexivity.
Qed.

Lemma bucket_lines_frame (m : list (string * dumper_fn)) (h h' : gmap nat vcd_value)
    (es : list (string * sample)) :
  heap_frame h h' -> bucket_lines m h' es = bucket_lines m h es.
Proof.
  intros F. unfold bucket_lines. apply flat_map_ext. intros e.
  apply entry_lines_frame. exact F.
Qed.

Lemma queue_cons_inv (m : list (string * dumper_fn)) (h : gmap nat vcd_value)
    (id : string) (s : sample) (rest : list sample) :
  queue m h id = s :: rest ->
  exists this v,
    map_find id m = Some (value_dumper this) /\ h !! this = Some v /\
    unread v = s :: rest.
Proof.
  unfold queue, slot_value.
  destruct (map_find id m) as [[| this] |]; try discriminate.
  destruct (h !! this) as [v |] eqn:E; [| discriminate].
  intros H. exists this, v. auto.
Qed.

(** One call of the callback of [id] in the second pass. *)
Lemma call_dumper_pop (m : list (string * dumper_fn)) (h : gmap nat vcd_value)
    (id : string) (s : sample) (rest : list sample) :
  drain_inv m h -> queue m h id = s :: rest ->
  exists fn h',
    map_find id m = Some fn /\
    call_dumper fn false h
    = Some (entry_lines m h (id, s),
            {| dumped := Some (sequence s); next_seq := sequence <$> head rest |}, h') /\
    drain_inv m h' /\ heap_frame h h' /\
    queue m h' id = rest /\
    forall id', id' <> id -> queue m h' id' = queue m h id'.
Proof.
  intros Hinv Hq.
  destruct (queue_cons_inv _ _ _ _ _ Hq) as (this & v & Hfind & Hv & Hu).
  destruct (Hinv id this Hfind) as (v0 & Hv0 & Hid & Hdr).
  rewrite Hv in Hv0. injection Hv0 as <-.
  destruct (value_dump_pop v s rest Hdr Hu) as (v' & Hdump & F & Hdr' & Hu').
  exists (value_dumper this), (<[this := v']> h).
  assert (forall id' this', map_find id' m = Some (value_dumper this') ->
                            id' <> id -> this' <> this) as Hother.
  { intros id' this' Hf' Hne ->.
    destruct (Hinv id' this Hf') as (v1 & Hv1 & Hid1 & _).
    rewrite Hv in Hv1. injection Hv1 as <-. congruence. }
  split; [exact Hfind |]. split; [| split; [| split; [| split]]].
  - cbn [call_dumper]. rewrite Hv, Hdump.
    unfold entry_lines, slot_value. cbn [fst snd]. rewrite Hfind, Hv. reflexivity.
  - intros id' this' Hf'.
    destruct (decide (id' = id)) as [-> | Hne].
    + rewrite Hfind in Hf'. injection Hf' as <-.
      exists v'. rewrite lookup_insert_eq.
      destruct F as (_ & _ & _ & Hsc & _). rewrite Hsc. auto.
    + rewrite lookup_insert_ne by (apply not_eq_sym; eauto). apply Hinv. exact Hf'.
  - eapply heap_frame_insert; eassumption.
  - unfold queue, slot_value. rewrite Hfind, lookup_insert_eq. exact Hu'.
  - intros id' Hne. unfold queue, slot_value.
    destruct (map_find id' m) as [[| this'] |] eqn:Hf'; try reflexivity.
    rewrite lookup_insert_ne by (apply not_eq_sym; eauto). reflexivity.
Qed.

(** A method call that keeps the value in order keeps the registry of
    buffered signals. *)
Lemma on_value_keeps_registered (this : nat) (f : vcd_value -> vcd_value) (w : world) :
  registered_b (dumper_map (_var_map (session w))) (heap w) = true ->
  (forall id v, heap w !! this = Some v ->
     buffered_b id v = true -> buffered_b id (f v) = true) ->
  registered_b (dumper_map (_var_map (session (on_value this f w))))
               (heap (on_value this f w)) = true.
Proof.
  unfold registered_b, on_value. cbn [session heap].
  intros H Hf. apply andb_prop in H as [Hd Hall].
  apply andb_true_intro. split; [exact Hd |].
  rewrite forallb_forall in *. intros e He. specialize (Hall e He).
  destruct (snd e) as [| this']; [reflexivity |].
  destruct (decide (this' = this)) as [-> | Hne].
  - rewrite lookup_alter_eq.
    destruct (heap w !! this) as [v |] eqn:E; [| discriminate].
    cbn. apply (Hf _ v); [reflexivity | exact Hall].
  - rewrite lookup_alter_ne by congruence. exact Hall.
Qed.

(** ** The status map *)

Lemma heads_push (s : Z) (id : string) (st : list (Z * list string)) :
  heads (status_push s id st) ≡ₚ (s, id) :: heads st.
Proof.
  induction st as [| [k ids] st IH]; cbn [status_push].
  - reflexivity.
  - destruct (Z.ltb s k); [reflexivity |].
    destruct (Z.eqb_spec s k) as [-> | _].
    + cbn [heads flat_map fst snd]. rewrite map_app. cbn [map].
      rewrite <- app_assoc. cbn [app]. symmetry. apply Permutation_middle.
    + cbn [heads flat_map fst snd]. fold (heads (status_push s id st)).
      fold (heads st). rewrite IH. symmetry. apply Permutation_middle.
Qed.

Lemma keys_push (P : Z -> Prop) (s : Z) (id : string) (st : list (Z * list string)) :
  P s -> Forall P (map fst st) -> Forall P (map fst (status_push s id st)).
Proof.
  intros Hs. induction st as [| [k ids] st IH]; cbn [status_push map fst]; intros H.
  - constructor; [exact Hs | constructor].
  - apply Forall_cons in H as [Hk H].
    destruct (Z.ltb s k); [| destruct (Z.eqb s k)]; cbn [map fst].
    + constructor; [exact Hs |]. constructor; assumption.
    + constructor; assumption.
    + constructor; [exact Hk | auto].
Qed.

Lemma sorted_push (s : Z) (id : string) (st : list (Z * list string)) :
  StronglySorted Z.lt (map fst st) ->
  StronglySorted Z.lt (map fst (status_push s id st)).
Proof.
  induction st as [| [k ids] st IH]; cbn [status_push map fst]; intros H.
  - constructor; constructor.
  - apply StronglySorted_inv in H as [Hst Hk].
    destruct (Z.ltb_spec s k) as [Hlt | Hge]; [| destruct (Z.eqb_spec s k) as [-> | Hne]];
      cbn [map fst].
    + constructor; [constructor; assumption |].
      constructor; [exact Hlt |].
      eapply Forall_impl; [exact Hk |]. cbn. intros; lia.
    + constructor; assumption.
    + constructor; [auto |]. apply keys_push; [lia | exact Hk].
Qed.

Lemma nonempty_push (s : Z) (id : string) (st : list (Z * list string)) :
  Forall (fun b => snd b <> []) st ->
  Forall (fun b => snd b <> []) (status_push s id st).
Proof.
  induction st as [| [k ids] st IH]; cbn [status_push]; intros H.
  - constructor; [discriminate | constructor].
  - apply Forall_cons in H as [Hk H].
    destruct (Z.ltb s k); [| destruct (Z.eqb s k)].
    + constructor; [discriminate |]. constructor; assumption.
    + constructor; [| assumption]. cbn. intros E. apply app_eq_nil in E as [_ E].
      discriminate.
    + constructor; [exact Hk | auto].
Qed.

Lemma status_push_later (s k : Z) (id : string) (ids : list string)
    (st : list (Z * list string)) :
  k < s -> status_push s id ((k, ids) :: st) = (k, ids) :: status_push s id st.
Proof.
  intros H. cbn [status_push].
  destruct (Z.ltb_spec s k); [lia |]. destruct (Z.eqb_spec s k); [lia | reflexivity].
Qed.

Lemma status_note_next (d : option Z) (rest : list sample) (id : string)
    (st : list (Z * list string)) :
  status_note {| dumped := d; next_seq := sequence <$> head rest |} id st
  = note_next rest id st.
Proof. destruct rest; reflexivity. Qed.

(** ** One bucket of the second pass *)

Lemma dump_bucket_pops (m : list (string * dumper_fn)) (qs : list (string * list sample)) :
  forall (st : list (Z * list string)) (h : gmap nat vcd_value),
  drain_inv m h ->
  NoDup (map fst qs) ->
  (forall id q, (id, q) ∈ qs -> queue m h id = q /\ q <> []) ->
  exists h',
    dump_bucket m (map fst qs) st h
    = Some (bucket_lines m h (bucket_entries qs), bucket_notes qs st, h') /\
    drain_inv m h' /\ heap_frame h h' /\
    (forall id q, (id, q) ∈ qs -> queue m h' id = tail q) /\
    (forall id, id ∉ map fst qs -> queue m h' id = queue m h id).
Proof.
  induction qs as [| [id q] qs IH]; intros st h Hinv Hnd Hqs.
  - exists h. cbn. split; [reflexivity |]. split; [exact Hinv |].
    split; [apply heap_frame_refl |]. split; [| reflexivity].
    intros id q Hin. apply elem_of_nil in Hin. contradiction.
  - cbn [map fst] in Hnd. apply NoDup_cons in Hnd as [Hid Hnd].
    destruct (Hqs id q ltac:(left)) as [Hq Hne].
    destruct q as [| s rest]; [contradiction |].
    destruct (call_dumper_pop m h id s rest Hinv Hq)
      as (fn & h1 & Hfind & Hcall & Hinv1 & F1 & Hq1 & Hother1).
    destruct (IH (note_next rest id st) h1 Hinv1 Hnd) as (h2 & Hrun & Hinv2 & F2 & Hq2 & Hother2).
    { intros id' q' Hin. destruct (Hqs id' q' ltac:(right; exact Hin)) as [Hq' Hne'].
      split; [| exact Hne']. rewrite Hother1; [exact Hq' |].
      intros ->. apply Hid. apply (list_elem_of_fmap_2 fst) in Hin. exact Hin. }
    exists h2. split; [| split; [exact Hinv2 | split; [| split]]].
    + cbn [map fst dump_bucket]. rewrite Hfind, Hcall, status_note_next, Hrun.
      rewrite (bucket_lines_frame m h h1) by exact F1. reflexivity.
    + eapply heap_frame_trans; eassumption.
    + intros id' q' Hin. apply elem_of_cons in Hin as [[= -> ->] | Hin].
      * rewrite Hother2 by exact Hid. exact Hq1.
      * apply Hq2. exact Hin.
    + intros id' Hnot. cbn [map fst] in Hnot. apply not_elem_of_cons in Hnot as [Hne' Hnot].
      rewrite Hother2 by exact Hnot. apply Hother1. exact Hne'.
Qed.

(** ** The second pass *)

Lemma queue_sorted (m : list (string * dumper_fn)) (h : gmap nat vcd_value) (id : string) :
  drain_inv m h ->
  Sorted later (queue m h id) /\ Forall (fun s => 0 <= sequence s < 2 ^ 64) (queue m h id).
Proof.
  intros Hinv. unfold queue, slot_value.
  destruct (map_find id m) as [[| this] |] eqn:E; try (split; constructor).
  destruct (Hinv id this E) as (v & -> & _ & Hdr).
  destruct Hdr as (_ & _ & _ & _ & Hs & Hr). auto.
Qed.

Lemma heads_notes (qs : list (string * list sample)) (st : list (Z * list string)) :
  heads (bucket_notes qs st) ≡ₚ note_heads qs ++ heads st.
Proof.
  revert st. induction qs as [| [id q] qs IH]; intros st; [reflexivity |].
  cbn [bucket_notes foldl note_heads flat_map fst snd].
  fold (bucket_notes qs (note_next (tail q) id st)). fold (note_heads qs).
  rewrite IH. unfold note_next.
  destruct (tail q) as [| s' r]; [reflexivity |].
  rewrite heads_push. cbn [app]. symmetry. apply Permutation_middle.
Qed.

Lemma keys_notes (P : Z -> Prop) (qs : list (string * list sample))
    (st : list (Z * list string)) :
  (forall k id, (k, id) ∈ note_heads qs -> P k) ->
  Forall P (map fst st) -> Forall P (map fst (bucket_notes qs st)).
Proof.
  revert st. induction qs as [| [id q] qs IH]; intros st Hn Hst; [exact Hst |].
  cbn [bucket_notes foldl fst snd]. fold (bucket_notes qs (note_next (tail q) id st)).
  apply IH.
  - intros k id' Hin. apply (Hn k id'). cbn [note_heads flat_map].
    apply elem_of_app. right. exact Hin.
  - unfold note_next. destruct (tail q) as [| s' r] eqn:E; [exact Hst |].
    apply keys_push; [| exact Hst].
    apply (Hn (sequence s') id). cbn [note_heads flat_map fst snd]. rewrite E. left.
Qed.

Lemma sorted_notes (qs : list (string * list sample)) (st : list (Z * list string)) :
  StronglySorted Z.lt (map fst st) ->
  StronglySorted Z.lt (map fst (bucket_notes qs st)).
Proof.
  revert st. induction qs as [| [id q] qs IH]; intros st Hst; [exact Hst |].
  cbn [bucket_notes foldl fst snd]. apply IH.
  unfold note_next. destruct (tail q); [exact Hst | apply sorted_push; exact Hst].
Qed.

Lemma nonempty_notes (qs : list (string * list sample)) (st : list (Z * list string)) :
  Forall (fun b => snd b <> []) st ->
  Forall (fun b => snd b <> []) (bucket_notes qs st).
Proof.
  revert st. induction qs as [| [id q] qs IH]; intros st Hst; [exact Hst |].
  cbn [bucket_notes foldl fst snd]. apply IH.
  unfold note_next. destruct (tail q); [exact Hst | apply nonempty_push; exact Hst].
Qed.

Lemma notes_later (k : Z) (ids : list string) (qs : list (string * list sample))
    (st : list (Z * list string)) :
  (forall k' id, (k', id) ∈ note_heads qs -> k < k') ->
  bucket_notes qs ((k, ids) :: st) = (k, ids) :: bucket_notes qs st.
Proof.
  revert st. induction qs as [| [id q] qs IH]; intros st Hn; [reflexivity |].
  cbn [bucket_notes foldl fst snd].
  fold (bucket_notes qs (note_next (tail q) id ((k, ids) :: st))).
  fold (bucket_notes qs (note_next (tail q) id st)).
  assert (note_next (tail q) id ((k, ids) :: st) = (k, ids) :: note_next (tail q) id st) as ->.
  { unfold note_next. destruct (tail q) as [| s' r] eqn:E; [reflexivity |].
    apply status_push_later. apply (Hn (sequence s') id).
    cbn [note_heads flat_map fst snd]. rewrite E. left. }
  apply IH. intros k' id' Hin. apply (Hn k' id').
  cbn [note_heads flat_map]. apply elem_of_app. right. exact Hin.
Qed.

Lemma note_heads_elem (qs : list (string * list sample)) (k : Z) (id : string) :
  (k, id) ∈ note_heads qs ->
  exists q s' r, (id, q) ∈ qs /\ tail q = s' :: r /\ k = sequence s'.
Proof.
  induction qs as [| [id0 q0] qs IH]; cbn [note_heads flat_map fst snd]; intros Hin.
  - apply elem_of_nil in Hin. contradiction.
  - apply elem_of_app in Hin as [Hin | Hin].
    + destruct (tail q0) as [| s' r] eqn:E; [apply elem_of_nil in Hin; contradiction |].
      apply list_elem_of_singleton in Hin. injection Hin as -> ->.
      exists q0, s', r. split; [left | auto].
    + destruct (IH Hin) as (q & s' & r & Hq & Ht & Hk).
      exists q, s', r. split; [right; exact Hq | auto].
Qed.

Lemma elem_note_heads (qs : list (string * list sample)) (id : string)
    (q : list sample) (s' : sample) (r : list sample) :
  (id, q) ∈ qs -> tail q = s' :: r -> (sequence s', id) ∈ note_heads qs.
Proof.
  induction qs as [| [id0 q0] qs IH]; intros Hin Ht.
  - apply elem_of_nil in Hin. contradiction.
  - cbn [note_heads flat_map fst snd]. apply elem_of_app.
    apply elem_of_cons in Hin as [[= -> ->] | Hin].
    + left. rewrite Ht. left.
    + right. apply IH; assumption.
Qed.

Lemma note_heads_sublist (qs : list (string * list sample)) :
  map snd (note_heads qs) `sublist_of` map fst qs.
Proof.
  induction qs as [| [id q] qs IH]; [constructor |].
  cbn [note_heads flat_map fst snd map]. rewrite map_app.
  destruct (tail q); cbn [map app snd].
  - apply sublist_cons. exact IH.
  - apply sublist_skip. exact IH.
Qed.

Lemma filter_bucket_entries_out (qs : list (string * list sample)) (id : string) :
  id ∉ map fst qs ->
  List.filter (fun e => String.eqb (fst e) id) (bucket_entries qs) = [].
Proof.
  induction qs as [| [id0 q] qs IH]; intros Hnot; [reflexivity |].
  cbn [map fst] in Hnot. apply not_elem_of_cons in Hnot as [Hne Hnot].
  cbn [bucket_entries flat_map fst snd]. rewrite List.filter_app.
  fold (bucket_entries qs). rewrite (IH Hnot), app_nil_r.
  destruct q as [| s r]; [reflexivity |]. cbn.
  destruct (String.eqb_spec id0 id); [congruence | reflexivity].
Qed.

Lemma filter_bucket_entries_in (qs : list (string * list sample)) (id : string)
    (s : sample) (r : list sample) :
  NoDup (map fst qs) -> (id, s :: r) ∈ qs ->
  List.filter (fun e => String.eqb (fst e) id) (bucket_entries qs) = [(id, s)].
Proof.
  induction qs as [| [id0 q] qs IH]; intros Hnd Hin.
  - apply elem_of_nil in Hin. contradiction.
  - cbn [map fst] in Hnd. apply NoDup_cons in Hnd as [Hid Hnd].
    cbn [bucket_entries flat_map fst snd]. rewrite List.filter_app.
    fold (bucket_entries qs).
    apply elem_of_cons in Hin as [[= <- <-] | Hin].
    + rewrite (filter_bucket_entries_out qs id Hid), app_nil_r. cbn.
      rewrite String.eqb_refl. reflexivity.
    + rewrite (IH Hnd Hin).
      assert (id0 <> id) as Hne.
      { intros ->. apply Hid. apply (list_elem_of_fmap_2 fst) in Hin. exact Hin. }
      destruct q as [| s0 r0]; [reflexivity |]. cbn.
      destruct (String.eqb_spec id0 id); [congruence | reflexivity].
Qed.

Lemma list_sum_cons (x : nat) (l : list nat) :
  list_sum (x :: l) = (x + list_sum l)%nat.
Proof. reflexivity. Qed.

Lemma list_sum_le {A : Type} (f g : A -> nat) (l : list A) :
  (forall y, y ∈ l -> (f y <= g y)%nat) ->
  (list_sum (map f l) <= list_sum (map g l))%nat.
Proof.
  induction l as [| z l IH]; intros Hle; [reflexivity |].
  cbn [map]. rewrite !list_sum_cons.
  pose proof (Hle z ltac:(left)).
  assert (list_sum (map f l) <= list_sum (map g l))%nat; [| lia].
  apply IH. intros y Hy. apply Hle. right. exact Hy.
Qed.

Lemma list_sum_lt {A : Type} (f g : A -> nat) (l : list A) (x : A) :
  (forall y, y ∈ l -> (f y <= g y)%nat) -> x ∈ l -> (f x < g x)%nat ->
  (list_sum (map f l) < list_sum (map g l))%nat.
Proof.
  induction l as [| y l IH]; intros Hle Hin Hlt.
  - apply elem_of_nil in Hin. contradiction.
  - cbn [map]. rewrite !list_sum_cons.
    assert (list_sum (map f l) <= list_sum (map g l))%nat as Hrest.
    { apply list_sum_le. intros y' Hy'. apply Hle. right. exact Hy'. }
    pose proof (Hle y ltac:(left)).
    apply elem_of_cons in Hin as [<- | Hin]; [lia |].
    assert (list_sum (map f l) < list_sum (map g l))%nat; [| lia].
    apply IH; [| exact Hin | exact Hlt].
    intros y' Hy'. apply Hle. right. exact Hy'.
Qed.

Lemma drain_lines_frame (m : list (string * dumper_fn)) (h h' : gmap nat vcd_value)
    (timestamp : Z) (buckets : list (Z * list (string * sample))) :
  heap_frame h h' ->
  forall first tracepoint,
    drain_lines m h' timestamp first tracepoint buckets
    = drain_lines m h timestamp first tracepoint buckets.
Proof.
  intros F. induction buckets as [| [s es] bs IH]; intros first tp; [reflexivity |].
  cbn [drain_lines]. destruct (log_time _ false tp) as [out1 tp1].
  rewrite IH, (bucket_lines_frame m h h' es F). reflexivity.
Qed.

Lemma bucket_queues_fst (m : list (string * dumper_fn)) (h : gmap nat vcd_value)
    (ids : list string) :
  map fst (bucket_queues m h ids) = ids.
Proof.
  unfold bucket_queues. rewrite map_map. cbn. apply map_id.
Qed.

Lemma bucket_queues_elem (m : list (string * dumper_fn)) (h : gmap nat vcd_value)
    (ids : list string) (id : string) (q : list sample) :
  (id, q) ∈ bucket_queues m h ids <-> id ∈ ids /\ q = queue m h id.
Proof.
  unfold bucket_queues. split.
  - intros Hin. apply list_elem_of_fmap in Hin as (id' & [= -> ->] & Hin). auto.
  - intros [Hin ->]. apply list_elem_of_fmap. exists id. auto.
Qed.

Lemma heads_cons (k : Z) (ids : list string) (st : list (Z * list string)) :
  heads ((k, ids) :: st) = map (pair k) ids ++ heads st.
Proof. reflexivity. Qed.

Lemma snd_pairs (k : Z) (ids : list string) : map snd (map (pair k) ids) = ids.
Proof. rewrite map_map. cbn. apply map_id. Qed.

Lemma elem_pairs (k k' : Z) (id : string) (ids : list string) :
  (k', id) ∈ map (pair k) ids <-> k' = k /\ id ∈ ids.
Proof.
  split.
  - intros Hin. apply list_elem_of_fmap in Hin as (id' & [= -> ->] & Hin). auto.
  - intros [-> Hin]. apply list_elem_of_fmap. exists id. auto.
Qed.

Lemma status_ok_bucket (m : list (string * dumper_fn)) (h : gmap nat vcd_value)
    (k : Z) (ids : list string) (st : list (Z * list string)) :
  status_ok m h ((k, ids) :: st) ->
  ids <> [] /\ NoDup ids /\
  (forall id, id ∈ ids -> exists s rest, queue m h id = s :: rest /\ sequence s = k) /\
  (forall id, id ∈ ids -> id ∉ map snd (heads st)) /\
  NoDup (map snd (heads st)) /\
  StronglySorted Z.lt (map fst st) /\
  Forall (Z.lt k) (map fst st) /\
  Forall (fun b => snd b <> []) st.
Proof.
  intros (Hsorted & Hne & Hnd & Hheads & _).
  cbn [map fst] in Hsorted. apply StronglySorted_inv in Hsorted as [Hsorted Hk].
  apply Forall_cons in Hne as [Hids Hne].
  rewrite heads_cons, map_app, snd_pairs in Hnd.
  apply NoDup_app in Hnd as (Hnd1 & Hdisj & Hnd2).
  repeat split; try assumption.
  intros id Hin. apply (Hheads k id). rewrite heads_cons.
  apply elem_of_app. left. apply elem_pairs. auto.
Qed.

Lemma note_heads_later (m : list (string * dumper_fn)) (h : gmap nat vcd_value)
    (k : Z) (ids : list string) :
  drain_inv m h ->
  (forall id, id ∈ ids -> exists s rest, queue m h id = s :: rest /\ sequence s = k) ->
  forall k' id, (k', id) ∈ note_heads (bucket_queues m h ids) -> k < k'.
Proof.
  intros Hinv Hheads k' id Hin.
  apply note_heads_elem in Hin as (q & s' & r & Hq & Ht & ->).
  apply bucket_queues_elem in Hq as [Hid ->].
  destruct (Hheads id Hid) as (s & rest & Hqs & <-).
  destruct (queue_sorted m h id Hinv) as [Hsorted _].
  rewrite Hqs in Hsorted, Ht. cbn in Ht. subst rest.
  apply Sorted_inv in Hsorted as [_ Hhd]. apply HdRel_inv in Hhd. exact Hhd.
Qed.

(** The status map after the round that writes its first bucket. *)
Lemma status_ok_next (m : list (string * dumper_fn)) (h h2 : gmap nat vcd_value)
    (k : Z) (ids : list string) (st : list (Z * list string)) :
  drain_inv m h ->
  status_ok m h ((k, ids) :: st) ->
  (forall id q, (id, q) ∈ bucket_queues m h ids -> queue m h2 id = tail q) ->
  (forall id, id ∉ ids -> queue m h2 id = queue m h id) ->
  status_ok m h2 (bucket_notes (bucket_queues m h ids) st) /\
  Forall (Z.lt k) (map fst (bucket_notes (bucket_queues m h ids) st)).
Proof.
  intros Hinv Hst Hpop Hkeep.
  destruct (status_ok_bucket _ _ _ _ _ Hst)
    as (Hids & Hnd & Hheads & Hdisj & Hnd2 & Hsorted & Hk & Hne).
  destruct Hst as (_ & _ & _ & Hall & Hcover).
  pose proof (note_heads_later m h k ids Hinv Hheads) as Hlater.
  set (qs := bucket_queues m h ids) in *.
  split; [| apply keys_notes; [exact Hlater | exact Hk]].
  split; [apply sorted_notes; exact Hsorted |].
  split; [apply nonempty_notes; exact Hne |].
  split; [| split].
  - rewrite heads_notes, map_app. apply NoDup_app. split; [| split].
    + eapply sublist_NoDup; [| apply note_heads_sublist].
      unfold qs. rewrite bucket_queues_fst. exact Hnd.
    + intros id Hin. apply Hdisj.
      pose proof (note_heads_sublist qs) as Hsub.
      apply (elem_of_sublist _ _ id Hin) in Hsub. clear Hin. rename Hsub into Hin.
      unfold qs in Hin. rewrite bucket_queues_fst in Hin. exact Hin.
    + exact Hnd2.
  - intros k' id Hin. rewrite heads_notes in Hin.
    apply elem_of_app in Hin as [Hin | Hin].
    + apply note_heads_elem in Hin as (q & s' & r & Hq & Ht & ->).
      exists s', r. rewrite (Hpop id q Hq). auto.
    + assert (id ∉ ids) as Hout.
      { intros Hid. apply (Hdisj id Hid).
        apply (list_elem_of_fmap_2 snd) in Hin. exact Hin. }
      rewrite (Hkeep id Hout). apply Hall. rewrite heads_cons.
      apply elem_of_app. right. exact Hin.
  - intros id Hq. rewrite heads_notes, map_app. apply elem_of_app.
    destruct (decide (id ∈ ids)) as [Hid | Hout].
    + left.
      assert ((id, queue m h id) ∈ qs) as Hin by (apply bucket_queues_elem; auto).
      rewrite (Hpop _ _ Hin) in Hq.
      destruct (tail (queue m h id)) as [| s' r] eqn:Et; [contradiction |].
      apply (list_elem_of_fmap_2 snd (note_heads qs) (sequence s', id)).
      eapply elem_note_heads; eassumption.
    + right. rewrite (Hkeep id Hout) in Hq. apply Hcover in Hq.
      rewrite heads_cons, map_app, snd_pairs in Hq.
      apply elem_of_app in Hq as [Hq | Hq]; [contradiction | exact Hq].
Qed.

Lemma load_drops (m : list (string * dumper_fn)) (h h2 : gmap nat vcd_value)
    (ids : list string) :
  ids <> [] ->
  (forall id, id ∈ ids -> queue m h id <> []) ->
  (forall id q, (id, q) ∈ bucket_queues m h ids -> queue m h2 id = tail q) ->
  (forall id, id ∉ ids -> queue m h2 id = queue m h id) ->
  (load m h2 < load m h)%nat.
Proof.
  intros Hids Hne Hpop Hkeep.
  assert (forall id, length (queue m h2 id) <= length (queue m h id))%nat as Hle.
  { intros id. destruct (decide (id ∈ ids)) as [Hid | Hout].
    - rewrite (Hpop id (queue m h id)) by (apply bucket_queues_elem; auto).
      destruct (queue m h id); cbn; lia.
    - rewrite (Hkeep id Hout). lia. }
  destruct ids as [| id0 ids']; [contradiction |].
  assert (id0 ∈ id0 :: ids') as Hid0 by left.
  pose proof (Hne id0 Hid0) as Hq0.
  assert (exists fn, (id0, fn) ∈ m) as [fn Hin].
  { unfold queue, slot_value in Hq0.
    destruct (map_find id0 m) as [fn |] eqn:E; [| contradiction].
    exists fn. apply map_find_elem. exact E. }
  unfold load.
  apply (list_sum_lt _ _ m (id0, fn)); [intros y _; apply Hle | exact Hin |].
  cbn [fst].
  rewrite (Hpop id0 (queue m h id0)) by (apply bucket_queues_elem; auto).
  destruct (queue m h id0); [contradiction | cbn; lia].
Qed.

Lemma bucket_entries_ok (m : list (string * dumper_fn)) (h : gmap nat vcd_value)
    (k : Z) (ids : list string) :
  drain_inv m h -> ids <> [] ->
  (forall id, id ∈ ids -> exists s rest, queue m h id = s :: rest /\ sequence s = k) ->
  bucket_ok (k, bucket_entries (bucket_queues m h ids)).
Proof.
  intros Hinv Hids Hheads. split; cbn [fst snd].
  - destruct ids as [| id0 ids']; [contradiction |].
    destruct (Hheads id0 ltac:(left)) as (s & rest & Hq & _).
    cbn. rewrite Hq. discriminate.
  - clear Hids. induction ids as [| id0 ids' IH]; [constructor |].
    cbn [bucket_queues map bucket_entries flat_map fst snd].
    apply Forall_app. split.
    + destruct (Hheads id0 ltac:(left)) as (s & rest & Hq & Hk).
      destruct (queue_sorted m h id0 Hinv) as [_ Hrange].
      rewrite Hq in *. constructor; [| constructor].
      apply Forall_inv in Hrange. cbn. auto.
    + apply IH. intros id Hin. apply Hheads. right. exact Hin.
Qed.

(** The second pass writes the unread samples of the registry bucket by
    bucket, in increasing sequence order, and leaves none. *)
Lemma second_pass_merges (m : list (string * dumper_fn)) (ts : Z) :
  forall (fuel : nat) (st : list (Z * list string)) (h : gmap nat vcd_value)
         (first : option Z) (tp : Z),
    drain_inv m h -> status_ok m h st -> (load m h < fuel)%nat ->
    exists buckets h',
      second_pass fuel m ts st first tp h
      = Some (fst (drain_lines m h ts first tp buckets),
              snd (drain_lines m h ts first tp buckets), h') /\
      StronglySorted Z.lt (map fst buckets) /\
      (forall lb, Forall (Z.lt lb) (map fst st) -> Forall (Z.lt lb) (map fst buckets)) /\
      Forall bucket_ok buckets /\
      (forall id,
         List.filter (fun e => String.eqb (fst e) id) (concat (map snd buckets))
         = map (pair id) (queue m h id)) /\
      heap_frame h h' /\ drain_inv m h' /\ (forall id, queue m h' id = []).
Proof.
  induction fuel as [| fuel IH]; intros st h first tp Hinv Hst Hload; [lia |].
  destruct st as [| [k ids] st].
  - exists [], h. cbn [second_pass drain_lines fst snd].
    assert (forall id, queue m h id = []) as Hempty.
    { intros id. destruct (queue m h id) eqn:E; [reflexivity |].
      destruct Hst as (_ & _ & _ & _ & Hcover).
      assert (queue m h id <> []) as Hq by (rewrite E; discriminate).
      apply Hcover in Hq. apply elem_of_nil in Hq. contradiction. }
    split; [reflexivity |]. split; [constructor |]. split; [intros; constructor |].
    split; [constructor |]. split; [| split; [apply heap_frame_refl | auto]].
    intros id. rewrite Hempty. reflexivity.
  - destruct (status_ok_bucket _ _ _ _ _ Hst)
      as (Hids & Hnd & Hheads & Hdisj & Hnd2 & Hsorted & Hk & Hne).
    set (qs := bucket_queues m h ids).
    destruct (dump_bucket_pops m qs ((k, ids) :: st) h Hinv)
      as (h2 & Hrun & Hinv2 & F2 & Hpop & Hkeep).
    { unfold qs. rewrite bucket_queues_fst. exact Hnd. }
    { intros id q Hin. apply bucket_queues_elem in Hin as [Hid ->].
      split; [reflexivity |]. destruct (Hheads id Hid) as (s & rest & -> & _). discriminate. }
    unfold qs in Hrun, Hkeep. rewrite bucket_queues_fst in Hrun, Hkeep. fold qs in Hrun.
    destruct (status_ok_next m h h2 k ids st Hinv Hst Hpop Hkeep) as [Hst2 Hk2].
    fold qs in Hst2, Hk2.
    assert (load m h2 < fuel)%nat as Hload2.
    { assert (load m h2 < load m h)%nat; [| lia].
      apply (load_drops m h h2 ids); try assumption.
      intros id Hid. destruct (Hheads id Hid) as (s & rest & -> & _). discriminate. }
    set (f0 := match first with Some f => f | None => k end).
    destruct (log_time (wrap64 (ts + wrap64 (k - f0))) false tp) as [out1 tp1] eqn:Elog.
    destruct (IH (bucket_notes qs st) h2 (Some f0) tp1 Hinv2 Hst2 Hload2)
      as (bs & h3 & Hrest & Hbs_sorted & Hbs_lb & Hbs_ok & Hbs_all & F3 & Hinv3 & Hempty).
    exists ((k, bucket_entries qs) :: bs), h3.
    split; [| split; [| split; [| split; [| split; [| split]]]]].
    + cbn [second_pass drain_lines]. fold f0. rewrite Elog, Hrun.
      rewrite (notes_later k ids qs st)
        by (apply (note_heads_later m h k ids Hinv Hheads)).
      cbn [tail]. rewrite Hrest.
      rewrite (drain_lines_frame m h h2 ts bs F2).
      destruct (drain_lines m h ts (Some f0) tp1 bs) as [out3 tp3].
      reflexivity.
    + cbn [map fst]. constructor; [exact Hbs_sorted | apply Hbs_lb; exact Hk2].
    + intros lb Hlb. cbn [map fst] in *. apply Forall_cons in Hlb as [Hlbk _].
      constructor; [exact Hlbk |]. apply Hbs_lb.
      eapply Forall_impl; [exact Hk2 |]. cbn. intros; lia.
    + constructor; [| exact Hbs_ok].
      apply (bucket_entries_ok m h k ids Hinv Hids Hheads).
    + intros id. cbn [map snd concat]. rewrite List.filter_app, Hbs_all.
      destruct (decide (id ∈ ids)) as [Hid | Hout].
      * destruct (Hheads id Hid) as (s & rest & Hq & _).
        assert ((id, s :: rest) ∈ qs) as Hin
            by (apply bucket_queues_elem; rewrite Hq; auto).
        rewrite (filter_bucket_entries_in qs id s rest);
          [| unfold qs; rewrite bucket_queues_fst; exact Hnd | exact Hin].
        rewrite (Hpop id _ Hin), Hq. reflexivity.
      * rewrite (filter_bucket_entries_out qs id)
          by (unfold qs; rewrite bucket_queues_fst; exact Hout).
        rewrite (Hkeep id Hout). reflexivity.
    + eapply heap_frame_trans; eassumption.
    + split; [exact Hinv3 | exact Hempty].
Qed.

(** ** The first pass *)

Lemma registered_b_spec (m : list (string * dumper_fn)) (h : gmap nat vcd_value) :
  registered_b m h = true ->
  NoDup (map fst m) /\
  forall id this, (id, value_dumper this) ∈ m ->
    exists v, h !! this = Some v /\ buffered_b id v = true.
Proof.
  unfold registered_b. intros H. apply andb_prop in H as [Hd Hall].
  split; [apply distinct_b_NoDup; exact Hd |].
  intros id this Hin. rewrite forallb_forall in Hall.
  apply list_elem_of_In in Hin. specialize (Hall _ Hin). cbn [fst snd] in Hall.
  destruct (h !! this) as [v |]; [| discriminate]. exists v. auto.
Qed.

Lemma queue_insert_other (m : list (string * dumper_fn)) (h : gmap nat vcd_value)
    (this : nat) (v' : vcd_value) (id : string) :
  (forall this', map_find id m = Some (value_dumper this') -> this' <> this) ->
  queue m (<[this := v']> h) id = queue m h id.
Proof.
  intros Hne. unfold queue, slot_value.
  destruct (map_find id m) as [[| this'] |]; try reflexivity.
  rewrite lookup_insert_ne by (apply not_eq_sym; auto). reflexivity.
Qed.

Section FirstPass.

Variable m : list (string * dumper_fn).
Variable h0 : gmap nat vcd_value.
Hypothesis m_distinct : NoDup (map fst m).
Hypothesis m_buffered :
  forall id this, (id, value_dumper this) ∈ m ->
    exists v, h0 !! this = Some v /\ buffered_b id v = true.

Lemma peeked_start : peeked m h0 [] [] h0.
Proof.
  split; [apply heap_frame_refl |]. split; [| split; [| split; [| split; [| split]]]].
  - intros id this Hfind. apply map_find_elem in Hfind.
    destruct (m_buffered id this Hfind) as (v & Hv & Hb).
    exists v, v. split; [exact Hv |]. split; [exact Hv |]. split; [exact Hb |].
    split; [| reflexivity].
    intros Hin. apply elem_of_nil in Hin. contradiction.
  - constructor.
  - constructor.
  - constructor.
  - intros k id Hin. apply elem_of_nil in Hin. contradiction.
  - intros id Hin. apply elem_of_nil in Hin. contradiction.
Qed.

Lemma peeked_distinct (done : list string) (st : list (Z * list string))
    (h : gmap nat vcd_value) (id id' : string) (this : nat) :
  peeked m h0 done st h ->
  map_find id m = Some (value_dumper this) ->
  map_find id' m = Some (value_dumper this) -> id' = id.
Proof.
  intros (_ & Hvals & _) Hf Hf'.
  destruct (Hvals id this Hf) as (v0 & _ & Hv0 & _ & Hb & _).
  destruct (Hvals id' this Hf') as (v0' & _ & Hv0' & _ & Hb' & _).
  rewrite Hv0 in Hv0'. injection Hv0' as <-.
  apply buffered_b_spec in Hb as (_ & _ & _ & Hid & _).
  apply buffered_b_spec in Hb' as (_ & _ & _ & Hid' & _).
  congruence.
Qed.

(** The callback of a stub leaves the state as it is. *)
Lemma peeked_nop (done : list string) (st : list (Z * list string))
    (h : gmap nat vcd_value) (id : string) :
  peeked m h0 done st h -> map_find id m = Some nop_dump ->
  peeked m h0 (done ++ [id]) st h.
Proof.
  intros (F & Hvals & Hsorted & Hne & Hnd & Hheads & Hcover) Hfind.
  assert (queue m h id = []) as Hq by (unfold queue, slot_value; rewrite Hfind; reflexivity).
  split; [exact F |]. split; [| split; [exact Hsorted | split; [exact Hne | split; [exact Hnd | split]]]].
  - intros id' this Hf'.
    destruct (Hvals id' this Hf') as (v0 & v & Hv0 & Hv & Hb & Hdone & Hnot).
    exists v0, v. split; [exact Hv0 |]. split; [exact Hv |]. split; [exact Hb |].
    split.
    + intros Hin. apply Hdone. apply elem_of_app in Hin as [Hin | Hin]; [exact Hin |].
      apply list_elem_of_singleton in Hin. subst id'. congruence.
    + intros Hout. apply Hnot. intros Hin. apply Hout. apply elem_of_app. auto.
  - intros k id' Hin. destruct (Hheads k id' Hin) as [Hd Hrest].
    split; [apply elem_of_app; auto | exact Hrest].
  - intros id' Hin Hq'. apply elem_of_app in Hin as [Hin | Hin]; [auto |].
    apply list_elem_of_singleton in Hin. subst id'. contradiction.
Qed.

(** The callback of a buffered value puts it under the sequence of its
    oldest pending sample. *)
Lemma peeked_value (done : list string) (st : list (Z * list string))
    (h : gmap nat vcd_value) (id : string) (this : nat) :
  peeked m h0 done st h -> map_find id m = Some (value_dumper this) -> id ∉ done ->
  exists v0 r h',
    h0 !! this = Some v0 /\
    call_dumper (value_dumper this) true h = Some ([], r, h') /\
    dumped r = None /\
    peeked m h0 (done ++ [id]) (status_note r id st) h'.
Proof.
  intros Hp Hfind Hout.
  pose proof (fun id' this => peeked_distinct done st h id id' this Hp) as Hinj.
  destruct Hp as (F & Hvals & Hsorted & Hne & Hnd & Hheads & Hcover).
  destruct (Hvals id this Hfind) as (v0 & v & Hv0 & Hv & Hb & _ & Hsame).
  rewrite (Hsame Hout) in Hv. clear Hsame v.
  pose proof Hb as Hb'.
  apply buffered_b_spec in Hb' as (HD & Hlen & Hw & Hid & Hs & Hr).
  destruct (value_dump_peek v0 HD Hlen Hw) as (v' & Hdump & Fv & Hr' & Hw' & Hu).
  exists v0, {| dumped := None; next_seq := sequence <$> head (pending v0) |},
         (<[this := v']> h).
  split; [exact Hv0 |]. split; [cbn [call_dumper]; rewrite Hv, Hdump; reflexivity |].
  split; [reflexivity |].
  assert (forall id', id' <> id ->
            queue m (<[this := v']> h) id' = queue m h id') as Hother.
  { intros id' Hne'. apply queue_insert_other. intros this' Hf' ->.
    apply Hne'. eapply Hinj; eauto. }
  assert (queue m (<[this := v']> h) id = pending v0) as Hqid.
  { unfold queue, slot_value. rewrite Hfind, lookup_insert_eq. exact Hu. }
  assert (forall k id', (k, id') ∈ heads st -> id' <> id) as Hfresh.
  { intros k id' Hin ->. destruct (Hheads k id Hin) as [Hd _]. contradiction. }
  rewrite status_note_next.
  split; [| split; [| split; [| split; [| split; [| split]]]]].
  - eapply heap_frame_trans; [exact F |]. eapply heap_frame_insert; eassumption.
  - intros id' this' Hf'. destruct (decide (id' = id)) as [-> | Hne'].
    + rewrite Hfind in Hf'. injection Hf' as <-.
      exists v0, v'. rewrite lookup_insert_eq.
      split; [exact Hv0 |]. split; [reflexivity |]. split; [exact Hb |]. split.
      * intros _. split; [| exact Hu].
        destruct Fv as (_ & _ & HD' & _ & Hs').
        unfold draining. rewrite Hu, Hs', HD'. repeat split; try assumption; lia.
      * intros Hnot. exfalso. apply Hnot. apply elem_of_app. right. left.
    + destruct (Hvals id' this' Hf') as (v1 & v2 & Hv1 & Hv2 & Hb1 & Hdone & Hnot).
      exists v1, v2. rewrite lookup_insert_ne.
      * split; [exact Hv1 |]. split; [exact Hv2 |]. split; [exact Hb1 |]. split.
        -- intros Hin. apply Hdone. apply elem_of_app in Hin as [Hin | Hin]; [exact Hin |].
           apply list_elem_of_singleton in Hin. contradiction.
        -- intros Hout'. apply Hnot. intros Hin. apply Hout'. apply elem_of_app. auto.
      * intros ->. apply Hne'. eapply Hinj; eauto.
  - unfold note_next. destruct (pending v0); [exact Hsorted | apply sorted_push; exact Hsorted].
  - unfold note_next. destruct (pending v0); [exact Hne | apply nonempty_push; exact Hne].
  - unfold note_next. destruct (pending v0) as [| s rest]; [exact Hnd |].
    rewrite heads_push. cbn [map snd]. apply NoDup_cons. split; [| exact Hnd].
    intros Hin. apply list_elem_of_fmap in Hin as ([k id'] & Heq & Hin).
    cbn in Heq. subst id'. eapply Hfresh; eauto.
  - intros k id' Hin.
    assert ((k, id') ∈ heads st \/ (exists s rest, pending v0 = s :: rest /\ k = sequence s /\ id' = id))
      as [Hold | (s & rest & Hp & -> & ->)].
    { unfold note_next in Hin. destruct (pending v0) as [| s rest]; [left; exact Hin |].
      rewrite heads_push in Hin. apply elem_of_cons in Hin as [[= -> ->] | Hin]; [| left; exact Hin].
      right. exists s, rest. auto. }
    + destruct (Hheads k id' Hold) as [Hd Hq].
      split; [apply elem_of_app; auto |].
      rewrite Hother by (eapply Hfresh; eauto). exact Hq.
    + split; [apply elem_of_app; right; left |].
      exists s, rest. rewrite Hqid. auto.
  - intros id' Hin Hq. apply elem_of_app in Hin as [Hin | Hin].
    + assert (id' <> id) as Hne' by (intros ->; contradiction).
      rewrite Hother in Hq by exact Hne'.
      pose proof (Hcover id' Hin Hq) as Hc.
      unfold note_next. destruct (pending v0); [exact Hc |].
      rewrite heads_push. cbn [map snd]. right. exact Hc.
    + apply list_elem_of_singleton in Hin. subst id'.
      rewrite Hqid in Hq. unfold note_next.
      destruct (pending v0) as [| s rest]; [contradiction |].
      rewrite heads_push. cbn [map snd]. left.
Qed.

Lemma first_pass_peeks (m' : list (string * dumper_fn)) :
  forall (done : list string) (st : list (Z * list string)) (h : gmap nat vcd_value),
    peeked m h0 done st h ->
    (forall e, e ∈ m' -> e ∈ m) ->
    NoDup (map fst m') ->
    (forall id, id ∈ map fst m' -> id ∉ done) ->
    exists st' h',
      first_pass m' st None h = Some ([], st', None, h') /\
      peeked m h0 (done ++ map fst m') st' h'.
Proof.
  induction m' as [| [id fn] m' IH]; intros done st h Hp Hsub Hnd Hfresh.
  - exists st, h. cbn. rewrite app_nil_r. auto.
  - cbn [map fst] in Hnd, Hfresh. apply NoDup_cons in Hnd as [Hid Hnd].
    assert (map_find id m = Some fn) as Hfind
        by (apply elem_map_find; [exact m_distinct | apply Hsub; left]).
    assert (id ∉ done) as Hout by (apply Hfresh; left).
    assert (forall id', id' ∈ map fst m' -> id' ∉ done ++ [id]) as Hfresh'.
    { intros id' Hin Hd. apply elem_of_app in Hd as [Hd | Hd].
      - apply (Hfresh id'); [right; exact Hin | exact Hd].
      - apply list_elem_of_singleton in Hd. subst id'. contradiction. }
    assert (forall e, e ∈ m' -> e ∈ m) as Hsub' by (intros e He; apply Hsub; right; exact He).
    cbn [first_pass map fst]. rewrite (cons_middle id done (map fst m')), app_assoc.
    destruct fn as [| this].
    + cbn [call_dumper]. cbn [status_note next_seq end_sequence dumped].
      destruct (IH (done ++ [id]) st h (peeked_nop done st h id Hp Hfind) Hsub' Hnd Hfresh')
        as (st' & h' & Hrun & Hp').
      exists st', h'. rewrite Hrun. auto.
    + destruct (peeked_value done st h id this Hp Hfind Hout)
        as (v0 & r & h1 & _ & Hcall & Hd & Hp1).
      rewrite Hcall, Hd.
      destruct (IH (done ++ [id]) (status_note r id st) h1 Hp1 Hsub' Hnd Hfresh')
        as (st' & h' & Hrun & Hp').
      exists st', h'. rewrite Hrun. auto.
Qed.

(** After the first pass the status map holds the signals with pending
    samples, and the unread samples of every signal are its pending ones. *)
Lemma first_pass_ready :
  exists st h1,
    first_pass m [] None h0 = Some ([], st, None, h1) /\
    drain_inv m h1 /\ status_ok m h1 st /\ heap_frame h0 h1 /\
    forall id, queue m h1 id = waiting m h0 id.
Proof.
  destruct (first_pass_peeks m [] [] h0 peeked_start) as (st & h1 & Hrun & Hp).
  { auto. }
  { exact m_distinct. }
  { intros id _ Hin. apply elem_of_nil in Hin. contradiction. }
  cbn [app] in Hp.
  destruct Hp as (F & Hvals & Hsorted & Hne & Hnd & Hheads & Hcover).
  assert (forall id this, map_find id m = Some (value_dumper this) -> id ∈ map fst m) as Hdone.
  { intros id this Hf. apply map_find_elem in Hf.
    apply (list_elem_of_fmap_2 fst) in Hf. exact Hf. }
  exists st, h1. split; [exact Hrun |]. split; [| split; [| split; [exact F |]]].
  - intros id this Hf.
    destruct (Hvals id this Hf) as (v0 & v & Hv0 & Hv & Hb & Hd & _).
    destruct (Hd (Hdone id this Hf)) as [Hdr _].
    exists v. split; [exact Hv |]. split; [| exact Hdr].
    specialize (F this). rewrite Hv0, Hv in F.
    destruct F as (_ & _ & _ & Hsc & _). rewrite Hsc.
    apply buffered_b_spec in Hb as (_ & _ & _ & Hid & _). exact Hid.
  - split; [exact Hsorted |]. split; [exact Hne |]. split; [exact Hnd |]. split.
    + intros k id Hin. apply Hheads. exact Hin.
    + intros id Hq. apply Hcover; [| exact Hq].
      unfold queue, slot_value in Hq.
      destruct (map_find id m) as [[| this] |] eqn:Hf; try contradiction.
      eapply Hdone. exact Hf.
  - intros id. unfold queue, waiting, slot_value.
    destruct (map_find id m) as [[| this] |] eqn:Hf; try reflexivity.
    destruct (Hvals id this Hf) as (v0 & v & Hv0 & Hv & _ & Hd & _).
    destruct (Hd (Hdone id this Hf)) as [_ Hu].
    rewrite Hv0, Hv. exact Hu.
Qed.

End FirstPass.

(** ** The peek *)

(** Called with [start = true], the callback of a value of any
    capacity returns no dumped sequence. *)
Lemma peek_never_dumped (v : vcd_value) : dumped (value_dump v true).1.2 = None.
Proof.
  unfold value_dump.
  repeat match goal with
         | |- context [if ?c then _ else _] => destruct c
         end; reflexivity.
Qed.

Lemma call_dumper_peek (fn : dumper_fn) (h h' : gmap nat vcd_value)
    (out : list vcd_line) (r : dump_sequence_t) :
  call_dumper fn true h = Some (out, r, h') -> dumped r = None.
Proof.
  destruct fn as [| this]; cbn [call_dumper].
  - intros [= _ <- _]. reflexivity.
  - destruct (h !! this) as [v |]; [| discriminate].
    pose proof (peek_never_dumped v) as Hv.
    destruct (value_dump v true) as [[out0 r0] v']. intros [= _ <- _]. exact Hv.
Qed.

(** The first pass sets no baseline. *)
Lemma first_pass_no_baseline (m : list (string * dumper_fn)) :
  forall (st st' : list (Z * list string)) (h h' : gmap nat vcd_value)
         (out : list vcd_line) (first : option Z),
    first_pass m st None h = Some (out, st', first, h') -> first = None.
Proof.
  induction m as [| [id fn] m IH]; intros st st' h h' out first; cbn [first_pass].
  - intros [= _ _ <- _]. reflexivity.
  - destruct (call_dumper fn true h) as [[[out1 r] h1] |] eqn:E; [| discriminate].
    rewrite (call_dumper_peek _ _ _ _ _ E).
    destruct (first_pass m _ None h1) as [[[[out2 st2] first2] h2] |] eqn:E2; [| discriminate].
    intros [= _ _ <- _]. eapply IH. exact E2.
Qed.

(** ** The lines of a flush *)

Lemma wrap64_shift_ne (ts a b : Z) :
  0 <= a < b -> b < 2 ^ 64 -> wrap64 (ts + a) <> wrap64 (ts + b).
Proof.
  intros Hab Hb. unfold wrap64. intros E.
  pose proof (Z.div_mod (ts + a) (2 ^ 64) ltac:(lia)) as Ha.
  pose proof (Z.div_mod (ts + b) (2 ^ 64) ltac:(lia)) as Hb'.
  rewrite E in Ha.
  assert (b - a = 2 ^ 64 * ((ts + b) / 2 ^ 64 - (ts + a) / 2 ^ 64)) as Hd by lia.
  set (q := (ts + b) / 2 ^ 64 - (ts + a) / 2 ^ 64) in *.
  assert (0 < 2 ^ 64) by lia.
  destruct (Z_lt_le_dec 0 q) as [Hq | Hq]; nia.
Qed.

Lemma wrap64_small (z : Z) : 0 <= z < 2 ^ 64 -> wrap64 z = z.
Proof. intros H. apply Z.mod_small. exact H. Qed.

Lemma bucket_ok_range (b : Z * list (string * sample)) :
  bucket_ok b -> 0 <= fst b < 2 ^ 64.
Proof.
  intros [Hne Hall]. destruct (snd b) as [| e es]; [contradiction |].
  apply Forall_inv in Hall as [<- Hr]. exact Hr.
Qed.

Lemma log_time_change (new_time tracepoint : Z) :
  new_time <> tracepoint -> log_time new_time false tracepoint = ([L_time new_time], new_time).
Proof.
  intros Hne. unfold log_time. destruct (Z.eqb_spec new_time tracepoint); [contradiction |].
  reflexivity.
Qed.

Lemma drain_lines_later (m : list (string * dumper_fn)) (h : gmap nat vcd_value)
    (ts s0 : Z) (rest : list (Z * list (string * sample))) :
  forall prev,
    0 <= s0 <= prev -> prev < 2 ^ 64 ->
    StronglySorted Z.lt (prev :: map fst rest) ->
    Forall bucket_ok rest ->
    drain_lines m h ts (Some s0) (wrap64 (ts + (prev - s0))) rest
    = (flat_map (fun b => L_time (wrap64 (ts + (fst b - s0))) :: bucket_lines m h (snd b)) rest,
       wrap64 (ts + (last_key prev rest - s0))).
Proof.
  induction rest as [| [s es] rest IH]; intros prev Hprev Hlt Hsorted Hok; [reflexivity |].
  cbn [map fst] in Hsorted.
  apply StronglySorted_inv in Hsorted as [Hsorted Hall].
  apply Forall_cons in Hall as [Hs _].
  apply Forall_cons in Hok as [Hb Hok].
  apply bucket_ok_range in Hb. cbn [fst] in Hb.
  cbn [drain_lines flat_map fst snd last_key].
  rewrite (wrap64_small (s - s0)) by lia.
  rewrite log_time_change by (apply not_eq_sym, wrap64_shift_ne; lia).
  rewrite (IH s) by (try assumption; lia).
  reflexivity.
Qed.

Lemma drain_lines_flush (m : list (string * dumper_fn)) (h : gmap nat vcd_value)
    (ts tp : Z) (buckets : list (Z * list (string * sample))) :
  0 <= ts < 2 ^ 64 ->
  StronglySorted Z.lt (map fst buckets) ->
  Forall bucket_ok buckets ->
  drain_lines m h ts None tp buckets
  = (flush_lines m h ts tp buckets, flush_tracepoint ts tp buckets).
Proof.
  intros Hts Hsorted Hok. destruct buckets as [| [s0 es0] rest]; [reflexivity |].
  pose proof Hok as Hok'. apply Forall_cons in Hok' as [Hb Hrest].
  apply bucket_ok_range in Hb. cbn [fst] in Hb.
  cbn [drain_lines flush_lines flush_tracepoint].
  rewrite Z.sub_diag, (wrap64_small 0), Z.add_0_r, (wrap64_small ts) by lia.
  assert (exists out1,
            log_time ts false tp = (out1, ts) /\
            out1 = if Z.eqb ts tp then [] else [L_time ts]) as (out1 & -> & ->).
  { unfold log_time. cbn [orb]. destruct (Z.eqb_spec ts tp) as [-> | _]; eexists; eauto. }
  pose proof (drain_lines_later m h ts s0 rest s0) as Hlater.
  rewrite Z.sub_diag, Z.add_0_r, (wrap64_small ts) in Hlater by lia.
  rewrite Hlater by (try assumption; lia).
  reflexivity.
Qed.

Lemma rounds_cover (m : list (string * dumper_fn)) (h : gmap nat vcd_value) :
  NoDup (map fst m) -> drain_inv m h -> (load m h < rounds m h)%nat.
Proof.
  intros Hnd Hinv. unfold load, rounds.
  apply Nat.lt_succ_r. apply list_sum_le. intros [id fn] Hin. cbn [fst snd].
  pose proof (elem_map_find m id fn Hnd Hin) as Hfind.
  unfold queue, slot_value, rounds_of. rewrite Hfind.
  destruct fn as [| this]; [cbn; lia |].
  destruct (Hinv id this Hfind) as (v & -> & _ & Hdr).
  destruct Hdr as (_ & _ & Hr & _). unfold unread.
  rewrite length_take. lia.
Qed.

(** [time_update_core] on a registry of buffered signals: the pending
    samples are written bucket by bucket in increasing sequence order;
    the timestamp stays, the tracepoint follows the buckets. *)
Lemma time_update_core_merges (w : world) :
  registered_b (dumper_map (_var_map (session w))) (heap w) = true ->
  0 <= _timestamp (session w) < 2 ^ 64 ->
  exists buckets h',
    merged (dumper_map (_var_map (session w))) (heap w) buckets /\
    heap_frame (heap w) h' /\
    time_update_core w
    = Some (flush_lines (dumper_map (_var_map (session w))) (heap w)
              (_timestamp (session w)) (_tracepoint (session w)) buckets,
            {| session :=
                 with_tracepoint
                   (flush_tracepoint (_timestamp (session w)) (_tracepoint (session w)) buckets)
                   (session w);
               heap := h' |}).
Proof.
  intros Hreg Hts.
  set (m := dumper_map (_var_map (session w))) in *.
  apply registered_b_spec in Hreg as [Hnd Hbuf].
  destruct (first_pass_ready m (heap w) Hnd Hbuf) as (st & h1 & Hfirst & Hinv & Hst & F1 & Hq).
  destruct (second_pass_merges m (_timestamp (session w)) (rounds m h1) st h1 None
              (_tracepoint (session w)) Hinv Hst (rounds_cover m h1 Hnd Hinv))
    as (buckets & h2 & Hsecond & Hsorted & _ & Hok & Hall & F2 & _ & _).
  exists buckets, h2. split; [| split].
  - split; [exact Hsorted |]. split.
    + eapply Forall_impl; [exact Hok |]. intros b [Hne Hes]. split; [exact Hne |].
      eapply Forall_impl; [exact Hes |]. cbn. intros e [He _]. exact He.
    + intros id. rewrite Hall, Hq. reflexivity.
  - eapply heap_frame_trans; eassumption.
  - unfold time_update_core. fold m. rewrite Hfirst, Hsecond.
    rewrite (drain_lines_frame m (heap w) h1 _ buckets F1).
    rewrite (drain_lines_flush m (heap w)) by assumption.
    reflexivity.
Qed.

(** ** Regression against the tests of the session *)

Example test_module_header :
  test_module
  = Some [L_text "$scope module root $end";
          L_text "$var real 32 root.ka ka $end";
          L_text "$scope module mod1 $end";
          L_text "$var real 64 root.mod1.ki ki $end";
          L_text "$scope module submod_a $end";
          L_text "$var wire 32 root.mod1.submod_a.ke ke $end";
          L_text "$upscope $end";
          L_text "$scope module submod_b $end";
          L_text "$upscope $end";
          L_text "$upscope $end";
          L_text "$scope module mod2 $end";
          L_text "$var wire 1 root.mod2.ku ku $end";
          L_text "$scope module submod_c $end";
          L_text "$var wire 16 root.mod2.submod_c.ko ko $end";
          L_text "$upscope $end";
          L_text "$upscope $end";
          L_text "$upscope $end"].
Proof. vm_compute. reflexivity. Qed.

Example test_top_header :
  test_top
  = Some [L_text "$date"; L_text "   Thu Jan  1 00:00:00 1970"; L_text "$end";
          L_text "$timescale"; L_text "   1ns"; L_text "$end";
          L_text "$version"; L_text "   C++ Simple VCD Logger"; L_text "$end";
          L_text "$scope module root $end";
          L_text "$scope module mod1 $end";
          L_text "$var wire 1 ! flag $end";
          L_text "$upscope $end";
          L_text "$upscope $end";
          L_text "$enddefinitions $end";
          L_time 0;
          L_text "x!"].
Proof. vm_compute. reflexivity. Qed.

Example test_top_trace_buf_data :
  snd <$> test_top_trace_buf
  = Some [L_text "b010001 !";
          L_time 1; L_text "b010010 !";
          L_time 2; L_text (String.append "b0100001 " (String (ascii_of_nat 34) ""));
          L_time 3; L_text (String.append "b0100010 " (String (ascii_of_nat 34) ""));
          L_time 4; L_text "b010011 !";
          L_time 5; L_text "b010100 !";
          L_time 6; L_text (String.append "b0100011 " (String (ascii_of_nat 34) ""));
          L_time 10].
Proof. vm_compute. reflexivity. Qed.

(** ** Time updates *)

Lemma log_time_final (new_time tracepoint : Z) :
  log_time new_time false tracepoint = (final_lines new_time tracepoint, new_time).
Proof.
  unfold log_time, final_lines. cbn [orb].
  destruct (Z.eqb_spec new_time tracepoint) as [-> | _]; reflexivity.
Qed.

(** C1, as amended. For a registry of buffered signals (capacity above
    1) none of which has overflowed and whose pending samples were
    recorded under a strictly increasing sequence counter, a time
    update first writes all pending samples, those of every signal in
    the order of its buffer, in buckets of strictly increasing
    sequence: the first bucket at the current timestamp (after a line
    [#timestamp] only if the tracepoint differs from it), every later
    bucket after a line [#((timestamp + (bucket_seq - baseline)) mod 2^64)],
    where the baseline is the sequence of the first bucket. These lines
    move the tracepoint, not the timestamp. Then the new time is
    written as [#<new time>], unless it equals the tracepoint the flush
    has reached or, for [time_update_abs], the time is not adopted. Two
    signals of capacity 10 after 6 interleaved calls of [set] under the
    sequences 42 to 47 and [time_update_abs(10ns)] give every signal's
    values in increasing sequence order, ending in [#10]. *)
Theorem merge_order (w : world) (t : Z) :
  registered_b (dumper_map (_var_map (session w))) (heap w) = true ->
  0 <= _timestamp (session w) < 2 ^ 64 ->
  (exists buckets w1 w2 w3,
     let m := dumper_map (_var_map (session w)) in
     let ts := _timestamp (session w) in
     let flush := flush_lines m (heap w) ts (_tracepoint (session w)) buckets in
     let tp1 := flush_tracepoint ts (_tracepoint (session w)) buckets in
     merged m (heap w) buckets /\
     time_update_core w = Some (flush, w1) /\
     _timestamp (session w1) = ts /\
     _tracepoint (session w1) = tp1 /\
     time_update_delta t w
     = Some (flush ++ final_lines (_timestamp (session w2)) tp1, w2) /\
     _timestamp (session w2) = Z.max tp1 (wrap64 (ts + to_u64 t)) /\
     time_update_abs t w
     = Some (flush ++ (if Z.leb ts (to_u64 t)
                       then final_lines (_timestamp (session w3)) tp1
                       else []), w3)) /\
  fst <$> time_update_abs 10 merge_world
  = Some [L_text "b010001 !";
          L_time 1; L_text "b010010 !";
          L_time 2; L_text (String.append "b0100001 " (String (ascii_of_nat 34) ""));
          L_time 3; L_text (String.append "b0100010 " (String (ascii_of_nat 34) ""));
          L_time 4; L_text "b010011 !";
          L_time 5; L_text "b010100 !";
          L_time 10].
Proof.
  intros Hreg Hts. split; [| vm_compute; reflexivity].
  destruct (time_update_core_merges w Hreg Hts) as (buckets & h' & Hmerged & _ & Hcore).
  set (tp1 := flush_tracepoint (_timestamp (session w)) (_tracepoint (session w)) buckets) in *.
  set (w1 := {| session := with_tracepoint tp1 (session w); heap := h' |}) in *.
  pose (ts2 := wrap64 (_timestamp (session w) + to_u64 t)).
  pose (ts3 := to_u64 (if Z.leb t (to_i64 tp1) then to_i64 tp1 else t)).
  exists buckets, w1,
    {| session := with_tracepoint (if Z.leb ts2 tp1 then tp1 else ts2)
                    (with_timestamp (if Z.leb ts2 tp1 then tp1 else ts2) (session w1));
       heap := h' |},
    (if Z.leb (_timestamp (session w)) (to_u64 t)
     then {| session := with_tracepoint ts3 (with_timestamp ts3 (session w1)); heap := h' |}
     else w1).
  cbn zeta. split; [exact Hmerged |]. split; [exact Hcore |].
  split; [reflexivity |]. split; [reflexivity |]. split; [| split].
  - unfold time_update_delta. rewrite Hcore. cbn [session heap w1 _timestamp _tracepoint with_tracepoint].
    fold ts2. rewrite log_time_final. reflexivity.
  - cbn [session _timestamp with_tracepoint with_timestamp]. fold ts2.
    destruct (Z.leb_spec ts2 tp1); lia.
  - unfold time_update_abs. rewrite Hcore. cbn [session heap w1 _timestamp _tracepoint with_tracepoint].
    destruct (Z.leb (_timestamp (session w)) (to_u64 t));
      [| rewrite app_nil_r; reflexivity].
    fold ts3. rewrite log_time_final. reflexivity.
Qed.

Lemma merge_order_witness :
  registered_b (dumper_map (_var_map (session merge_world))) (heap merge_world) = true /\
  0 <= _timestamp (session merge_world) < 2 ^ 64 /\
  exists buckets, merged (dumper_map (_var_map (session merge_world))) (heap merge_world) buckets.
Proof.
  assert (registered_b (dumper_map (_var_map (session merge_world))) (heap merge_world) = true)
    as Hreg by (vm_compute; reflexivity).
  assert (0 <= _timestamp (session merge_world) < 2 ^ 64) as Hts by (vm_compute; split; congruence).
  split; [exact Hreg |]. split; [exact Hts |].
  destruct (merge_order merge_world 10 Hreg Hts) as [(buckets & _ & _ & _ & Hmerged & _) _].
  exists buckets. exact Hmerged.
Defined.

(** The claim C1 as stated fails when the new time does not exceed the
    tracepoint the flush has reached: after the same 6 calls,
    [time_update_abs(3ns)] moves the clock to 5 and writes no time line
    after the last value. *)
Lemma merge_order_counterexample :
  fst <$> time_update_abs 3 merge_world
  = Some [L_text "b010001 !";
          L_time 1; L_text "b010010 !";
          L_time 2; L_text (String.append "b0100001 " (String (ascii_of_nat 34) ""));
          L_time 3; L_text (String.append "b0100010 " (String (ascii_of_nat 34) ""));
          L_time 4; L_text "b010011 !";
          L_time 5; L_text "b010100 !"] /\
  (_timestamp ∘ session ∘ snd) <$> time_update_abs 3 merge_world = Some 5 /\
  (fst <$> time_update_abs 3 merge_world) ≫= last <> Some (L_time 5).
Proof. vm_compute. repeat split; discriminate. Qed.

(** ** The clock *)

Lemma time_update_core_timestamp (w w1 : world) (out : list vcd_line) :
  time_update_core w = Some (out, w1) ->
  _timestamp (session w1) = _timestamp (session w).
Proof.
  unfold time_update_core.
  destruct (first_pass _ _ _ _) as [[[[out1 st] first] h1] |]; [| discriminate].
  destruct (second_pass _ _ _ _ _ _ _) as [[[out2 tp] h2] |]; [| discriminate].
  intros [= _ <-]. reflexivity.
Qed.

(** After [time_update_delta] the tracepoint is the timestamp. *)
Lemma time_update_delta_synchronised (delta : Z) (w w' : world) (out : list vcd_line) :
  time_update_delta delta w = Some (out, w') ->
  _tracepoint (session w') = _timestamp (session w').
Proof.
  unfold time_update_delta.
  destruct (time_update_core w) as [[out1 w1] |]; [| discriminate].
  rewrite log_time_final. intros [= _ <-]. reflexivity.
Qed.

(** So it is after a call of [time_update_abs] that adopts a time. *)
Lemma time_update_abs_synchronised (t : Z) (w w' : world) (out : list vcd_line) :
  time_update_abs t w = Some (out, w') ->
  _timestamp (session w) <= to_u64 t ->
  _tracepoint (session w') = _timestamp (session w').
Proof.
  unfold time_update_abs. intros H Ht.
  destruct (time_update_core w) as [[out1 w1] |] eqn:E; [| discriminate].
  rewrite (time_update_core_timestamp _ _ _ E) in H.
  destruct (Z.leb_spec (_timestamp (session w)) (to_u64 t)); [| lia].
  rewrite log_time_final in H. injection H as _ <-. reflexivity.
Qed.

Lemma to_u64_small (z : Z) : 0 <= z < 2 ^ 63 -> to_u64 z = z.
Proof. intros H. apply Z.mod_small. lia. Qed.

Lemma to_i64_small (z : Z) : 0 <= z < 2 ^ 63 -> to_i64 z = z.
Proof. intros H. unfold to_i64. rewrite Z.mod_small by lia. lia. Qed.

(** X1. [time_update_abs] on a time that is not negative: a time
    before the timestamp leaves the clock alone and writes no time
    line, a time from the timestamp to the tracepoint of the flush is
    clamped to that tracepoint, and a later time is adopted. *)
Lemma time_update_abs_clock (t : Z) (w w1 : world) (out1 : list vcd_line) :
  time_update_core w = Some (out1, w1) ->
  0 <= t < 2 ^ 63 ->
  0 <= _tracepoint (session w1) < 2 ^ 63 ->
  (t < _timestamp (session w) -> time_update_abs t w = Some (out1, w1)) /\
  (_timestamp (session w) <= t <= _tracepoint (session w1) ->
   exists w', time_update_abs t w = Some (out1, w') /\
              _timestamp (session w') = _tracepoint (session w1) /\
              _tracepoint (session w') = _tracepoint (session w1)) /\
  (_timestamp (session w) <= t -> _tracepoint (session w1) < t ->
   exists w', time_update_abs t w = Some (out1 ++ [L_time t], w') /\
              _timestamp (session w') = t /\ _tracepoint (session w') = t).
Proof.
  intros Hcore Ht Htp.
  pose proof (time_update_core_timestamp _ _ _ Hcore) as Hts.
  unfold time_update_abs. rewrite Hcore, Hts, (to_u64_small t Ht), (to_i64_small _ Htp).
  split; [| split].
  - intros Hlt. destruct (Z.leb_spec (_timestamp (session w)) t); [lia | reflexivity].
  - intros [Hge Hle].
    destruct (Z.leb_spec (_timestamp (session w)) t); [| lia].
    destruct (Z.leb_spec t (_tracepoint (session w1))); [| lia].
    rewrite (to_u64_small _ Htp), log_time_final.
    unfold final_lines. rewrite Z.eqb_refl, app_nil_r.
    eexists. split; [reflexivity |]. split; reflexivity.
  - intros Hge Hgt.
    destruct (Z.leb_spec (_timestamp (session w)) t); [| lia].
    destruct (Z.leb_spec t (_tracepoint (session w1))); [lia |].
    rewrite (to_u64_small t Ht), log_time_final.
    unfold final_lines. destruct (Z.eqb_spec t (_tracepoint (session w1))); [lia |].
    eexists. split; [reflexivity |]. split; reflexivity.
Qed.

(** ** Defects of the time updates *)

(** C2 fails on the code. After a flush has moved the tracepoint,
    [time_update_abs] with a time before the timestamp leaves the
    timestamp behind the tracepoint (10 against 11); the next flush
    writes its first bucket at the timestamp, after the line [#10]: the
    times of the trace are 0, 10, 11, 10, 20. *)
Theorem backwards_abs_rewinds :
  exists out w out' w',
    backwards_abs = Some (out, w) /\
    times out = [0; 10; 11] /\
    _timestamp (session w) = 10 /\ _tracepoint (session w) = 11 /\
    time_update_abs 20 (sets [(1%nat, 44, 3)] w) = Some (out', w') /\
    out' = [L_time 10; L_text "b011 !"; L_time 20] /\
    times (out ++ out') = [0; 10; 11; 10; 20] /\
    ~ Sorted Z.le (times (out ++ out')).
Proof.
  destruct backwards_abs as [[out w] |] eqn:E; [| vm_compute in E; discriminate].
  destruct (time_update_abs 20 (sets [(1%nat, 44, 3)] w)) as [[out' w'] |] eqn:E';
    [| vm_compute in E; injection E as <- <-; vm_compute in E'; discriminate].
  exists out, w, out', w'.
  vm_compute in E. injection E as <- <-.
  vm_compute in E'. injection E' as <- <-.
  repeat split.
  intros H. cbv [times flat_map app] in H.
  repeat match goal with
         | H : Sorted _ (_ :: _) |- _ => inversion H; clear H; subst
         | H : HdRel _ _ (_ :: _) |- _ => inversion H; clear H; subst
         end.
  lia.
Qed.

(** C6 fails on the code for a negative time: the comparison with the
    timestamp is made in [std::uint64_t], so the call is not taken as a
    step backwards, and the timestamp moves from 0 to the tracepoint 1
    of the flush. *)
Theorem negative_abs_moves_clock :
  _timestamp (session two_pending_world) = 0 /\
  -1 < _timestamp (session two_pending_world) /\
  fst <$> time_update_abs (-1) two_pending_world
  = Some [L_text "b01 !"; L_time 1; L_text "b010 !"] /\
  (_timestamp ∘ session ∘ snd) <$> time_update_abs (-1) two_pending_world = Some 1.
Proof. vm_compute. repeat split. Qed.

(** C10 fails on the code. The callback of a value of any capacity,
    called with [start = true], returns no dumped sequence, and the
    second pass takes the sequence of its first bucket as the baseline;
    but in a session whose timestamp 10 is behind its tracepoint 11, as
    a step backwards of [time_update_abs] leaves it, the flush writes
    the line [#10] before the values of its first bucket. *)
Theorem first_bucket_time_line :
  (forall v : vcd_value, dumped (value_dump v true).1.2 = None) /\
  _timestamp (session rewind_world) = 10 /\
  _tracepoint (session rewind_world) = 11 /\
  fst <$> time_update_core rewind_world = Some [L_time 10; L_text "b011 !"].
Proof.
  split.
  - intros v. unfold value_dump.
    repeat match goal with
           | |- context [if ?c then _ else _] => destruct c
           end; reflexivity.
  - vm_compute. repeat split.
Qed.

(** * Further properties *)

(** ** Identifier generator, continued *)

Lemma skip_S (n : nat) (g : identifier_generator) :
  skip (Datatypes.S n) g = snd (next (skip n g)).
Proof.
  revert g. induction n as [| n IH]; intros g; [reflexivity |].
  change (skip (Datatypes.S (Datatypes.S n)) g)
    with (skip (Datatypes.S n) (snd (next g))).
  rewrite IH. reflexivity.
Qed.

Lemma c_str_terminated (ds rest : list ascii) :
  Forall (fun c => in_alphabet c = true) ds ->
  c_str (ds ++ NUL :: rest) = string_of_list_ascii ds.
Proof.
  induction ds as [| c ds IH]; intros H; [reflexivity |].
  apply Forall_cons in H as [Hc Hds]. cbn [app c_str string_of_list_ascii].
  destruct (Ascii.eqb_spec c NUL) as [-> | _]; [discriminate |].
  rewrite IH by assumption. reflexivity.
Qed.

(** An identifier ends in a run of [z], after a symbol below [z] or
    from its start. *)
Lemma trailing_run (ds : list ascii) :
  exists k,
    ds = replicate k VCD_NAME_END \/
    exists pre c, c <> VCD_NAME_END /\ ds = pre ++ c :: replicate k VCD_NAME_END.
Proof.
  induction ds as [| x ds IH] using rev_ind; [exists 0%nat; left; reflexivity |].
  destruct (Ascii.eqb_spec x VCD_NAME_END) as [-> | Hx].
  - destruct IH as (k & [-> | (pre & c & Hc & ->)]); exists (Datatypes.S k).
    + left. rewrite replicate_S_end. reflexivity.
    + right. exists pre, c. split; [exact Hc |].
      rewrite replicate_S_end, <- app_assoc. reflexivity.
  - exists 0%nat. right. exists ds, x. auto.
Qed.

Lemma rank_from_app (acc : Z) (a b : list ascii) :
  rank_from acc (a ++ b) = rank_from (rank_from acc a) b.
Proof. apply fold_left_app. Qed.

Lemma ones_pow (k : nat) : 89 * ones k = 90 ^ Z.of_nat k - 1.
Proof.
  induction k as [| k IH]; [reflexivity |].
  cbn [ones]. rewrite Nat2Z.inj_succ, Z.pow_succ_r by lia. lia.
Qed.

Lemma rank_from_run_end (k : nat) (acc : Z) :
  rank_from acc (replicate k VCD_NAME_END) = acc * 90 ^ Z.of_nat k + 90 * ones k.
Proof.
  revert acc. induction k as [| k IH]; intros acc; [cbn; lia |].
  cbn [replicate]. change (rank_from acc (VCD_NAME_END :: replicate k VCD_NAME_END))
    with (rank_from (acc * 90 + 90) (replicate k VCD_NAME_END)).
  rewrite IH. rewrite Nat2Z.inj_succ, Z.pow_succ_r by lia.
  pose proof (ones_pow k). cbn [ones]. lia.
Qed.

Lemma rank_from_run_start (k : nat) (acc : Z) :
  rank_from acc (replicate k VCD_NAME_START) = acc * 90 ^ Z.of_nat k + ones k.
Proof.
  revert acc. induction k as [| k IH]; intros acc; [cbn; lia |].
  cbn [replicate]. change (rank_from acc (VCD_NAME_START :: replicate k VCD_NAME_START))
    with (rank_from (acc * 90 + 1) (replicate k VCD_NAME_START)).
  rewrite IH. rewrite Nat2Z.inj_succ, Z.pow_succ_r by lia.
  pose proof (ones_pow k). cbn [ones]. lia.
Qed.

Lemma in_alphabet_range (c : ascii) :
  in_alphabet c = true <-> (33 <= nat_of_ascii c <= 122)%nat.
Proof.
  unfold in_alphabet. rewrite andb_true_iff, !Nat.leb_le. reflexivity.
Qed.

Lemma char_succ_alphabet (c : ascii) :
  in_alphabet c = true -> c <> VCD_NAME_END ->
  in_alphabet (char_succ c) = true /\ digit (char_succ c) = digit c + 1.
Proof.
  intros Hc Hz. apply in_alphabet_range in Hc.
  assert (nat_of_ascii c <> 122)%nat as Hne.
  { intros E. apply Hz. rewrite <- (ascii_nat_embedding c), E. reflexivity. }
  unfold char_succ, digit. rewrite in_alphabet_range.
  rewrite nat_ascii_embedding by lia. lia.
Qed.

(** A call of [next] on a generator that holds the identifier [ds],
    terminated, and is not at the last identifier of 15 symbols: the
    next identifier, one above in rank. *)
Lemma next_rank (ds rest : list ascii) :
  ds <> [] ->
  Forall (fun c => in_alphabet c = true) ds ->
  length (ds ++ NUL :: rest) = 16%nat ->
  rank_from 0 ds < identifier_capacity ->
  exists ds' rest',
    next {| _identifier := ds ++ NUL :: rest; _size := length ds |}
    = (string_of_list_ascii ds',
       {| _identifier := ds' ++ NUL :: rest'; _size := length ds' |}) /\
    ds' <> [] /\
    Forall (fun c => in_alphabet c = true) ds' /\
    length (ds' ++ NUL :: rest') = 16%nat /\
    rank_from 0 ds' = rank_from 0 ds + 1.
Proof.
  intros Hne Halpha Hlen Hcap.
  destruct (trailing_run ds) as (k & [-> | (pre & c & Hc & ->)]).
  - (* every symbol is z: a new column *)
    rewrite length_replicate in *.
    rewrite length_app, length_replicate in Hlen. cbn [length] in Hlen.
    assert (k <> 15)%nat as Hk.
    { intros ->. rewrite rank_from_run_end in Hcap. unfold identifier_capacity in Hcap. lia. }
    destruct rest as [| b rest]; [cbn [length] in Hlen; lia |].
    assert (0 < k)%nat as Hpos by (destruct k; [contradiction | lia]).
    exists (replicate (Datatypes.S k) VCD_NAME_START), rest.
    rewrite (next_new_column k NUL b rest Hpos).
    rewrite c_str_terminated by (apply Forall_replicate; reflexivity).
    rewrite length_replicate.
    split; [reflexivity |]. split; [discriminate |].
    split; [apply Forall_replicate; reflexivity |].
    split.
    + rewrite length_app, length_replicate. cbn [length] in *. lia.
    + rewrite rank_from_run_end, rank_from_run_start. cbn [ones]. lia.
  - (* a symbol below z: increment and wrap *)
    apply Forall_app in Halpha as [Hpre Hrest].
    apply Forall_cons in Hrest as [Hcin _].
    destruct (char_succ_alphabet c Hcin Hc) as [Hsin Hsd].
    exists (pre ++ char_succ c :: replicate k VCD_NAME_START), rest.
    assert (length (pre ++ c :: replicate k VCD_NAME_END) = (length pre + 1 + k)%nat) as Hl.
    { rewrite length_app. cbn [length]. rewrite length_replicate. lia. }
    assert (length (pre ++ char_succ c :: replicate k VCD_NAME_START)
            = (length pre + 1 + k)%nat) as Hl'.
    { rewrite length_app. cbn [length]. rewrite length_replicate. lia. }
    rewrite Hl, Hl'.
    rewrite <- !app_assoc. cbn [app].
    rewrite (next_increment pre c k (NUL :: rest) Hc) by discriminate.
    assert (pre ++ char_succ c :: replicate k VCD_NAME_START ++ NUL :: rest
            = (pre ++ char_succ c :: replicate k VCD_NAME_START) ++ NUL :: rest) as E
        by (rewrite <- app_assoc; reflexivity).
    rewrite E, c_str_terminated.
    2:{ apply Forall_app. split; [exact Hpre |]. constructor; [exact Hsin |].
        apply Forall_replicate. reflexivity. }
    split; [reflexivity |].
    split; [destruct pre; discriminate |].
    split.
    { apply Forall_app. split; [exact Hpre |]. constructor; [exact Hsin |].
      apply Forall_replicate. reflexivity. }
    split.
    { rewrite length_app, Hl'. rewrite length_app, Hl in Hlen. cbn [length] in *. lia. }
    rewrite !rank_from_app.
    change (rank_from ?a (?x :: ?l)) with (rank_from (a * 90 + digit x) l).
    rewrite rank_from_run_end, rank_from_run_start, Hsd.
    pose proof (ones_pow k).
    replace ((rank_from 0 pre * 90 + (digit c + 1)) * 90 ^ Z.of_nat k)
      with ((rank_from 0 pre * 90 + digit c) * 90 ^ Z.of_nat k + 90 ^ Z.of_nat k) by ring.
    lia.
Qed.

(** The state of a fresh generator at call number [n]: the identifier
    returned has rank [n + 1]. *)
Lemma next_skip (n : nat) :
  Z.of_nat n < identifier_capacity ->
  exists ds rest,
    next (skip n identifier_generator_new)
    = (string_of_list_ascii ds,
       {| _identifier := ds ++ NUL :: rest; _size := length ds |}) /\
    ds <> [] /\
    Forall (fun c => in_alphabet c = true) ds /\
    length (ds ++ NUL :: rest) = 16%nat /\
    rank_from 0 ds = Z.of_nat n + 1.
Proof.
  induction n as [| n IH]; intros Hn.
  - exists [VCD_NAME_START], (replicate 14 NUL).
    split; [reflexivity |]. split; [discriminate |].
    split; [repeat constructor |]. split; reflexivity.
  - destruct IH as (ds & rest & Hnext & Hne & Halpha & Hlen & Hrank); [lia |].
    rewrite skip_S, Hnext. cbn [snd].
    destruct (next_rank ds rest Hne Halpha Hlen) as (ds' & rest' & H' & ? & ? & ? & Hr');
      [lia |].
    exists ds', rest'. repeat split; try assumption. lia.
Qed.

Lemma ones_nonneg (k : nat) : 0 <= ones k.
Proof. induction k as [| k IH]; cbn [ones]; lia. Qed.

(** The rank of an identifier of [k] symbols lies between those of
    [k] symbols [!] and of [k] symbols [z]. *)
Lemma rank_from_bounds (ds : list ascii) :
  Forall (fun c => in_alphabet c = true) ds ->
  forall acc, 0 <= acc ->
    acc * 90 ^ Z.of_nat (length ds) + ones (length ds) <= rank_from acc ds
    <= acc * 90 ^ Z.of_nat (length ds) + 90 * ones (length ds).
Proof.
  induction 1 as [| c ds Hc _ IH]; intros acc Hacc; [cbn; lia |].
  apply in_alphabet_range in Hc.
  change (rank_from acc (c :: ds)) with (rank_from (acc * 90 + digit c) ds).
  assert (1 <= digit c <= 90) as Hd by (unfold digit; lia).
  specialize (IH (acc * 90 + digit c) ltac:(lia)).
  cbn [length]. rewrite Nat2Z.inj_succ, Z.pow_succ_r by lia.
  pose proof (ones_pow (length ds)) as Hp.
  pose proof (ones_nonneg (length ds)) as Ho.
  cbn [ones].
  set (P := 90 ^ Z.of_nat (length ds)) in *.
  replace ((acc * 90 + digit c) * P) with (acc * (90 * P) + digit c * P) in IH by ring.
  assert (1 * P <= digit c * P <= 90 * P) by (split; apply Z.mul_le_mono_nonneg_r; lia).
  lia.
Qed.

(** X2. The identifier a fresh generator returns at call number [n],
    read as a numeral of base 90 without a zero digit ([!] is 1, [z] is
    90, the first symbol the most significant), is [n + 1]; this holds
    for all the identifiers of at most 15 symbols. *)
Theorem identifier_rank (n : nat) :
  Z.of_nat n < identifier_capacity ->
  rank (GenerateVcdKey n) = Z.of_nat n + 1.
Proof.
  intros Hn. destruct (next_skip n Hn) as (ds & rest & Hnext & _ & _ & _ & Hrank).
  unfold GenerateVcdKey, rank. rewrite Hnext. cbn [fst].
  rewrite list_ascii_of_string_of_list_ascii. exact Hrank.
Qed.

Lemma identifier_rank_witness :
  Z.of_nat 180 < identifier_capacity /\ rank (GenerateVcdKey 180) = 181.
Proof.
  split; [vm_compute; reflexivity |].
  apply (identifier_rank 180). vm_compute. reflexivity.
Defined.

(** X3. Two different calls of a fresh generator, both within the
    identifiers of at most 15 symbols, never return the same
    identifier. *)
Theorem identifier_distinct (n m : nat) :
  Z.of_nat n < identifier_capacity ->
  Z.of_nat m < identifier_capacity ->
  n <> m ->
  GenerateVcdKey n <> GenerateVcdKey m.
Proof.
  intros Hn Hm Hne E.
  destruct (next_skip n Hn) as (ds & rest & Hnext & _ & _ & _ & Hrank).
  destruct (next_skip m Hm) as (ds' & rest' & Hnext' & _ & _ & _ & Hrank').
  unfold GenerateVcdKey in E. rewrite Hnext, Hnext' in E. cbn [fst] in E.
  apply (f_equal list_ascii_of_string) in E.
  rewrite !list_ascii_of_string_of_list_ascii in E. subst ds'. lia.
Qed.

Lemma identifier_distinct_witness :
  GenerateVcdKey 0 <> GenerateVcdKey 90.
Proof.
  apply (identifier_distinct 0 90); [vm_compute; reflexivity | vm_compute; reflexivity | lia].
Defined.

(** X4. Every identifier of a fresh generator, up to the last one of
    15 symbols, is made of symbols from [!] to [z] only, and the
    identifiers of [k] symbols are those of the calls numbered from
    [90 + 90^2 + .. + 90^(k-1)] up to, not including,
    [90 + 90^2 + .. + 90^k]: 90 identifiers of one symbol, then 8100 of
    two, and so on. *)
Theorem identifier_alphabet (n : nat) :
  Z.of_nat n < identifier_capacity ->
  let id := GenerateVcdKey n in
  forallb in_alphabet (list_ascii_of_string id) = true /\
  (1 <= String.length id <= 15)%nat /\
  90 * ones (String.length id - 1) <= Z.of_nat n < 90 * ones (String.length id).
Proof.
  intros Hn id. subst id.
  destruct (next_skip n Hn) as (ds & rest & Hnext & Hne & Halpha & Hlen & Hrank).
  unfold GenerateVcdKey. rewrite Hnext. cbn [fst].
  rewrite list_ascii_of_string_of_list_ascii.
  assert (String.length (string_of_list_ascii ds) = length ds) as ->.
  { clear. induction ds as [| c ds IH]; [reflexivity |]. cbn. rewrite IH. reflexivity. }
  rewrite length_app in Hlen. cbn [length] in Hlen.
  assert (1 <= length ds)%nat as Hpos by (destruct ds; [contradiction | cbn; lia]).
  split; [| split; [lia |]].
  - apply forallb_forall. intros c Hc. rewrite Forall_forall in Halpha.
    apply Halpha. apply list_elem_of_In. exact Hc.
  - pose proof (rank_from_bounds ds Halpha 0 ltac:(lia)) as Hb.
    rewrite Hrank in Hb.
    destruct (length ds) as [| k]; [lia |].
    replace (Datatypes.S k - 1)%nat with k by lia.
    cbn [ones] in *. lia.
Qed.

Lemma identifier_alphabet_witness :
  forallb in_alphabet (list_ascii_of_string (GenerateVcdKey 90)) = true /\
  String.length (GenerateVcdKey 90) = 2%nat.
Proof.
  destruct (identifier_alphabet 90 ltac:(vm_compute; reflexivity)) as (Ha & _ & _).
  split; [exact Ha | vm_compute; reflexivity].
Defined.

(** ** Value encoder, continued *)

Lemma bits_text_inj (l1 l2 : list bool) (s1 s2 : string) :
  bits_text l1 +:+ " " +:+ s1 = bits_text l2 +:+ " " +:+ s2 -> l1 = l2.
Proof.
  revert l2. induction l1 as [| b1 l1 IH]; intros [| b2 l2] H.
  - reflexivity.
  - destruct b2; discriminate.
  - destruct b1; discriminate.
  - destruct b1, b2; cbn in H; try discriminate;
      injection H as H; f_equal; apply IH; exact H.
Qed.

Lemma length_msb_first (n : nat) (v : Z) : length (msb_first n v) = n.
Proof. induction n as [| n IH]; cbn; [| rewrite IH]; reflexivity. Qed.

(** The dropped run is a run of the leading bit. *)
Lemma drop_run_run (b : bool) (l : list bool) :
  l = replicate (length l - length (drop_run b l)) b ++ drop_run b l.
Proof.
  induction l as [| c l IH]; [reflexivity |].
  cbn [drop_run]. destruct (Bool.eqb c b) eqn:E.
  - apply eqb_prop in E. subst c.
    assert (length (drop_run b l) <= length l)%nat as Hle.
    { clear. induction l as [| c l IH]; cbn; [lia |]. destruct (Bool.eqb c b); cbn; lia. }
    cbn [length].
    replace (Datatypes.S (length l) - length (drop_run b l))%nat
      with (Datatypes.S (length l - length (drop_run b l))) by lia.
    cbn [replicate app]. f_equal. exact IH.
  - rewrite Nat.sub_diag. reflexivity.
Qed.

Lemma compact_inj (l1 l2 : list bool) :
  length l1 = length l2 -> compact l1 = compact l2 -> l1 = l2.
Proof.
  destruct l1 as [| b1 l1], l2 as [| b2 l2]; try discriminate; [reflexivity |].
  cbn [compact length]. intros Hlen [= <- Hd].
  f_equal. rewrite (drop_run_run b1 l1), (drop_run_run b1 l2), Hd.
  f_equal. f_equal. lia.
Qed.

Lemma msb_first_testbit (n : nat) (v1 v2 : Z) :
  msb_first n v1 = msb_first n v2 ->
  forall i, 0 <= i < Z.of_nat n -> Z.testbit v1 i = Z.testbit v2 i.
Proof.
  induction n as [| n IH]; intros H i Hi; [lia |].
  cbn [msb_first] in H. injection H as Hb Hrest.
  destruct (Z.eq_dec i (Z.of_nat n)) as [-> | Hne]; [exact Hb |].
  apply IH; [exact Hrest | lia].
Qed.

(** X5. The vector format loses nothing of the traced bits: for a
    signal of an integer type whose bit width is within the width of
    the type, and below it when the type is signed, two known values
    that are written as the same line agree on their [bit_size] low
    bits. *)
Theorem vector_encoding_injective (bits : Z) (sgn : bool) (id : string) (bw : nat)
    (v1 v2 : Z) :
  (0 < bw)%nat -> Z.of_nat bw <= bits -> (sgn = false \/ Z.of_nat bw < bits) ->
  value_base_dump (T_integer bits sgn) id bw known v1
  = value_base_dump (T_integer bits sgn) id bw known v2 ->
  v1 mod 2 ^ Z.of_nat bw = v2 mod 2 ^ Z.of_nat bw.
Proof.
  intros Hbw Hle Hs H.
  rewrite !value_base_dump_known in H by assumption.
  injection H as H. apply bits_text_inj in H.
  apply compact_inj in H; [| rewrite !length_msb_first; reflexivity].
  pose proof (msb_first_testbit bw v1 v2 H) as Hbits.
  apply Z.bits_inj'. intros i Hi.
  destruct (Z_lt_le_dec i (Z.of_nat bw)) as [Hlt | Hge].
  - rewrite !Z.mod_pow2_bits_low by lia. apply Hbits. lia.
  - rewrite !Z.mod_pow2_bits_high by lia. reflexivity.
Qed.

Lemma vector_encoding_injective_witness :
  0x1DEAD mod 2 ^ 17 = 0x3DEAD mod 2 ^ 17.
Proof.
  apply (vector_encoding_injective 32 false "!" 17 0x1DEAD 0x3DEAD);
    [lia | lia | left; reflexivity | reflexivity].
Defined.

Lemma dump_bits_negative (n : nat) (v : Z) :
  v < 0 -> dump_bits n v (- 2 ^ Z.of_nat n) true true = "1"%string.
Proof.
  intros Hv. induction n as [| n IH]; [reflexivity |].
  cbn [dump_bits].
  assert (Z.shiftr (- 2 ^ Z.of_nat (Datatypes.S n)) 1 = - 2 ^ Z.of_nat n) as ->.
  { rewrite Z.shiftr_div_pow2 by lia.
    rewrite Nat2Z.inj_succ, Z.pow_succ_r, Z.pow_1_r by lia.
    replace (- (2 * 2 ^ Z.of_nat n)) with ((- 2 ^ Z.of_nat n) * 2) by lia.
    apply Z.div_mul. lia. }
  assert (Z.land v (- 2 ^ Z.of_nat n) < 0) as Hneg.
  { apply Z.land_neg. split; [exact Hv |].
    assert (0 < 2 ^ Z.of_nat n) by (apply Z.pow_pos_nonneg; lia). lia. }
  destruct (Z.eqb_spec (Z.land v (- 2 ^ Z.of_nat n)) 0) as [E | _]; [lia |].
  cbn [negb Bool.eqb andb]. exact IH.
Qed.

(** X6. A signal of a signed integer type traced at the full width of
    the type (the default of [value<int>]) writes every negative value
    as [b1 <id>]: the mask starts at the sign bit, [mask >> 1] keeps
    that bit, and every test finds it set in the value. *)
Theorem signed_full_width_negative (bits : nat) (id : string) (v : Z) :
  (0 < bits)%nat -> v < 0 ->
  value_base_dump (T_integer (Z.of_nat bits) true) id bits known v
  = [L_text ("b1 " +:+ id)].
Proof.
  intros Hb Hv. unfold value_base_dump.
  assert (int_cast (T_integer (Z.of_nat bits) true) (Z.shiftl 1 (Z.of_nat bits - 1))
          = - 2 ^ Z.of_nat (bits - 1)) as ->.
  { unfold int_cast. rewrite Z.shiftl_1_l.
    replace (Z.of_nat (bits - 1)) with (Z.of_nat bits - 1) by lia.
    assert (2 ^ Z.of_nat bits = 2 * 2 ^ (Z.of_nat bits - 1)) as E.
    { rewrite <- Z.pow_succ_r by lia. f_equal. lia. }
    replace (2 ^ (Z.of_nat bits - 1) + 2 ^ (Z.of_nat bits - 1))
      with (2 ^ Z.of_nat bits) by lia.
    rewrite Z.mod_same by (apply Z.pow_nonzero; lia). lia. }
  assert (Z.land v (- 2 ^ Z.of_nat (bits - 1)) < 0) as Hneg.
  { apply Z.land_neg. split; [exact Hv |].
    assert (0 < 2 ^ Z.of_nat (bits - 1)) by (apply Z.pow_pos_nonneg; lia). lia. }
  destruct (Z.eqb_spec (Z.land v (- 2 ^ Z.of_nat (bits - 1))) 0) as [E | _]; [lia |].
  cbn [negb]. rewrite (dump_bits_negative (bits - 1) v Hv). reflexivity.
Qed.

Lemma signed_full_width_negative_witness :
  value_base_dump (T_integer 32 true) "!" 32 known (-2) = [L_text "b1 !"] /\
  value_base_dump (T_integer 32 true) "!" 32 known (-1000) = [L_text "b1 !"].
Proof.
  split.
  - apply (signed_full_width_negative 32 "!" (-2)); lia.
  - apply (signed_full_width_negative 32 "!" (-1000)); lia.
Defined.

(** ** Unbuffered values *)

Lemma value_state_eqb_eq (a b : value_state) : value_state_eqb a b = true <-> a = b.
Proof. destruct a, b; cbn; split; intros; congruence. Qed.

Lemma sample_at_update (f : sample -> sample) (w : Z) (v : vcd_value) :
  TRACE_DEPTH v = 1 -> (0 < length (_samples v))%nat ->
  sample_at (with_write w (update_sample f 0 v)) 0 = f (sample_at v 0).
Proof.
  intros HD Hlen. unfold sample_at, update_sample, slot.
  cbn [_samples with_samples with_write TRACE_DEPTH]. rewrite HD.
  change (Z.to_nat (Z.rem 0 1)) with 0%nat.
  rewrite list_lookup_insert_eq by exact Hlen. reflexivity.
Qed.

(** X7. An unbuffered value ([TRACE_DEPTH] 1) after a call of [set]
    that changes it (another value, or a state that was not known): the
    next call of [dump], whatever its flag, writes the line of the new
    value once, and the call after it writes nothing. *)
Theorem unbuffered_set_dump (cur_seq x : Z) (v : vcd_value) (start start' : bool) :
  TRACE_DEPTH v = 1 -> (0 < length (_samples v))%nat ->
  sample_changed x (value (sample_at v 0)) = true \/ state (sample_at v 0) <> known ->
  exists v',
    value_dump (set cur_seq x v) start
    = (value_base_dump (T v) (identifier (_scope v)) (BIT_SIZE v) known x,
       end_sequence, v') /\
    value_dump v' start' = ([], end_sequence, v').
Proof.
  intros HD Hlen Hch. unfold set. rewrite HD. cbn [Z.eqb Pos.eqb].
  assert (sample_changed x (value (sample_at v 0))
          || negb (value_state_eqb (state (sample_at v 0)) known) = true) as ->.
  { destruct Hch as [-> | Hs]; [reflexivity |].
    apply orb_true_iff. right. apply negb_true_iff.
    destruct (value_state_eqb _ _) eqn:E; [| reflexivity].
    apply value_state_eqb_eq in E. contradiction. }
  eexists. split.
  - unfold value_dump. cbn [TRACE_DEPTH with_write update_sample with_samples _idx_write].
    rewrite HD. cbn [Z.eqb Pos.eqb negb].
    unfold dump_sample. rewrite (sample_at_update _ 1 v HD Hlen). reflexivity.
  - unfold value_dump. cbn [TRACE_DEPTH with_write update_sample with_samples _idx_write].
    rewrite HD. reflexivity.
Qed.

Lemma unbuffered_set_dump_witness :
  (value_dump (set 0 1 (value_new T_bool 1 1 0 0 (Some 0))) true).1.1 = [L_text "1"].
Proof.
  destruct (unbuffered_set_dump 0 1 (value_new T_bool 1 1 0 0 (Some 0)) true true)
    as (v' & -> & _); [reflexivity | vm_compute; constructor | left; reflexivity |].
  reflexivity.
Defined.



(** X9. An unbuffered value as its constructor leaves it: the first
    [dump] writes the initial state, [x] after [value(void)] and the
    default value after [value(default_value)]. *)
Theorem unbuffered_initial_dump (T : elem_type) (B : nat) (cur_seq garbage : Z)
    (d : option Z) (ctx : value_context) (start : bool) :
  (value_dump (with_scope ctx (value_new T B 1 cur_seq garbage d)) start).1.1
  = match d with
    | Some x => value_base_dump T (identifier ctx) B known x
    | None => value_base_dump T (identifier ctx) B unknown_x garbage
    end.
Proof. destruct d; reflexivity. Qed.

(** ** Buffered values, continued *)

Lemma dump_run_idle (starts : list bool) (v : vcd_value) :
  TRACE_DEPTH v <> 1 -> _idx_write v = -1 -> 0 <= _idx_read v ->
  (dump_run starts v).1 = [].
Proof.
  revert v. induction starts as [| b bs IH]; intros v HD Hw Hr; [reflexivity |].
  cbn [dump_run]. unfold value_dump.
  destruct (Z.eqb_spec (TRACE_DEPTH v) 1) as [? | _]; [contradiction |].
  assert (Z.ltb (_idx_write (if b then with_read 0 v else v))
                (_idx_read (if b then with_read 0 v else v)) = true) as ->.
  { apply Z.ltb_lt. destruct b; cbn; lia. }
  specialize (IH (with_write (-1) (if b then with_read 0 v else v))).
  destruct (dump_run bs _) as [out' v2].
  cbn [fst app] in *. apply IH; destruct b; cbn; try assumption; lia.
Qed.

(** X10. A buffered value ([TRACE_DEPTH] above 1) as its constructor
    leaves it has nothing pending: however it is dumped, nothing is
    written, so the initial state or default of a buffered value never
    reaches the trace. *)
Theorem buffered_initial_silent (T : elem_type) (B : nat) (D cur_seq garbage : Z)
    (d : option Z) (ctx : value_context) (starts : list bool) :
  1 < D ->
  (dump_run starts (with_scope ctx (value_new T B D cur_seq garbage d))).1 = [].
Proof.
  intros HD. apply dump_run_idle; destruct d; cbn; lia.
Qed.

Lemma buffered_initial_silent_witness :
  (dump_run [true; false; false] (with_scope {| identifier := "!"; updater := nop_update |}
                                    (value_new T_int 9 4 42 0 (Some 5)))).1 = [].
Proof. apply buffered_initial_silent. lia. Defined.

(** One flush of a buffered value with nothing pending, after a call
    of [set]: the peek and the read write the value and leave nothing
    pending. *)
Lemma set_flush_idle (c x : Z) (v : vcd_value) :
  1 < TRACE_DEPTH v -> length (_samples v) = Z.to_nat (TRACE_DEPTH v) ->
  _idx_write v = -1 ->
  exists v1,
    dump_run [true; false] (set c x v)
    = (value_base_dump (T v) (identifier (_scope v)) (BIT_SIZE v) known x, v1) /\
    T v1 = T v /\ BIT_SIZE v1 = BIT_SIZE v /\ TRACE_DEPTH v1 = TRACE_DEPTH v /\
    _scope v1 = _scope v /\ length (_samples v1) = length (_samples v) /\
    _idx_write v1 = -1.
Proof.
  intros HD Hlen Hw. unfold set.
  destruct (Z.eqb_spec (TRACE_DEPTH v) 1) as [? | Hne]; [lia |].
  rewrite Hw. change (Z.eqb (-1) (-1)) with true. cbn [orb]. change (-1 + 1) with 0.
  destruct (Z.ltb_spec 0 (TRACE_DEPTH v)) as [_ | ?]; [| lia].
  set (vs := update_sample (sample_set c x) 0 (with_write 0 v)).
  assert (TRACE_DEPTH vs = TRACE_DEPTH v) as HDs by reflexivity.
  assert (sample_at vs 0 = sample_set c x (sample_at v 0)) as Hs.
  { unfold vs, sample_at, update_sample, slot.
    cbn [_samples with_samples with_write TRACE_DEPTH].
    rewrite Z.rem_0_l by lia. cbn [Z.to_nat].
    rewrite list_lookup_insert_eq by lia. reflexivity. }
  cbn [dump_run]. unfold value_dump. rewrite HDs.
  destruct (Z.eqb_spec (TRACE_DEPTH v) 1) as [? | _]; [lia |].
  cbn [_idx_write _idx_read with_read with_write vs update_sample with_samples Z.ltb Z.compare].
  fold vs.
  change (dump_sample (with_read 0 vs) 0) with (dump_sample vs 0).
  replace (dump_sample vs 0)
    with (value_base_dump (T v) (identifier (_scope v)) (BIT_SIZE v) known x)
    by (unfold dump_sample; rewrite Hs; reflexivity).
  cbn [Z.add Z.ltb Z.compare Pos.compare Pos.compare_cont fst snd app].
  change (TRACE_DEPTH (with_read 0 vs)) with (TRACE_DEPTH v).
  destruct (Z.eqb_spec (TRACE_DEPTH v) 1) as [? | _]; [lia |].
  change (0 <? 0 + 1) with true. cbn iota.
  eexists. split; [rewrite app_nil_r; reflexivity |].
  repeat split. unfold vs. cbn. apply length_insert.
Qed.

(** X11. A buffered value with nothing pending records the next [set]
    whatever the value, and the peek and read of a flush write it and
    leave nothing pending again: a value set once before each of two
    flushes is written by both, also when it has not changed. *)
Theorem buffered_set_after_flush (c c' x : Z) (v : vcd_value) :
  1 < TRACE_DEPTH v -> length (_samples v) = Z.to_nat (TRACE_DEPTH v) ->
  _idx_write v = -1 ->
  let line := value_base_dump (T v) (identifier (_scope v)) (BIT_SIZE v) known x in
  let flush := dump_run [true; false] in
  (flush (set c x v)).1 = line /\
  _idx_write (flush (set c x v)).2 = -1 /\
  (flush (set c' x (flush (set c x v)).2)).1 = line.
Proof.
  intros HD Hlen Hw line flush. subst line flush.
  destruct (set_flush_idle c x v HD Hlen Hw) as (v1 & -> & HT & HB & HD1 & Hsc & Hl1 & Hw1).
  cbn [fst snd]. split; [reflexivity |]. split; [exact Hw1 |].
  destruct (set_flush_idle c' x v1) as (v2 & -> & _); [lia | lia | exact Hw1 |].
  cbn [fst]. rewrite HT, HB, Hsc. reflexivity.
Qed.

Lemma buffered_set_after_flush_witness :
  let v := with_scope {| identifier := "!"; updater := nop_update |}
             (value_new T_int 9 4 42 0 None) in
  (dump_run [true; false] (set 43 5 (dump_run [true; false] (set 42 5 v)).2)).1
  = [L_text "b0101 !"].
Proof.
  intros v.
  apply (buffered_set_after_flush 42 43 5 v); [reflexivity | reflexivity | reflexivity].
Defined.

(** ** After a flush *)

Lemma unread_nonempty (v : vcd_value) :
  length (_samples v) = Z.to_nat (TRACE_DEPTH v) ->
  0 <= _idx_read v <= _idx_write v -> _idx_write v < TRACE_DEPTH v ->
  unread v <> [].
Proof.
  intros Hlen Hr Hw. unfold unread.
  destruct (_samples v !! Z.to_nat (_idx_read v)) as [s |] eqn:E.
  - rewrite (drop_S _ s _ E).
    replace (Z.to_nat (_idx_write v + 1 - _idx_read v))
      with (Datatypes.S (Z.to_nat (_idx_write v - _idx_read v))) by lia.
    discriminate.
  - apply lookup_ge_None in E. lia.
Qed.

(** The peek settles a buffered value. *)
Lemma value_dump_peek_settles (v : vcd_value) :
  shaped v -> settled (value_dump v true).2.
Proof.
  intros (HD & Hlen & Hw). unfold value_dump.
  destruct (Z.eqb_spec (TRACE_DEPTH v) 1) as [? | _]; [lia |].
  cbn [_idx_write _idx_read with_read].
  destruct (Z.ltb_spec (_idx_write v) 0) as [Hneg | Hpos]; cbn [snd].
  - repeat split; cbn; try assumption; try lia; intros _; reflexivity.
  - repeat split; cbn; try assumption; try lia.
    intros Hu. exfalso. revert Hu. apply unread_nonempty; cbn; lia.
Qed.

(** So does a read, of a value that has been settled. *)
Lemma value_dump_read_settles (v : vcd_value) :
  settled v -> settled (value_dump v false).2.
Proof.
  intros ((HD & Hlen & Hw) & Hr & Hs). unfold value_dump.
  destruct (Z.eqb_spec (TRACE_DEPTH v) 1) as [? | _]; [lia |].
  destruct (Z.ltb_spec (_idx_write v) (_idx_read v)) as [Hdone | Hmore]; cbn [snd].
  - repeat split; cbn; try assumption; try lia; intros _; reflexivity.
  - cbn [_idx_write _idx_read with_read].
    destruct (Z.ltb_spec (_idx_write v) (_idx_read v + 1)) as [Hlast | Hnext]; cbn [snd].
    + repeat split; cbn; try assumption; try lia; intros _; reflexivity.
    + repeat split; cbn; try assumption; try lia.
      intros Hu. exfalso. revert Hu. apply unread_nonempty; cbn; lia.
Qed.

Lemma settled_shaped (v : vcd_value) : settled v -> shaped v.
Proof. intros [H _]. exact H. Qed.

Lemma value_dump_shaped (v : vcd_value) (b : bool) :
  shaped v -> shaped (value_dump v b).2.
Proof.
  intros (HD & Hlen & Hw). unfold value_dump.
  destruct (Z.eqb_spec (TRACE_DEPTH v) 1) as [? | _]; [lia |].
  repeat match goal with
         | |- context [if ?c then _ else _] => destruct c
         end; unfold shaped;
    cbn [TRACE_DEPTH _samples _idx_write _idx_read with_read with_write snd];
    repeat split; try assumption; lia.
Qed.

Section Registry.

Variable m : list (string * dumper_fn).

(** A call of a callback of the registry keeps what its [dump] keeps. *)
Lemma call_dumper_all (R : vcd_value -> Prop) (b : bool) (fn : dumper_fn)
    (h h' : gmap nat vcd_value) (out : list vcd_line) (r : dump_sequence_t) :
  (forall v, R v -> R (value_dump v b).2) ->
  registry_all R m h ->
  call_dumper fn b h = Some (out, r, h') ->
  registry_all R m h'.
Proof.
  intros HR Hall. destruct fn as [| this0]; cbn [call_dumper].
  - intros [= _ _ <-]. exact Hall.
  - destruct (h !! this0) as [v0 |] eqn:E0; [| discriminate].
    pose proof (HR v0) as HR0.
    destruct (value_dump v0 b) as [[out0 r0] v0']. cbn [snd] in HR0.
    intros [= _ _ <-]. intros id this Hf.
    destruct (Hall id this Hf) as (v & Hv & HRv).
    destruct (decide (this = this0)) as [-> | Hne].
    + rewrite lookup_insert_eq. exists v0'. split; [reflexivity |].
      apply HR0. rewrite E0 in Hv. injection Hv as ->. exact HRv.
    + rewrite lookup_insert_ne by congruence. exists v. auto.
Qed.

(** A peek through the registry settles the value it calls. *)
Lemma call_dumper_peek_settles (id : string) (this : nat) (h h' : gmap nat vcd_value)
    (out : list vcd_line) (r : dump_sequence_t) :
  registry_all shaped m h ->
  map_find id m = Some (value_dumper this) ->
  call_dumper (value_dumper this) true h = Some (out, r, h') ->
  exists v, h' !! this = Some v /\ settled v.
Proof.
  intros Hall Hf. destruct (Hall id this Hf) as (v & Hv & Hs).
  cbn [call_dumper]. rewrite Hv.
  pose proof (value_dump_peek_settles v Hs) as H.
  destruct (value_dump v true) as [[out0 r0] v']. cbn [snd] in H.
  intros [= _ _ <-]. rewrite lookup_insert_eq. exists v'. auto.
Qed.

(** A call through the registry keeps the values that are settled. *)
Lemma call_dumper_keeps_settled (b : bool) (fn : dumper_fn) (this : nat)
    (h h' : gmap nat vcd_value) (out : list vcd_line) (r : dump_sequence_t) (v : vcd_value) :
  call_dumper fn b h = Some (out, r, h') ->
  h !! this = Some v -> settled v ->
  exists v', h' !! this = Some v' /\ settled v'.
Proof.
  destruct fn as [| this0]; cbn [call_dumper].
  - intros [= _ _ <-] Hv Hs. exists v. auto.
  - destruct (h !! this0) as [v0 |] eqn:E0; [| discriminate].
    destruct (value_dump v0 b) as [[out0 r0] v0'] eqn:Ed.
    intros [= _ _ <-] Hv Hs.
    destruct (decide (this = this0)) as [-> | Hne].
    + rewrite lookup_insert_eq. exists v0'. split; [reflexivity |].
      rewrite E0 in Hv. injection Hv as ->.
      replace v0' with (value_dump v b).2 by (rewrite Ed; reflexivity).
      destruct b; [apply value_dump_peek_settles, settled_shaped; exact Hs
                  | apply value_dump_read_settles; exact Hs].
    + rewrite lookup_insert_ne by congruence. exists v. auto.
Qed.

(** The first pass settles the values of the callbacks it calls. *)
Lemma first_pass_settles (m' : list (string * dumper_fn)) :
  forall (st st' : list (Z * list string)) (first first' : option Z)
         (h h' : gmap nat vcd_value) (out : list vcd_line),
    first_pass m' st first h = Some (out, st', first', h') ->
    (forall e, e ∈ m' -> map_find (fst e) m = Some (snd e)) ->
    registry_all shaped m h ->
    registry_all shaped m h' /\
    forall this,
      (exists v, h !! this = Some v /\ settled v) \/
      (exists id, (id, value_dumper this) ∈ m') ->
      exists v, h' !! this = Some v /\ settled v.
Proof.
  induction m' as [| [id fn] m' IH]; intros st st' first first' h h' out; cbn [first_pass].
  - intros [= _ _ _ <-] _ Hall. split; [exact Hall |].
    intros this [H | (id & Hin)]; [exact H |].
    apply elem_of_nil in Hin. contradiction.
  - destruct (call_dumper fn true h) as [[[out1 r] h1] |] eqn:Ecall; [| discriminate].
    destruct (first_pass m' _ _ h1) as [[[[out2 st2] first2] h2] |] eqn:Erest; [| discriminate].
    intros [= _ _ _ <-] Hsub Hall.
    assert (registry_all shaped m h1) as Hall1.
    { eapply call_dumper_all; [| exact Hall | exact Ecall].
      intros v. apply value_dump_shaped. }
    destruct (IH _ _ _ _ _ _ _ Erest) as [Hall2 Hset]; [| exact Hall1 |].
    { intros e He. apply Hsub. right. exact He. }
    split; [exact Hall2 |].
    intros this H. apply Hset.
    destruct H as [(v & Hv & Hs) | (id' & Hin)].
    + left. eapply call_dumper_keeps_settled; eassumption.
    + apply elem_of_cons in Hin as [[= -> <-] | Hin]; [| right; eauto].
      left. eapply call_dumper_peek_settles; [exact Hall | | exact Ecall].
      apply (Hsub (id, value_dumper this)). left.
Qed.

Lemma dump_bucket_settled (ids : list string) :
  forall (st st' : list (Z * list string)) (h h' : gmap nat vcd_value) (out : list vcd_line),
    dump_bucket m ids st h = Some (out, st', h') ->
    registry_all settled m h -> registry_all settled m h'.
Proof.
  induction ids as [| id ids IH]; intros st st' h h' out; cbn [dump_bucket].
  - intros [= _ _ <-] H. exact H.
  - destruct (map_find id m) as [fn |]; [| discriminate].
    destruct (call_dumper fn false h) as [[[out1 r] h1] |] eqn:Ecall; [| discriminate].
    destruct (dump_bucket m ids _ h1) as [[[out2 st2] h2] |] eqn:Erest; [| discriminate].
    intros [= _ _ <-] Hall. eapply IH; [exact Erest |].
    eapply call_dumper_all; [| exact Hall | exact Ecall].
    intros v. apply value_dump_read_settles.
Qed.

Lemma second_pass_settled (ts : Z) (fuel : nat) :
  forall (st : list (Z * list string)) (first : option Z) (tp tp' : Z)
         (h h' : gmap nat vcd_value) (out : list vcd_line),
    second_pass fuel m ts st first tp h = Some (out, tp', h') ->
    registry_all settled m h -> registry_all settled m h'.
Proof.
  induction fuel as [| fuel IH]; intros st first tp tp' h h' out; cbn [second_pass].
  - destruct st as [| [s ids] st]; [| discriminate]. intros [= _ _ <-] H. exact H.
  - destruct st as [| [s ids] st]; [intros [= _ _ <-] H; exact H |].
    destruct (log_time _ false tp) as [out1 tp1].
    destruct (dump_bucket m ids _ h) as [[[out2 st2] h2] |] eqn:Eb; [| discriminate].
    destruct (second_pass fuel m ts _ _ tp1 h2) as [[[out3 tp3] h3] |] eqn:Er; [| discriminate].
    intros [= _ _ <-] Hall. eapply IH; [exact Er |].
    eapply dump_bucket_settled; eassumption.
Qed.

End Registry.

Lemma pending_idle (v : vcd_value) : _idx_write v = -1 -> pending v = [].
Proof. intros H. unfold pending. rewrite H. reflexivity. Qed.

(** [time_update_core] on a registry of buffered signals leaves such a
    registry, with nothing pending. *)
Lemma time_update_core_drains (w : world) :
  registered_b (dumper_map (_var_map (session w))) (heap w) = true ->
  0 <= _timestamp (session w) < 2 ^ 64 ->
  exists buckets h',
    merged (dumper_map (_var_map (session w))) (heap w) buckets /\
    time_update_core w
    = Some (flush_lines (dumper_map (_var_map (session w))) (heap w)
              (_timestamp (session w)) (_tracepoint (session w)) buckets,
            {| session :=
                 with_tracepoint
                   (flush_tracepoint (_timestamp (session w)) (_tracepoint (session w)) buckets)
                   (session w);
               heap := h' |}) /\
    registered_b (dumper_map (_var_map (session w))) h' = true /\
    forall id, waiting (dumper_map (_var_map (session w))) h' id = [].
Proof.
  intros Hreg Hts.
  set (m := dumper_map (_var_map (session w))) in *.
  pose proof Hreg as Hreg'. apply registered_b_spec in Hreg' as [Hnd Hbuf].
  destruct (first_pass_ready m (heap w) Hnd Hbuf) as (st & h1 & Hfirst & Hinv & Hst & F1 & Hq).
  destruct (second_pass_merges m (_timestamp (session w)) (rounds m h1) st h1 None
              (_tracepoint (session w)) Hinv Hst (rounds_cover m h1 Hnd Hinv))
    as (buckets & h2 & Hsecond & Hsorted & _ & Hok & Hall & F2 & _ & Hempty).
  assert (registry_all shaped m (heap w)) as Hshape.
  { intros id this Hf. apply map_find_elem in Hf.
    destruct (Hbuf id this Hf) as (v & Hv & Hb). exists v. split; [exact Hv |].
    apply buffered_b_spec in Hb as (? & ? & ? & _). repeat split; assumption || lia. }
  destruct (first_pass_settles m m _ _ _ _ _ _ _ Hfirst) as [_ Hset1]; [| exact Hshape |].
  { intros [id fn] He. apply elem_map_find; assumption. }
  assert (registry_all settled m h1) as Hs1.
  { intros id this Hf. apply Hset1. right. exists id. apply map_find_elem. exact Hf. }
  pose proof (second_pass_settled m _ _ _ _ _ _ _ _ _ Hsecond Hs1) as Hs2.
  pose proof (heap_frame_trans _ _ _ F1 F2) as F.
  assert (forall id this, map_find id m = Some (value_dumper this) ->
            exists v2, h2 !! this = Some v2 /\ _idx_write v2 = -1 /\ buffered_b id v2 = true)
    as Hdone.
  { intros id this Hf.
    destruct (Hs2 id this Hf) as (v2 & Hv2 & (HD & Hlen & Hw) & Hr & Hidle).
    assert (_idx_write v2 = -1) as Hw2.
    { apply Hidle. specialize (Hempty id). unfold queue, slot_value in Hempty.
      rewrite Hf, Hv2 in Hempty. exact Hempty. }
    exists v2. split; [exact Hv2 |]. split; [exact Hw2 |].
    destruct (Hbuf id this (map_find_elem _ _ _ Hf)) as (v & Hv & Hb).
    apply buffered_b_spec in Hb as (_ & _ & _ & Hid & _).
    specialize (F this). rewrite Hv, Hv2 in F. destruct F as (_ & _ & _ & Hsc & _).
    unfold buffered_b. rewrite (pending_idle v2 Hw2), Hsc, Hid, Hlen, Hw2.
    rewrite String.eqb_refl, Nat.eqb_refl.
    destruct (Z.ltb_spec 1 (TRACE_DEPTH v2)); [| lia].
    destruct (Z.ltb_spec (-1) (TRACE_DEPTH v2)); [| lia]. reflexivity. }
  exists buckets, h2. split; [| split; [| split]].
  - split; [exact Hsorted |]. split.
    + eapply Forall_impl; [exact Hok |]. intros b [Hne Hes]. split; [exact Hne |].
      eapply Forall_impl; [exact Hes |]. cbn. intros e [He _]. exact He.
    + intros id. rewrite Hall, Hq. reflexivity.
  - unfold time_update_core. fold m. rewrite Hfirst, Hsecond.
    rewrite (drain_lines_frame m (heap w) h1 _ buckets F1).
    rewrite (drain_lines_flush m (heap w)) by assumption.
    reflexivity.
  - unfold registered_b in *. apply andb_prop in Hreg as [Hd _].
    rewrite Hd. cbn [andb]. apply forallb_forall. intros [id fn] Hin.
    cbn [fst snd]. destruct fn as [| this]; [reflexivity |].
    apply list_elem_of_In in Hin.
    destruct (Hdone id this (elem_map_find m id _ Hnd Hin)) as (v2 & -> & _ & Hb). exact Hb.
  - intros id. unfold waiting, slot_value.
    destruct (map_find id m) as [[| this] |] eqn:Hf; try reflexivity.
    destruct (Hdone id this Hf) as (v2 & -> & Hw2 & _). apply pending_idle. exact Hw2.
Qed.

(** A flush that finds nothing pending writes nothing. *)
Lemma time_update_core_idle (w : world) :
  registered_b (dumper_map (_var_map (session w))) (heap w) = true ->
  0 <= _timestamp (session w) < 2 ^ 64 ->
  (forall id, waiting (dumper_map (_var_map (session w))) (heap w) id = []) ->
  exists h',
    time_update_core w = Some ([], {| session := session w; heap := h' |}) /\
    registered_b (dumper_map (_var_map (session w))) h' = true /\
    forall id, waiting (dumper_map (_var_map (session w))) h' id = [].
Proof.
  intros Hreg Hts Hidle.
  destruct (time_update_core_drains w Hreg Hts) as (buckets & h' & Hm & Hcore & Hreg' & Hidle').
  assert (buckets = []) as ->.
  { destruct buckets as [| [s es] bs]; [reflexivity |]. exfalso.
    destruct Hm as (_ & Hne & Hall). apply Forall_cons in Hne as [[Hne _] _].
    cbn [snd] in Hne. destruct es as [| [id smp] es]; [contradiction |].
    specialize (Hall id). rewrite Hidle in Hall. cbn in Hall.
    rewrite String.eqb_refl in Hall. discriminate. }
  exists h'. split; [| auto].
  rewrite Hcore. cbn [flush_lines flush_tracepoint].
  destruct (session w). reflexivity.
Qed.

(** X12. A flush leaves nothing pending: after [time_update_core] on a
    registry of buffered signals none of which has overflowed, no
    signal has a pending sample, and a second flush writes nothing and
    leaves the clock as it is. *)
Theorem flush_leaves_nothing (w w1 : world) (out : list vcd_line) :
  registered_b (dumper_map (_var_map (session w))) (heap w) = true ->
  0 <= _timestamp (session w) < 2 ^ 64 ->
  time_update_core w = Some (out, w1) ->
  (forall id, waiting (dumper_map (_var_map (session w1))) (heap w1) id = []) /\
  exists w2, time_update_core w1 = Some ([], w2) /\ session w2 = session w1.
Proof.
  intros Hreg Hts Hcore.
  destruct (time_update_core_drains w Hreg Hts) as (buckets & h' & _ & Hcore' & Hreg' & Hidle).
  rewrite Hcore in Hcore'. injection Hcore' as -> ->.
  cbn [session heap]. split; [exact Hidle |].
  destruct (time_update_core_idle
              {| session := with_tracepoint
                              (flush_tracepoint (_timestamp (session w))
                                 (_tracepoint (session w)) buckets) (session w);
                 heap := h' |}) as (h2 & Hcore2 & _); try assumption.
  eexists. split; [exact Hcore2 | reflexivity].
Qed.

Lemma flush_leaves_nothing_witness :
  exists w1 w2,
    (snd <$> time_update_core merge_world) = Some w1 /\
    time_update_core w1 = Some ([], w2).
Proof.
  destruct (time_update_core merge_world) as [[out w1] |] eqn:E;
    [| vm_compute in E; discriminate].
  destruct (flush_leaves_nothing merge_world w1 out) as (_ & w2 & H2 & _);
    [vm_compute; reflexivity | vm_compute; split; congruence | exact E |].
  exists w1, w2. split; [reflexivity | exact H2].
Defined.

(** ** The maps of the registry *)

Lemma key_lt_trans (a b c : string) : key_lt a b -> key_lt b c -> key_lt a c.
Proof.
  unfold key_lt. intros H1 H2.
  apply OrderedTypeEx.String_as_OT.cmp_lt in H1, H2.
  apply OrderedTypeEx.String_as_OT.cmp_lt.
  eapply OrderedTypeEx.String_as_OT.lt_trans; eassumption.
Qed.

Lemma key_lt_irrefl (a : string) : ~ key_lt a a.
Proof.
  unfold key_lt. intros H. pose proof (String.compare_antisym a a) as E.
  rewrite H in E. discriminate.
Qed.

Lemma keys_sorted_b_spec (l : list string) :
  keys_sorted_b l = true <-> StronglySorted key_lt l.
Proof.
  induction l as [| a l IH]; [split; [constructor | reflexivity] |].
  cbn [keys_sorted_b]. rewrite andb_true_iff, IH. split.
  - intros [Ha Hl]. constructor; [exact Hl |].
    destruct l as [| b l]; [constructor |].
    assert (key_lt a b) as Hab
        by (unfold key_lt; destruct (String.compare a b); [discriminate | reflexivity | discriminate]).
    apply StronglySorted_inv in Hl as [_ Hb].
    constructor; [exact Hab |].
    eapply Forall_impl; [exact Hb |]. intros c Hc. eapply key_lt_trans; eassumption.
  - intros H. apply StronglySorted_inv in H as [Hl Ha]. split; [| exact Hl].
    destruct l as [| b l]; [reflexivity |].
    apply Forall_cons in Ha as [Hab _]. unfold key_lt in Hab. rewrite Hab. reflexivity.
Qed.

Lemma sorted_keys_NoDup (l : list string) : StronglySorted key_lt l -> NoDup l.
Proof.
  induction 1 as [| a l Hl IH Ha]; constructor; [| exact IH].
  intros Hin. rewrite Forall_forall in Ha. apply (key_lt_irrefl a). apply Ha. exact Hin.
Qed.

Lemma NoDup_distinct_b (l : list string) : NoDup l -> distinct_b l = true.
Proof.
  induction 1 as [| a l Ha _ IH]; [reflexivity |].
  cbn [distinct_b]. rewrite IH, andb_true_r. apply negb_true_iff.
  destruct (existsb (String.eqb a) l) eqn:E; [| reflexivity].
  apply existsb_exists in E as (b & Hb & Eb). apply String.eqb_eq in Eb. subst b.
  exfalso. apply Ha. apply list_elem_of_In. exact Hb.
Qed.

(** An assignment keeps the keys in order; the keys are those of
    before and the assigned one. *)
Lemma map_assign_sorted {V : Type} (k : string) (x : V) (m : list (string * V)) :
  StronglySorted key_lt (map fst m) ->
  StronglySorted key_lt (map fst (map_assign k x m)) /\
  forall id, id ∈ map fst (map_assign k x m) <-> id = k \/ id ∈ map fst m.
Proof.
  induction m as [| [k' x'] m IH]; intros Hs.
  - cbn. split; [repeat constructor |].
    intros id. rewrite list_elem_of_singleton. rewrite elem_of_nil. tauto.
  - cbn [map fst] in Hs. apply StronglySorted_inv in Hs as [Hm Hk'].
    cbn [map_assign]. destruct (String.compare k k') eqn:E.
    + apply String.compare_eq_iff in E. subst k'. cbn [map fst]. split.
      * constructor; assumption.
      * intros id. rewrite !elem_of_cons. tauto.
    + cbn [map fst]. split.
      * constructor; [constructor; assumption |].
        constructor; [exact E |].
        eapply Forall_impl; [exact Hk' |]. intros c Hc. eapply key_lt_trans; eassumption.
      * intros id. rewrite !elem_of_cons. tauto.
    + destruct (IH Hm) as [IHs IHk]. cbn [map fst]. split.
      * constructor; [exact IHs |].
        apply Forall_forall. intros id Hid. apply IHk in Hid as [-> | Hid].
        -- unfold key_lt. rewrite String.compare_antisym, E. reflexivity.
        -- rewrite Forall_forall in Hk'. apply Hk'. exact Hid.
      * intros id. rewrite !elem_of_cons, IHk. tauto.
Qed.

(** An assignment to a key the map holds does not change the keys. *)
Lemma map_assign_keys {V : Type} (k : string) (x : V) (m : list (string * V)) :
  StronglySorted key_lt (map fst m) -> k ∈ map fst m ->
  map fst (map_assign k x m) = map fst m.
Proof.
  induction m as [| [k' x'] m IH]; intros Hs Hin.
  - apply elem_of_nil in Hin. contradiction.
  - cbn [map fst] in Hs, Hin. apply StronglySorted_inv in Hs as [Hm Hk'].
    cbn [map_assign]. destruct (String.compare k k') eqn:E.
    + apply String.compare_eq_iff in E. subst k'. reflexivity.
    + exfalso. apply elem_of_cons in Hin as [-> | Hin].
      * apply (key_lt_irrefl k'). exact E.
      * rewrite Forall_forall in Hk'. apply (key_lt_irrefl k).
        eapply key_lt_trans; [exact E | apply Hk'; exact Hin].
    + cbn [map fst]. f_equal. apply IH; [exact Hm |].
      apply elem_of_cons in Hin as [-> | Hin]; [| exact Hin].
      exfalso. pose proof (String.compare_antisym k' k') as A. rewrite E in A. discriminate.
Qed.

Lemma map_find_key {V : Type} (k : string) (m : list (string * V)) :
  k ∈ map fst m <-> map_find k m <> None.
Proof.
  induction m as [| [k' x'] m IH]; cbn [map fst map_find].
  - rewrite elem_of_nil. tauto.
  - rewrite elem_of_cons. destruct (String.eqb_spec k k') as [-> | Hne].
    + split; [discriminate | auto].
    + rewrite IH. split; [intros [? | ?]; [contradiction | assumption] | auto].
Qed.

Lemma registered_b_intro (m : list (string * dumper_fn)) (h : gmap nat vcd_value) :
  NoDup (map fst m) ->
  (forall id this, (id, value_dumper this) ∈ m ->
     exists v, h !! this = Some v /\ buffered_b id v = true) ->
  registered_b m h = true.
Proof.
  intros Hnd Hall. unfold registered_b. rewrite (NoDup_distinct_b _ Hnd). cbn [andb].
  apply forallb_forall. intros [id fn] Hin. cbn [fst snd].
  destruct fn as [| this]; [reflexivity |].
  apply list_elem_of_In in Hin. destruct (Hall id this Hin) as (v & -> & Hb). exact Hb.
Qed.

(** X13. The destruction of a registered buffered value discards what
    it has pending: the registry stays one of buffered signals, the
    destroyed signal has no pending sample in it, so a later flush
    writes nothing for it, and the pending samples of the other signals
    are as before. *)
Theorem destroy_discards_pending (w w' : world) (this : nat) (v : vcd_value) :
  registered_b (dumper_map (_var_map (session w))) (heap w) = true ->
  keys_sorted_b (map fst (dumper_map (_var_map (session w)))) = true ->
  heap w !! this = Some v ->
  map_find (identifier (_scope v)) (dumper_map (_var_map (session w)))
  = Some (value_dumper this) ->
  updater (_scope v) = slot_updater (identifier (_scope v)) ->
  destroy this w = Some w' ->
  registered_b (dumper_map (_var_map (session w'))) (heap w') = true /\
  keys_sorted_b (map fst (dumper_map (_var_map (session w')))) = true /\
  waiting (dumper_map (_var_map (session w'))) (heap w') (identifier (_scope v)) = [] /\
  forall id, id <> identifier (_scope v) ->
    waiting (dumper_map (_var_map (session w'))) (heap w') id
    = waiting (dumper_map (_var_map (session w))) (heap w) id.
Proof.
  intros Hreg Hsorted Hv Hslot Hu. unfold destroy. rewrite Hv, Hu. intros [= <-].
  cbn [session heap call_updater set_dumper _var_map dumper_map].
  set (m := dumper_map (_var_map (session w))) in *.
  set (id0 := identifier (_scope v)) in *.
  apply keys_sorted_b_spec in Hsorted.
  assert (id0 ∈ map fst m) as Hkey by (apply map_find_key; rewrite Hslot; discriminate).
  pose proof (map_assign_keys id0 nop_dump m Hsorted Hkey) as Hkeys.
  apply registered_b_spec in Hreg as [Hnd Hbuf].
  assert (forall id this', id <> id0 -> map_find id m = Some (value_dumper this') ->
            this' <> this) as Hother.
  { intros id this' Hne Hf ->. apply map_find_elem in Hf.
    destruct (Hbuf id this Hf) as (v' & Hv' & Hb). rewrite Hv in Hv'. injection Hv' as <-.
    apply buffered_b_spec in Hb as (_ & _ & _ & Hid & _). fold id0 in Hid. congruence. }
  split; [| split; [| split]].
  - apply registered_b_intro; [rewrite Hkeys; exact Hnd |].
    intros id this' Hin.
    apply elem_map_find in Hin; [| rewrite Hkeys; exact Hnd].
    destruct (decide (id = id0)) as [-> | Hne].
    + rewrite map_find_assign_eq in Hin. discriminate.
    + rewrite map_find_assign_ne in Hin by congruence.
      destruct (Hbuf id this' (map_find_elem _ _ _ Hin)) as (v' & Hv' & Hb).
      exists v'. split; [| exact Hb].
      rewrite lookup_delete_ne by (apply not_eq_sym; eapply Hother; eassumption). exact Hv'.
  - apply keys_sorted_b_spec. rewrite Hkeys. exact Hsorted.
  - unfold waiting, slot_value. rewrite map_find_assign_eq. reflexivity.
  - intros id Hne. unfold waiting, slot_value.
    rewrite map_find_assign_ne by congruence.
    destruct (map_find id m) as [[| this'] |] eqn:Hf; try reflexivity.
    rewrite lookup_delete_ne by (apply not_eq_sym; eapply Hother; eassumption).
    reflexivity.
Qed.

Lemma destroy_discards_pending_witness :
  exists w',
    destroy 1 merge_world = Some w' /\
    waiting (dumper_map (_var_map (session w'))) (heap w') "!" = [] /\
    registered_b (dumper_map (_var_map (session w'))) (heap w') = true.
Proof.
  destruct (heap merge_world !! 1%nat) as [v |] eqn:Ev; [| vm_compute in Ev; discriminate].
  destruct (destroy 1 merge_world) as [w' |] eqn:Ed; [| vm_compute in Ed; discriminate].
  assert (identifier (_scope v) = "!"%string) as Hid
      by (vm_compute in Ev; injection Ev as <-; reflexivity).
  destruct (destroy_discards_pending merge_world w' 1 v) as (Hreg & _ & Hw & _).
  - vm_compute. reflexivity.
  - vm_compute. reflexivity.
  - exact Ev.
  - rewrite Hid. vm_compute. reflexivity.
  - vm_compute in Ev. injection Ev as <-. reflexivity.
  - exact Ed.
  - exists w'. rewrite Hid in Hw. auto.
Defined.

(** ** Registration *)

(** X14. Registration with [top] gives every variable an identifier of
    its own: in a session after [n] registrations (below the number of
    identifiers of at most 15 symbols), the closure of [top::top]
    returns the identifier of call [n] of the generator, which is not
    yet a key of the registry; it stores the callback and the path
    under it, with a function that resets this slot, and leaves the
    callbacks of all other identifiers as they are. *)
Theorem registration_fresh (n : nat) (t : top) (full_path : string) (fn : dumper_fn) :
  registered_n n t ->
  Z.of_nat n < identifier_capacity ->
  let (ctx, t') := top_register full_path fn t in
  identifier ctx = GenerateVcdKey n /\
  updater ctx = slot_updater (identifier ctx) /\
  map_find (identifier ctx) (dumper_map (_var_map t)) = None /\
  map_find (identifier ctx) (dumper_map (_var_map t')) = Some fn /\
  map_find (identifier ctx) (identifier_map (_var_map t')) = Some full_path /\
  (forall id, id <> identifier ctx ->
     map_find id (dumper_map (_var_map t')) = map_find id (dumper_map (_var_map t))) /\
  registered_n (Datatypes.S n) t'.
Proof.
  intros (Hgen & Hsorted & Hkeys) Hn. unfold top_register. rewrite Hgen.
  destruct (next (skip n identifier_generator_new)) as [id g] eqn:E.
  assert (id = GenerateVcdKey n) as Hid by (unfold GenerateVcdKey; rewrite E; reflexivity).
  assert (g = skip (Datatypes.S n) identifier_generator_new) as Hg
      by (rewrite skip_S, E; reflexivity).
  cbn [identifier updater _var_map dumper_map identifier_map _identifier_generator].
  assert (id ∉ map fst (dumper_map (_var_map t))) as Hfresh.
  { intros Hin. apply Hkeys in Hin as (i & Hi & Hi').
    destruct (next_skip n Hn) as (ds & rest & Hnext & _ & _ & _ & Hrank).
    destruct (next_skip i ltac:(lia)) as (ds' & rest' & Hnext' & _ & _ & _ & Hrank').
    rewrite Hid in Hi'. unfold GenerateVcdKey in Hi'. rewrite Hnext, Hnext' in Hi'.
    cbn [fst] in Hi'. apply (f_equal list_ascii_of_string) in Hi'.
    rewrite !list_ascii_of_string_of_list_ascii in Hi'. subst ds'. lia. }
  apply keys_sorted_b_spec in Hsorted.
  destruct (map_assign_sorted id fn (dumper_map (_var_map t)) Hsorted) as [Hs' Hk'].
  split; [exact Hid |]. split; [reflexivity |]. split.
  { destruct (map_find id (dumper_map (_var_map t))) eqn:Ef; [| reflexivity].
    exfalso. apply Hfresh. apply map_find_key. rewrite Ef. discriminate. }
  split; [apply map_find_assign_eq |]. split; [apply map_find_assign_eq |].
  split; [intros id' Hne; apply map_find_assign_ne; congruence |].
  split; [exact Hg |]. split; [apply keys_sorted_b_spec; exact Hs' |].
  intros id'. rewrite Hk', Hkeys. split.
  - intros [-> | (i & Hi & ->)]; [exists n | exists i]; split; auto; lia.
  - intros (i & Hi & ->). destruct (decide (i = n)) as [-> | Hne]; [left; auto |].
    right. exists i. split; [lia | reflexivity].
Qed.

Lemma registration_fresh_witness :
  let (ctx, t') := top_register "root.flag" nop_dump (top_new "root" 0 0) in
  identifier ctx = "!"%string /\ registered_n 1 t'.
Proof.
  assert (registered_n 0 (top_new "root" 0 0)) as H0.
  { split; [reflexivity |]. split; [reflexivity |].
    intros id. cbn. rewrite elem_of_nil. split; [tauto | intros (i & Hi & _); lia]. }
  pose proof (registration_fresh 0 (top_new "root" 0 0) "root.flag" nop_dump H0
                ltac:(vm_compute; reflexivity)) as H.
  destruct (top_register "root.flag" nop_dump (top_new "root" 0 0)) as [ctx t'].
  destruct H as (Hid & _ & _ & _ & _ & _ & Hn). split; [exact Hid | exact Hn].
Defined.

(** ** The times of a trace *)

Lemma times_app (a b : list vcd_line) : times (a ++ b) = times a ++ times b.
Proof. apply flat_map_app. Qed.

Lemma times_encode (v : vcd_value) (s : sample) : times (encode v s) = [].
Proof.
  unfold encode, value_base_dump. destruct (T v); [destruct (state s) | |]; reflexivity.
Qed.

Lemma times_bucket_lines (m : list (string * dumper_fn)) (h : gmap nat vcd_value)
    (es : list (string * sample)) :
  times (bucket_lines m h es) = [].
Proof.
  induction es as [| e es IH]; [reflexivity |].
  unfold bucket_lines in *. cbn [flat_map]. rewrite times_app, IH, app_nil_r.
  unfold entry_lines. destruct (slot_value m h (fst e)); [apply times_encode | reflexivity].
Qed.

Lemma times_later_buckets (m : list (string * dumper_fn)) (h : gmap nat vcd_value)
    (f : Z -> Z) (bs : list (Z * list (string * sample))) :
  times (flat_map (fun b => L_time (f (fst b)) :: bucket_lines m h (snd b)) bs)
  = map f (map fst bs).
Proof.
  induction bs as [| b bs IH]; [reflexivity |].
  cbn [flat_map map]. rewrite times_app, IH.
  change (times (L_time (f b.1) :: bucket_lines m h b.2))
    with (f b.1 :: times (bucket_lines m h b.2)).
  rewrite times_bucket_lines. reflexivity.
Qed.

Lemma last_key_bound (s0 : Z) (bs : list (Z * list (string * sample))) :
  StronglySorted Z.lt (s0 :: map fst bs) ->
  last_key s0 bs ∈ s0 :: map fst bs /\
  Forall (fun k => k <= last_key s0 bs) (s0 :: map fst bs).
Proof.
  revert s0. induction bs as [| b bs IH]; intros s0 Hs.
  - cbn. split; [left | repeat constructor; lia].
  - cbn [map last_key] in *. apply StronglySorted_inv in Hs as [Hs Hlt].
    destruct (IH (fst b) Hs) as [Hin Hle]. split; [right; exact Hin |].
    constructor; [| exact Hle].
    apply Forall_cons in Hlt as [Hlt _]. apply Forall_cons in Hle as [Hle _]. lia.
Qed.

Lemma sorted_le_snoc (l : list Z) (x : Z) :
  Sorted Z.le l -> Forall (fun t => t <= x) l -> Sorted Z.le (l ++ [x]).
Proof.
  induction 1 as [| a l Hl IH Ha]; intros Hx; [repeat constructor |].
  apply Forall_cons in Hx as [Hax Hx]. cbn [app]. constructor; [apply IH; exact Hx |].
  destruct l as [| b l]; cbn [app]; constructor; [exact Hax |].
  apply HdRel_inv in Ha. exact Ha.
Qed.

(** The sequence of a bucket of a flush is that of a pending sample. *)
Lemma merged_key_pending (m : list (string * dumper_fn)) (h : gmap nat vcd_value)
    (buckets : list (Z * list (string * sample))) (b : Z * list (string * sample)) :
  merged m h buckets -> b ∈ buckets ->
  exists id s, s ∈ waiting m h id /\ sequence s = fst b.
Proof.
  intros (_ & Hne & Hall) Hb.
  rewrite Forall_forall in Hne. destruct (Hne b Hb) as [Hnonempty Hseq].
  destruct (snd b) as [| [id s] es] eqn:Eb; [contradiction |].
  apply Forall_cons in Hseq as [Hs _]. cbn [snd] in Hs.
  exists id, s. split; [| exact Hs].
  assert ((id, s) ∈ List.filter (fun e => String.eqb (fst e) id) (concat (map snd buckets)))
    as Hin.
  { apply list_elem_of_In, filter_In. split; [| cbn; apply String.eqb_refl].
    apply in_concat. exists (snd b). split.
    - apply in_map. apply list_elem_of_In. exact Hb.
    - rewrite Eb. left. reflexivity. }
  rewrite Hall in Hin. apply list_elem_of_fmap in Hin as (s' & [= <-] & Hs'). exact Hs'.
Qed.

Lemma waiting_range (m : list (string * dumper_fn)) (h : gmap nat vcd_value)
    (bound : Z) (id : string) (s : sample) :
  registered_b m h = true -> pending_below_b bound m h = true ->
  s ∈ waiting m h id -> 0 <= sequence s < bound.
Proof.
  intros Hreg Hbelow Hs.
  apply registered_b_spec in Hreg as [Hnd Hbuf].
  unfold waiting, slot_value in Hs.
  destruct (map_find id m) as [[| this] |] eqn:Hf;
    try (apply elem_of_nil in Hs; contradiction).
  pose proof (map_find_elem _ _ _ Hf) as Hin.
  destruct (Hbuf id this Hin) as (v & Hv & Hb). rewrite Hv in Hs.
  apply buffered_b_spec in Hb as (_ & _ & _ & _ & _ & Hrange).
  rewrite Forall_forall in Hrange. specialize (Hrange s Hs).
  unfold pending_below_b in Hbelow. rewrite forallb_forall in Hbelow.
  apply list_elem_of_In in Hin. specialize (Hbelow _ Hin). cbn [fst] in Hbelow.
  unfold waiting, slot_value in Hbelow. rewrite Hf, Hv in Hbelow.
  rewrite forallb_forall in Hbelow. apply list_elem_of_In in Hs.
  specialize (Hbelow s Hs). apply Z.ltb_lt in Hbelow. lia.
Qed.

Lemma sorted_shifted (f : Z -> Z) (c : Z) (l : list Z) :
  StronglySorted Z.lt l -> Forall (fun k => f k = c + k) l -> Sorted Z.le (map f l).
Proof.
  induction 1 as [| a l Hl IH Ha]; intros Hf; [constructor |].
  apply Forall_cons in Hf as [Hfa Hf]. cbn [map]. constructor; [apply IH; exact Hf |].
  destruct l as [| b l]; cbn [map]; constructor.
  apply Forall_cons in Ha as [Hab _]. apply Forall_cons in Hf as [Hfb _]. lia.
Qed.

(** The times of the lines of a flush that starts with the tracepoint
    at the timestamp: they do not decrease and lie between the
    timestamp and the tracepoint the flush reaches. *)
Lemma flush_times (m : list (string * dumper_fn)) (h : gmap nat vcd_value)
    (ts bound : Z) (buckets : list (Z * list (string * sample))) :
  registered_b m h = true ->
  pending_below_b bound m h = true ->
  merged m h buckets ->
  0 <= ts -> 0 < bound -> ts + bound <= 2 ^ 64 ->
  Sorted Z.le (times (flush_lines m h ts ts buckets)) /\
  Forall (fun t => ts <= t <= flush_tracepoint ts ts buckets)
    (times (flush_lines m h ts ts buckets)) /\
  ts <= flush_tracepoint ts ts buckets < ts + bound.
Proof.
  intros Hreg Hbelow Hm Hts Hpos Hbound.
  destruct buckets as [| [s0 es0] rest].
  - cbn. repeat split; try constructor; lia.
  - assert (forall b, b ∈ (s0, es0) :: rest -> 0 <= fst b < bound) as Hrange.
    { intros b Hb. destruct (merged_key_pending m h _ b Hm Hb) as (id & s & Hs & <-).
      exact (waiting_range m h bound id s Hreg Hbelow Hs). }
    pose proof (Hrange (s0, es0) ltac:(left)) as Hs0. cbn [fst] in Hs0.
    destruct Hm as (Hkeys & _). cbn [map fst] in Hkeys.
    destruct (last_key_bound s0 rest Hkeys) as [Hlast_in Hlast_le].
    assert (0 <= last_key s0 rest < bound) as Hlast.
    { apply list_elem_of_fmap with (f := fst) (l := (s0, es0) :: rest) in Hlast_in
        as (b & -> & Hb). apply Hrange. exact Hb. }
    apply Forall_cons in Hlast_le as [Hs0_le Hrest_le].
    assert (flush_tracepoint ts ts ((s0, es0) :: rest) = ts + (last_key s0 rest - s0)) as ->
        by (cbn [flush_tracepoint]; apply Z.mod_small; lia).
    pose proof Hkeys as Hkeys'. apply StronglySorted_inv in Hkeys' as [Hrest_sorted Hs0_lt].
    assert (Forall (fun k => wrap64 (ts + (k - s0)) = ts - s0 + k /\ s0 < k <= last_key s0 rest)
              (map fst rest)) as Hf.
    { apply Forall_forall. intros k Hk.
      rewrite Forall_forall in Hs0_lt, Hrest_le.
      pose proof (Hs0_lt k Hk). pose proof (Hrest_le k Hk).
      split; [| lia]. unfold wrap64. rewrite Z.mod_small; lia. }
    assert (times (flush_lines m h ts ts ((s0, es0) :: rest))
            = map (fun k => wrap64 (ts + (k - s0))) (map fst rest)) as ->.
    { cbn [flush_lines]. rewrite Z.eqb_refl. cbn [app].
      rewrite times_app, times_bucket_lines. cbn [app].
      apply (times_later_buckets m h (fun k => wrap64 (ts + (k - s0)))). }
    split; [| split].
    + apply (sorted_shifted _ (ts - s0)); [exact Hrest_sorted |].
      eapply Forall_impl; [exact Hf |]. cbn. intros k [Hk _]. exact Hk.
    + apply Forall_forall. intros t Ht.
      apply list_elem_of_fmap in Ht as (k & -> & Hk).
      rewrite Forall_forall in Hf. destruct (Hf k Hk) as [-> ?]. lia.
    + lia.
Qed.

(** X15. Time never goes back under [time_update_delta]: in a session
    of buffered signals whose tracepoint is its timestamp (as after
    [finalize_header] and after every [time_update_delta]), with a
    delta that is not negative and no overflow of the 64 bit clock,
    the times of the lines the call writes do not decrease, lie between
    the old and the new timestamp, and the call leaves the tracepoint
    at the new timestamp, with nothing pending. *)
Theorem delta_times_monotone (w w' : world) (delta : Z) (out : list vcd_line) :
  registered_b (dumper_map (_var_map (session w))) (heap w) = true ->
  _tracepoint (session w) = _timestamp (session w) ->
  0 <= _timestamp (session w) -> 0 <= delta ->
  _timestamp (session w) + delta < 2 ^ 64 ->
  pending_below_b (2 ^ 64 - _timestamp (session w))
    (dumper_map (_var_map (session w))) (heap w) = true ->
  time_update_delta delta w = Some (out, w') ->
  Sorted Z.le (times out) /\
  Forall (fun t => _timestamp (session w) <= t <= _timestamp (session w')) (times out) /\
  _timestamp (session w) + delta <= _timestamp (session w') < 2 ^ 64 /\
  _tracepoint (session w') = _timestamp (session w') /\
  registered_b (dumper_map (_var_map (session w'))) (heap w') = true /\
  forall id, waiting (dumper_map (_var_map (session w'))) (heap w') id = [].
Proof.
  intros Hreg Hsync Hts Hdelta Hnowrap Hbelow.
  set (m := dumper_map (_var_map (session w))) in *.
  set (ts := _timestamp (session w)) in *.
  assert (0 <= ts < 2 ^ 64) as Hrange_ts by lia.
  destruct (time_update_core_drains w Hreg Hrange_ts)
    as (buckets & h' & Hm & Hcore & Hreg' & Hidle).
  fold m ts in Hcore, Hreg', Hidle, Hm. rewrite Hsync in Hcore.
  destruct (flush_times m (heap w) ts (2 ^ 64 - ts) buckets Hreg Hbelow Hm)
    as (Hsorted & Hbound & Htp1); try lia.
  unfold time_update_delta. rewrite Hcore.
  cbn [session heap _timestamp _tracepoint with_tracepoint with_timestamp _var_map].
  fold ts. rewrite log_time_final.
  assert (to_u64 delta = delta) as -> by (apply Z.mod_small; lia).
  assert (wrap64 (ts + delta) = ts + delta) as -> by (apply Z.mod_small; lia).
  set (tp1 := flush_tracepoint ts ts buckets) in *.
  set (ts2 := if Z.leb (ts + delta) tp1 then tp1 else ts + delta).
  intros [= <- <-].
  cbn [session heap _timestamp _tracepoint with_tracepoint with_timestamp _var_map].
  fold m.
  assert (tp1 <= ts2 /\ ts + delta <= ts2 < 2 ^ 64) as Hts2
      by (subst ts2; destruct (Z.leb_spec (ts + delta) tp1); lia).
  rewrite times_app.
  split; [| split; [| split; [| split; [| split]]]].
  - unfold final_lines. destruct (Z.eqb ts2 tp1); cbn [times flat_map app].
    + rewrite app_nil_r. exact Hsorted.
    + apply sorted_le_snoc; [exact Hsorted |].
      eapply Forall_impl; [exact Hbound |]. cbn. intros; lia.
  - apply Forall_app. split.
    + eapply Forall_impl; [exact Hbound |]. cbn. intros; lia.
    + unfold final_lines. destruct (Z.eqb ts2 tp1); cbn [times flat_map app];
        repeat constructor; lia.
  - lia.
  - reflexivity.
  - exact Hreg'.
  - exact Hidle.
Qed.

Lemma delta_times_monotone_witness :
  exists out w',
    time_update_delta 3 merge_world = Some (out, w') /\
    Sorted Z.le (times out) /\ _timestamp (session w') = 5.
Proof.
  destruct (time_update_delta 3 merge_world) as [[out w'] |] eqn:E;
    [| vm_compute in E; discriminate].
  destruct (delta_times_monotone merge_world w' 3 out) as (Hs & _).
  - vm_compute. reflexivity.
  - vm_compute. reflexivity.
  - vm_compute. discriminate.
  - lia.
  - vm_compute. reflexivity.
  - vm_compute. reflexivity.
  - exact E.
  - exists out, w'. split; [reflexivity |]. split; [exact Hs |].
    vm_compute in E. injection E as _ <-. reflexivity.
Defined.

(** X16. So it is under [time_update_abs], whatever the time asked
    for: in a session of buffered signals whose tracepoint is its
    timestamp, with a time that is not negative and a clock below
    [2^63], the times of the lines the call writes do not decrease and
    are not before the old timestamp. A time at or after the timestamp
    leaves the tracepoint at the new timestamp; a time before it leaves
    the timestamp where it was, and the tracepoint where the flush has
    taken it. *)
Theorem abs_times_monotone (w w' : world) (t : Z) (out : list vcd_line) :
  registered_b (dumper_map (_var_map (session w))) (heap w) = true ->
  _tracepoint (session w) = _timestamp (session w) ->
  0 <= _timestamp (session w) < 2 ^ 63 -> 0 <= t < 2 ^ 63 ->
  pending_below_b (2 ^ 63 - _timestamp (session w))
    (dumper_map (_var_map (session w))) (heap w) = true ->
  time_update_abs t w = Some (out, w') ->
  Sorted Z.le (times out) /\
  Forall (fun t' => _timestamp (session w) <= t' <= _tracepoint (session w')) (times out) /\
  (_timestamp (session w) <= t ->
   t <= _timestamp (session w') /\ _tracepoint (session w') = _timestamp (session w')) /\
  (t < _timestamp (session w) ->
   _timestamp (session w') = _timestamp (session w) /\
   _timestamp (session w') <= _tracepoint (session w')).
Proof.
  intros Hreg Hsync Hts Ht Hbelow.
  set (m := dumper_map (_var_map (session w))) in *.
  set (ts := _timestamp (session w)) in *.
  assert (0 <= ts < 2 ^ 64) as Hrange_ts by lia.
  destruct (time_update_core_drains w Hreg Hrange_ts)
    as (buckets & h' & Hm & Hcore & Hreg' & Hidle).
  fold m ts in Hcore, Hreg', Hidle, Hm. rewrite Hsync in Hcore.
  destruct (flush_times m (heap w) ts (2 ^ 63 - ts) buckets Hreg Hbelow Hm)
    as (Hsorted & Hbound & Htp1); try lia.
  unfold time_update_abs. rewrite Hcore.
  cbn [session heap _timestamp _tracepoint with_tracepoint with_timestamp _var_map].
  fold ts. set (tp1 := flush_tracepoint ts ts buckets) in *.
  rewrite (to_u64_small t Ht), (to_i64_small tp1) by lia.
  destruct (Z.leb_spec ts t) as [Hge | Hlt].
  - set (count := if Z.leb t tp1 then tp1 else t).
    assert (tp1 <= count /\ t <= count < 2 ^ 63) as Hcount
        by (subst count; destruct (Z.leb_spec t tp1); lia).
    rewrite (to_u64_small count) by lia. rewrite log_time_final.
    intros [= <- <-].
    cbn [session heap _timestamp _tracepoint with_tracepoint with_timestamp].
    rewrite times_app.
    split; [| split; [| split]].
    + unfold final_lines. destruct (Z.eqb count tp1); cbn [times flat_map app].
      * rewrite app_nil_r. exact Hsorted.
      * apply sorted_le_snoc; [exact Hsorted |].
        eapply Forall_impl; [exact Hbound |]. cbn. intros; lia.
    + apply Forall_app. split.
      * eapply Forall_impl; [exact Hbound |]. cbn. intros; lia.
      * unfold final_lines. destruct (Z.eqb count tp1); cbn [times flat_map app];
          repeat constructor; lia.
    + intros _. split; [lia | reflexivity].
    + intros; lia.
  - intros [= <- <-].
    cbn [session heap _timestamp _tracepoint with_tracepoint with_timestamp].
    fold ts tp1.
    split; [exact Hsorted |]. split; [exact Hbound |]. split; [intros; lia |].
    intros _. split; [reflexivity | lia].
Qed.

Lemma abs_times_monotone_witness :
  exists out w',
    time_update_abs 3 merge_world = Some (out, w') /\
    Sorted Z.le (times out) /\ _tracepoint (session w') = _timestamp (session w').
Proof.
  destruct (time_update_abs 3 merge_world) as [[out w'] |] eqn:E;
    [| vm_compute in E; discriminate].
  destruct (abs_times_monotone merge_world w' 3 out) as (Hs & _ & Hsync & _).
  - vm_compute. reflexivity.
  - vm_compute. reflexivity.
  - vm_compute. split; congruence.
  - lia.
  - vm_compute. reflexivity.
  - exact E.
  - exists out, w'. split; [reflexivity |]. split; [exact Hs |].
    apply Hsync. vm_compute. discriminate.
Defined.

(** ** The end of a trace *)

Lemma leb_max (a b : Z) : (if Z.leb b a then a else b) = Z.max a b.
Proof. destruct (Z.leb_spec b a); lia. Qed.

Lemma wrap64_range (z : Z) : 0 <= wrap64 z < 2 ^ 64.
Proof. apply Z.mod_pos_bound. lia. Qed.

(** X17. [finalize_trace] on a session of buffered signals: the first
    of its two time updates writes everything pending and moves the
    clock on by 1 ns, or to the tracepoint of the flush when that is
    later; the second finds nothing pending and moves the clock on by
    1000 ns. Unless the 64 bit clock overflows the trace ends with the
    line of that last time, and nothing is left pending. *)
Theorem finalize_trace_ends (w : world) :
  registered_b (dumper_map (_var_map (session w))) (heap w) = true ->
  0 <= _timestamp (session w) < 2 ^ 64 ->
  0 <= _tracepoint (session w) < 2 ^ 64 ->
  exists buckets w',
    let m := dumper_map (_var_map (session w)) in
    let ts := _timestamp (session w) in
    let flush := flush_lines m (heap w) ts (_tracepoint (session w)) buckets in
    let tp1 := flush_tracepoint ts (_tracepoint (session w)) buckets in
    let ts1 := Z.max tp1 (wrap64 (ts + 1)) in
    let ts2 := Z.max ts1 (wrap64 (ts1 + 1000)) in
    merged m (heap w) buckets /\
    finalize_trace w = Some (flush ++ final_lines ts1 tp1 ++ final_lines ts2 ts1, w') /\
    _timestamp (session w') = ts2 /\ _tracepoint (session w') = ts2 /\
    (forall id, waiting (dumper_map (_var_map (session w'))) (heap w') id = []) /\
    (ts1 + 1000 < 2 ^ 64 -> final_lines ts2 ts1 = [L_time (ts1 + 1000)]).
Proof.
  intros Hreg Hts Htp.
  destruct (time_update_core_drains w Hreg Hts) as (buckets & h' & Hm & Hcore & Hreg' & Hidle).
  set (m := dumper_map (_var_map (session w))) in *.
  set (ts := _timestamp (session w)) in *.
  set (tp1 := flush_tracepoint ts (_tracepoint (session w)) buckets) in *.
  set (ts1 := Z.max tp1 (wrap64 (ts + 1))).
  set (ts2 := Z.max ts1 (wrap64 (ts1 + 1000))).
  assert (0 <= tp1 < 2 ^ 64) as Htp1.
  { subst tp1. destruct buckets as [| [s0 es0] rest]; cbn [flush_tracepoint];
      [exact Htp | apply wrap64_range]. }
  pose proof (wrap64_range (ts + 1)) as Hw1.
  assert (0 <= ts1 < 2 ^ 64) as Hts1 by (subst ts1; lia).
  set (w1 := {| session := with_tracepoint ts1 (with_timestamp ts1 (with_tracepoint tp1 (session w)));
                heap := h' |}).
  assert (time_update_delta 1 w = Some (flush_lines m (heap w) ts (_tracepoint (session w)) buckets
                                        ++ final_lines ts1 tp1, w1)) as Hd1.
  { unfold time_update_delta. rewrite Hcore.
    cbn [session heap _timestamp _tracepoint with_tracepoint with_timestamp].
    fold ts. change (to_u64 1) with 1. rewrite leb_max. fold ts1.
    rewrite log_time_final. reflexivity. }
  destruct (time_update_core_idle w1) as (h2 & Hcore2 & Hreg2 & Hidle2);
    [exact Hreg' | exact Hts1 | exact Hidle |].
  exists buckets,
    {| session := with_tracepoint ts2 (with_timestamp ts2 (session w1)); heap := h2 |}.
  cbn zeta. fold m ts tp1 ts1 ts2.
  split; [exact Hm |]. split; [| split; [reflexivity | split; [reflexivity | split]]].
  - unfold finalize_trace. rewrite Hd1.
    unfold time_update_delta. rewrite Hcore2.
    cbn [session heap _timestamp _tracepoint with_tracepoint with_timestamp w1].
    change (to_u64 1000) with 1000. rewrite leb_max. fold ts2.
    rewrite log_time_final, app_nil_l, app_assoc. reflexivity.
  - exact Hidle2.
  - intros Hno. assert (wrap64 (ts1 + 1000) = ts1 + 1000) as E
        by (apply Z.mod_small; lia).
    unfold final_lines. subst ts2. rewrite E.
    destruct (Z.eqb_spec (Z.max ts1 (ts1 + 1000)) ts1); [lia |].
    f_equal. f_equal. lia.
Qed.

Lemma finalize_trace_ends_witness :
  exists w',
    snd <$> finalize_trace merge_world = Some w' /\
    forall id, waiting (dumper_map (_var_map (session w'))) (heap w') id = [].
Proof.
  destruct (finalize_trace_ends merge_world) as (buckets & w' & _ & H & _ & _ & Hidle & _);
    [vm_compute; reflexivity | vm_compute; split; congruence
     | vm_compute; split; congruence |].
  exists w'. rewrite H. split; [reflexivity | exact Hidle].
Defined.

(** ** A registry of unbuffered signals *)

Lemma plain_b_spec (m : list (string * dumper_fn)) (h : gmap nat vcd_value) :
  plain_b m h = true <->
  distinct_b (map fst m) = true /\
  forall id this, (id, value_dumper this) ∈ m ->
    exists v, h !! this = Some v /\ TRACE_DEPTH v = 1 /\ identifier (_scope v) = id.
Proof.
  unfold plain_b. rewrite andb_true_iff, forallb_forall. split.
  - intros [Hd Hall]. split; [exact Hd |]. intros id this Hin.
    apply list_elem_of_In in Hin. specialize (Hall _ Hin). cbn [fst snd] in Hall.
    destruct (h !! this) as [v |]; [| discriminate]. exists v.
    unfold unbuffered_b in Hall. apply andb_prop in Hall as [HD Hid].
    apply Z.eqb_eq in HD. apply String.eqb_eq in Hid. auto.
  - intros [Hd Hall]. split; [exact Hd |]. intros [id fn] Hin. cbn [fst snd].
    destruct fn as [| this]; [reflexivity |].
    apply list_elem_of_In in Hin. destruct (Hall id this Hin) as (v & -> & HD & Hid).
    unfold unbuffered_b. rewrite HD, Hid, String.eqb_refl. reflexivity.
Qed.

Lemma changed_lines_ext (m : list (string * dumper_fn)) (h h' : gmap nat vcd_value) :
  (forall id this, (id, value_dumper this) ∈ m -> h' !! this = h !! this) ->
  changed_lines m h' = changed_lines m h.
Proof.
  induction m as [| [id fn] m IH]; intros H; [reflexivity |].
  unfold changed_lines in *. cbn [flat_map fst snd]. rewrite IH.
  - destruct fn as [| this]; [reflexivity |]. rewrite (H id this); [reflexivity | left].
  - intros id' this' Hin. apply (H id'). right. exact Hin.
Qed.

Lemma changed_lines_clear (m : list (string * dumper_fn)) (h : gmap nat vcd_value) :
  (forall id this, (id, value_dumper this) ∈ m ->
     exists v, h !! this = Some v /\ _idx_write v = 0) ->
  changed_lines m h = [].
Proof.
  induction m as [| [id fn] m IH]; intros H; [reflexivity |].
  unfold changed_lines in *. cbn [flat_map fst snd]. rewrite IH.
  - destruct fn as [| this]; [reflexivity |].
    destruct (H id this ltac:(left)) as (v & -> & ->). reflexivity.
  - intros id' this' Hin. apply (H id'). right. exact Hin.
Qed.

(** The first pass over unbuffered values writes the changed ones and
    clears their flags; the status map and the baseline stay. *)
Lemma first_pass_plain (m : list (string * dumper_fn)) :
  forall (st : list (Z * list string)) (first : option Z) (h : gmap nat vcd_value),
    NoDup (map fst m) ->
    (forall id this, (id, value_dumper this) ∈ m ->
       exists v, h !! this = Some v /\ TRACE_DEPTH v = 1 /\ identifier (_scope v) = id) ->
    exists h',
      first_pass m st first h = Some (changed_lines m h, st, first, h') /\
      (forall this, (forall id, (id, value_dumper this) ∉ m) -> h' !! this = h !! this) /\
      forall id this, (id, value_dumper this) ∈ m ->
        exists v', h' !! this = Some v' /\ TRACE_DEPTH v' = 1 /\
                   identifier (_scope v') = id /\ _idx_write v' = 0.
Proof.
  induction m as [| [id0 fn] m IH]; intros st first h Hnd Hall.
  - exists h. split; [reflexivity |]. split; [reflexivity |].
    intros id this Hin. apply elem_of_nil in Hin. contradiction.
  - cbn [map fst] in Hnd. apply NoDup_cons in Hnd as [Hid0 Hnd].
    assert (forall id this, (id, value_dumper this) ∈ m ->
              exists v, h !! this = Some v /\ TRACE_DEPTH v = 1 /\ identifier (_scope v) = id)
      as Hall' by (intros id this Hin; apply Hall; right; exact Hin).
    destruct fn as [| this0].
    + destruct (IH st first h Hnd Hall') as (h' & Hrun & Hkeep & Hdone).
      exists h'. split; [| split].
      * cbn [first_pass call_dumper status_note next_seq dumped end_sequence].
        rewrite Hrun. reflexivity.
      * intros this Hout. apply Hkeep. intros id Hin. apply (Hout id). right. exact Hin.
      * intros id this Hin. apply elem_of_cons in Hin as [[=] | Hin]. apply Hdone. exact Hin.
    + destruct (Hall id0 this0 ltac:(left)) as (v0 & Hv0 & HD0 & Hsc0).
      assert (forall id, (id, value_dumper this0) ∉ m) as Hfresh.
      { intros id Hin. destruct (Hall' id this0 Hin) as (v & Hv & _ & Hsc).
        rewrite Hv0 in Hv. injection Hv as <-.
        assert (id = id0) as -> by congruence. apply Hid0.
        apply (list_elem_of_fmap_2 fst) in Hin. exact Hin. }
      set (v0' := if negb (Z.eqb (_idx_write v0) 0) then with_write 0 v0 else v0).
      assert (value_dump v0 true
              = (if negb (Z.eqb (_idx_write v0) 0) then dump_sample v0 0 else [],
                 end_sequence, v0')) as Hdump.
      { unfold value_dump, v0'. rewrite HD0. cbn [Z.eqb Pos.eqb].
        destruct (negb (Z.eqb (_idx_write v0) 0)); reflexivity. }
      destruct (IH st first (<[this0 := v0']> h) Hnd) as (h' & Hrun & Hkeep & Hdone).
      { intros id this Hin. rewrite lookup_insert_ne; [apply Hall'; exact Hin |].
        intros ->. apply (Hfresh id). exact Hin. }
      exists h'. split; [| split].
      * cbn [first_pass call_dumper]. rewrite Hv0, Hdump.
        cbn [status_note next_seq dumped end_sequence]. rewrite Hrun.
        rewrite (changed_lines_ext m h (<[this0 := v0']> h)).
        -- unfold changed_lines at 2. cbn [flat_map fst snd]. rewrite Hv0. reflexivity.
        -- intros id this Hin. apply lookup_insert_ne. intros ->. apply (Hfresh id). exact Hin.
      * intros this Hout. rewrite Hkeep.
        -- apply lookup_insert_ne. intros ->. apply (Hout id0). left.
        -- intros id Hin. apply (Hout id). right. exact Hin.
      * intros id this Hin. apply elem_of_cons in Hin as [[= -> ->] | Hin];
          [| apply Hdone; exact Hin].
        rewrite (Hkeep this0 Hfresh), lookup_insert_eq. exists v0'.
        split; [reflexivity |]. unfold v0'.
        destruct (Z.eqb_spec (_idx_write v0) 0) as [E | _]; cbn [negb]; auto.
Qed.

(** X18. A flush of a registry of unbuffered signals writes one line
    for every value whose flag is set, in the order of the identifiers
    in the registry, and no time line: the tracepoint and the timestamp
    stay. It clears the flags, so a second flush writes nothing. *)
Theorem unbuffered_flush (w : world) :
  plain_b (dumper_map (_var_map (session w))) (heap w) = true ->
  exists h',
    time_update_core w
    = Some (changed_lines (dumper_map (_var_map (session w))) (heap w),
            {| session := session w; heap := h' |}) /\
    plain_b (dumper_map (_var_map (session w))) h' = true /\
    changed_lines (dumper_map (_var_map (session w))) h' = [].
Proof.
  intros Hplain. set (m := dumper_map (_var_map (session w))) in *.
  apply plain_b_spec in Hplain as [Hd Hall].
  destruct (first_pass_plain m [] None (heap w) (distinct_b_NoDup _ Hd) Hall)
    as (h' & Hrun & _ & Hdone).
  exists h'. split; [| split].
  - unfold time_update_core. fold m. rewrite Hrun.
    assert (second_pass (rounds m h') m (_timestamp (session w)) [] None
              (_tracepoint (session w)) h' = Some ([], _tracepoint (session w), h')) as ->
        by (destruct (rounds m h'); reflexivity).
    rewrite app_nil_r. destruct (session w). reflexivity.
  - apply plain_b_spec. split; [exact Hd |]. intros id this Hin.
    destruct (Hdone id this Hin) as (v' & Hv' & HD & Hsc & _). exists v'. auto.
  - apply changed_lines_clear. intros id this Hin.
    destruct (Hdone id this Hin) as (v' & Hv' & _ & _ & Hw). exists v'. auto.
Qed.

Lemma unbuffered_flush_witness :
  exists w h',
    (construct [] 1 "flag" T_bool 1 1 0 0 None new_world) = Some w /\
    time_update_core w = Some ([L_text "x!"], {| session := session w; heap := h' |}) /\
    changed_lines (dumper_map (_var_map (session w))) h' = [].
Proof.
  destruct (construct [] 1 "flag" T_bool 1 1 0 0 None new_world) as [w |] eqn:E;
    [| vm_compute in E; discriminate].
  destruct (unbuffered_flush w) as (h' & Hcore & _ & Hclear).
  { vm_compute in E. injection E as <-. vm_compute. reflexivity. }
  exists w, h'. split; [reflexivity |]. split; [| exact Hclear].
  rewrite Hcore. f_equal. f_equal.
  vm_compute in E. injection E as <-. vm_compute. reflexivity.
Defined.

(** ** Recording, continued *)

(** X19. Under a sequence counter that does not go back, [set],
    [unknown] and [undriven] keep the pending samples of a buffered
    value in strictly increasing sequence, as long as the buffer has
    room: the value stays fit for the merge of a flush. *)
Theorem recording_keeps_order (id : string) (cur_seq x : Z) (S : value_state)
    (v v' : vcd_value) :
  buffered_b id v = true ->
  0 <= cur_seq < 2 ^ 64 ->
  Forall (fun s => sequence s <= cur_seq) (pending v) ->
  v' = set cur_seq x v \/ v' = set_state cur_seq S v ->
  _idx_write v' < TRACE_DEPTH v ->
  buffered_b id v' = true.
Proof.
  intros Hb Hseq Hle [-> | ->] Hroom.
  - apply set_keeps_buffered; assumption.
  - apply set_state_keeps_buffered; assumption.
Qed.

Lemma recording_keeps_order_witness :
  buffered_b "vv" (set 44 3 (set 43 2 (set 42 1
     (with_scope {| identifier := "vv"; updater := nop_update |}
        (value_new T_int 9 4 42 0 None))))) = true.
Proof.
  apply (recording_keeps_order "vv" 44 3 unknown_x
           (set 43 2 (set 42 1
              (with_scope {| identifier := "vv"; updater := nop_update |}
                 (value_new T_int 9 4 42 0 None))))).
  - vm_compute. reflexivity.
  - lia.
  - vm_compute. repeat constructor; discriminate.
  - left. reflexivity.
  - vm_compute. reflexivity.
Defined.

(** ** Paths *)

Lemma instance_at_update {p : module_path} (f : module_instance -> module_instance) :
  forall c c0, instance_at p c = Some c0 -> instance_at p (update_at p f c) = Some (f c0).
Proof.
  induction p as [| i p IH]; intros c c0; cbn [instance_at update_at children].
  - intros [= <-]. reflexivity.
  - destruct (children c !! i) as [ch |] eqn:E; [| discriminate].
    intros H. rewrite list_lookup_alter_eq, E. cbn. apply IH. exact H.
Qed.

Lemma register_path_names (p : module_path) (leaf : string) :
  forall c c0, instance_at p c = Some c0 ->
    register_path p c leaf = String.concat "." (names_along p c ++ [leaf]).
Proof.
  induction p as [| i p IH]; intros c c0; cbn [instance_at register_path names_along].
  - intros _. reflexivity.
  - destruct (children c !! i) as [ch |] eqn:E; [| discriminate].
    intros H. rewrite (IH ch c0 H). cbn [app String.concat].
    destruct (names_along p ch ++ [leaf]) eqn:En; [| reflexivity].
    destruct p; discriminate En.
Qed.

(** X20. [add_var] of a module under the root of [top]: the variable
    is registered under the instance names from the root down to the
    module and its own name, joined by dots, and the line
    [$var <type> <bits> <identifier> <name> $end] with the identifier
    the registration returned is appended to the text of that module. *)
Theorem add_var_registers_path (p : module_path) (var_name var_type : string)
    (bit_size : nat) (fn : dumper_fn) (t t' : top) (ctx : value_context)
    (r c : module_instance) :
  root t = Some r -> instance_at p r = Some c ->
  top_add_var p var_name var_type bit_size fn t = Some (ctx, t') ->
  map_find (identifier ctx) (identifier_map (_var_map t'))
  = Some (String.concat "." (names_along p r ++ [var_name])) /\
  map_find (identifier ctx) (dumper_map (_var_map t')) = Some fn /\
  exists r',
    root t' = Some r' /\
    instance_at p r'
    = Some (append_scope (var_line var_type bit_size (identifier ctx) var_name) c).
Proof.
  intros Hr Hc. unfold top_add_var, add_var. rewrite Hr, Hc.
  rewrite (register_path_names p var_name r c Hc).
  unfold top_register. destruct (next (_identifier_generator t)) as [id g].
  intros [= <- <-]. cbn [identifier _var_map identifier_map dumper_map root with_root].
  split; [apply map_find_assign_eq |]. split; [apply map_find_assign_eq |].
  eexists. split; [reflexivity |]. apply instance_at_update. exact Hc.
Qed.

Lemma add_var_registers_path_witness :
  exists ctx t',
    top_add_var [] "flag" "wire" 1 nop_dump (top_new "root" 0 0) = Some (ctx, t') /\
    map_find (identifier ctx) (identifier_map (_var_map t')) = Some "root.flag"%string.
Proof.
  destruct (top_add_var [] "flag" "wire" 1 nop_dump (top_new "root" 0 0))
    as [[ctx t'] |] eqn:E; [| vm_compute in E; discriminate].
  exists ctx, t'. split; [reflexivity |].
  exact (proj1 (add_var_registers_path [] "flag" "wire" 1 nop_dump (top_new "root" 0 0) t' ctx
                  (module_new "root") (module_new "root") eq_refl eq_refl E)).
Defined.

(** ** The clock, continued *)

(** X21. [time_update_delta] on the clock, after its flush has
    reached the tracepoint [tp1]: a delta that leaves the time at or
    below [tp1] moves the clock to [tp1]; a delta beyond it is
    adopted. The sum is taken in [std::uint64_t]: a negative delta
    that reaches below zero wraps the clock around by [2^64]. In every
    case the call writes the line of the new time only if it differs
    from [tp1], and leaves the tracepoint at the timestamp. *)
Theorem time_update_delta_clock (delta : Z) (w w1 : world) (out1 : list vcd_line) :
  time_update_core w = Some (out1, w1) ->
  0 <= _timestamp (session w) < 2 ^ 64 ->
  - 2 ^ 63 <= delta < 2 ^ 63 ->
  0 <= _tracepoint (session w1) < 2 ^ 64 ->
  exists w',
    time_update_delta delta w
    = Some (out1 ++ final_lines (_timestamp (session w')) (_tracepoint (session w1)), w') /\
    _tracepoint (session w') = _timestamp (session w') /\
    (0 <= _timestamp (session w) + delta <= _tracepoint (session w1) ->
     _timestamp (session w') = _tracepoint (session w1)) /\
    (_tracepoint (session w1) < _timestamp (session w) + delta < 2 ^ 64 ->
     _timestamp (session w') = _timestamp (session w) + delta) /\
    (_timestamp (session w) + delta < 0 ->
     _timestamp (session w')
     = Z.max (_tracepoint (session w1)) (_timestamp (session w) + delta + 2 ^ 64)) /\
    (2 ^ 64 <= _timestamp (session w) + delta ->
     _timestamp (session w')
     = Z.max (_tracepoint (session w1)) (_timestamp (session w) + delta - 2 ^ 64)).
Proof.
  intros Hcore Hts Hdelta Htp.
  pose proof (time_update_core_timestamp _ _ _ Hcore) as Hts1.
  unfold time_update_delta. rewrite Hcore, Hts1.
  set (ts := _timestamp (session w)) in *.
  set (tp1 := _tracepoint (session w1)) in *.
  assert (wrap64 (ts + to_u64 delta) = (ts + delta) mod 2 ^ 64) as ->
      by (unfold wrap64, to_u64; apply Zplus_mod_idemp_r).
  rewrite log_time_final.
  set (ts' := if Z.leb ((ts + delta) mod 2 ^ 64) tp1 then tp1 else (ts + delta) mod 2 ^ 64).
  exists {| session := with_tracepoint ts' (with_timestamp ts' (session w1)); heap := heap w1 |}.
  split; [reflexivity |].
  cbn [session _timestamp _tracepoint with_tracepoint with_timestamp].
  split; [reflexivity |]. subst ts'.
  split; [| split; [| split]]; intros H.
  - rewrite Z.mod_small by lia. destruct (Z.leb_spec (ts + delta) tp1); lia.
  - rewrite Z.mod_small by lia. destruct (Z.leb_spec (ts + delta) tp1); lia.
  - assert ((ts + delta) mod 2 ^ 64 = ts + delta + 2 ^ 64) as ->.
    { symmetry. apply (Z.mod_unique _ _ (-1)); lia. }
    destruct (Z.leb_spec (ts + delta + 2 ^ 64) tp1); lia.
  - assert ((ts + delta) mod 2 ^ 64 = ts + delta - 2 ^ 64) as ->.
    { symmetry. apply (Z.mod_unique _ _ 1); lia. }
    destruct (Z.leb_spec (ts + delta - 2 ^ 64) tp1); lia.
Qed.

Lemma time_update_delta_clock_witness :
  (_timestamp ∘ session ∘ snd) <$> time_update_delta (-1) two_pending_world
  = Some 18446744073709551615.
Proof.
  destruct (time_update_core two_pending_world) as [[out1 w1] |] eqn:E;
    [| vm_compute in E; discriminate].
  destruct (time_update_delta_clock (-1) two_pending_world w1 out1 E)
    as (w' & -> & _ & _ & _ & Hneg & _);
    [vm_compute; split; congruence | lia
     | vm_compute in E; injection E as _ <-; vm_compute; split; congruence |].
  cbn. f_equal. rewrite Hneg by (vm_compute; reflexivity).
  vm_compute in E. injection E as _ <-. vm_compute. reflexivity.
Defined.

Lemma time_update_abs_clock_witness :
  exists w',
    time_update_abs 0 two_pending_world
    = Some ([L_text "b01 !"; L_time 1; L_text "b010 !"], w') /\
    _timestamp (session w') = 1.
Proof.
  destruct (time_update_core two_pending_world) as [[out1 w1] |] eqn:E;
    [| vm_compute in E; discriminate].
  destruct (time_update_abs_clock 0 two_pending_world w1 out1 E) as (_ & Hclamp & _);
    [lia | vm_compute in E; injection E as _ <-; vm_compute; split; congruence |].
  destruct Hclamp as (w' & H & Hts & _).
  { vm_compute in E. injection E as _ <-. vm_compute. split; congruence. }
  exists w'. rewrite H, Hts. vm_compute in E. injection E as <- <-. split; reflexivity.
Defined.

(** ** The header of a session *)

(** X22. [top::finalize_header] on a session of buffered signals: the
    fixed lines of the date, the time scale and the version, the text
    of the scopes, [$enddefinitions $end] and the line [#0], which is
    always written; then the samples already pending, merged as by any
    flush, with the first bucket at time 0. The timestamp is 0
    afterwards, nothing is pending, and the instance tree of the root
    module is released. *)
Theorem finalize_header_flush (date : string) (w : world) :
  registered_b (dumper_map (_var_map (session w))) (heap w) = true ->
  exists buckets w',
    merged (dumper_map (_var_map (session w))) (heap w) buckets /\
    finalize_header date w
    = Some (header_preamble date
            ++ match root (session w) with
               | Some c => finalize_header_context c
               | None => []
               end
            ++ [L_text "$enddefinitions $end"; L_time 0]
            ++ flush_lines (dumper_map (_var_map (session w))) (heap w) 0 0 buckets, w') /\
    _timestamp (session w') = 0 /\
    _tracepoint (session w') = flush_tracepoint 0 0 buckets /\
    root (session w') = None /\
    forall id, waiting (dumper_map (_var_map (session w'))) (heap w') id = [].
Proof.
  intros Hreg.
  set (w0 := {| session := with_timestamp 0
                             (with_tracepoint 0 (with_root None (session w)));
                heap := heap w |}).
  destruct (time_update_core_drains w0) as (buckets & h' & Hm & Hcore & _ & Hidle);
    [exact Hreg | cbn; lia |].
  exists buckets. eexists. split; [exact Hm |]. split; [| split; [| split; [| split]]].
  - unfold finalize_header, module_finalize_header, log_time. cbn [orb].
    destruct (root (session w)) as [c |];
      cbn [module_finalize_header]; fold w0; rewrite Hcore; reflexivity.
  - reflexivity.
  - reflexivity.
  - reflexivity.
  - exact Hidle.
Qed.

Lemma finalize_header_flush_witness :
  exists w',
    snd <$> two_buffered 10 10 = Some w' /\ _timestamp (session w') = 0.
Proof.
  unfold two_buffered.
  destruct (top_module [] "mod1" new_world) as [[w mod1] |] eqn:E0; [| discriminate].
  cbn [mbind option_bind].
  destruct (elaborate mod1 1 "ka" _) as [wa |] eqn:Ea;
    [| vm_compute in E0; injection E0 as <- <-; vm_compute in Ea; discriminate].
  cbn [mbind option_bind].
  destruct (elaborate mod1 2 "ki" wa) as [wb |] eqn:Eb;
    [| vm_compute in E0; injection E0 as <- <-; vm_compute in Ea; injection Ea as <-;
       vm_compute in Eb; discriminate].
  cbn [mbind option_bind].
  destruct (finalize_header_flush epoch wb) as (buckets & w' & _ & -> & Hts & _).
  { vm_compute in E0; injection E0 as <- <-; vm_compute in Ea; injection Ea as <-;
      vm_compute in Eb; injection Eb as <-. vm_compute. reflexivity. }
  exists w'. split; [reflexivity | exact Hts].
Defined.

(** ** Elaboration *)

(** X23. [module::elaborate] of a value that was constructed without
    a scope: the value is registered with its [dump] as callback and
    gets the identifier and the function that resets its slot, its
    samples and indices stay as they are, and the module declares it
    with the variable type of its element type ([real] for the floating
    types, [wire] otherwise) and its [BIT_SIZE]. No other object of the
    program changes. *)
Theorem elaborate_declares (p : module_path) (this : nat) (name : string)
    (w w' : world) (v : vcd_value) (r c : module_instance) :
  heap w !! this = Some v -> root (session w) = Some r -> instance_at p r = Some c ->
  elaborate p this name w = Some w' ->
  exists id r',
    heap w' !! this = Some (with_scope {| identifier := id; updater := slot_updater id |} v) /\
    map_find id (dumper_map (_var_map (session w'))) = Some (value_dumper this) /\
    root (session w') = Some r' /\
    instance_at p r'
    = Some (append_scope (var_line (vcd_var_type (T v)) (BIT_SIZE v) id name) c) /\
    forall this', this' <> this -> heap w' !! this' = heap w !! this'.
Proof.
  intros Hv Hr Hc. unfold elaborate, top_add_var, add_var. rewrite Hv, Hr, Hc.
  unfold top_register. destruct (next (_identifier_generator (session w))) as [id g].
  intros [= <-]. cbn [session heap identifier _var_map dumper_map root with_root].
  exists id. eexists. split; [apply lookup_insert_eq |].
  split; [apply map_find_assign_eq |]. split; [reflexivity |].
  split; [apply instance_at_update; exact Hc |].
  intros this' Hne. apply lookup_insert_ne. congruence.
Qed.

Lemma elaborate_declares_witness :
  exists w' id,
    elaborate [] 1 "ka" (declare 1 (value_new (T_real 64) 64 1 0 0 None) new_world) = Some w' /\
    map_find id (dumper_map (_var_map (session w'))) = Some (value_dumper 1) /\
    (instance_at [] <$> root (session w'))
    = Some (Some (append_scope (var_line "real" 64 id "ka") (module_new "root"))).
Proof.
  set (w := declare 1 (value_new (T_real 64) 64 1 0 0 None) new_world).
  destruct (elaborate [] 1 "ka" w) as [w' |] eqn:E; [| vm_compute in E; discriminate].
  destruct (elaborate_declares [] 1 "ka" w w' (value_new (T_real 64) 64 1 0 0 None)
              (module_new "root") (module_new "root") eq_refl eq_refl eq_refl E)
    as (id & r' & _ & Hslot & Hr' & Hat & _).
  exists w', id. split; [reflexivity |]. split; [exact Hslot |].
  rewrite Hr'. cbn [fmap option_fmap option_map]. rewrite Hat. reflexivity.
Defined.

(** ** Unbuffered values, continued *)

(** X24. [unknown] and [undriven] on an unbuffered value whose state
    is another one: the next [dump] writes the line of the new state,
    with the value the sample held (which the real format prints
    whatever the state), once; after it a further [dump] writes nothing
    and the same call again changes nothing. *)
Theorem unbuffered_state_dump (cur_seq : Z) (S : value_state) (v : vcd_value)
    (start start' : bool) :
  TRACE_DEPTH v = 1 -> (0 < length (_samples v))%nat ->
  state (sample_at v 0) <> S ->
  exists v',
    value_dump (set_state cur_seq S v) start
    = (value_base_dump (T v) (identifier (_scope v)) (BIT_SIZE v) S (value (sample_at v 0)),
       end_sequence, v') /\
    value_dump v' start' = ([], end_sequence, v') /\
    set_state cur_seq S v' = v'.
Proof.
  intros HD Hlen Hch. unfold set_state at 1. rewrite HD. cbn [Z.eqb Pos.eqb].
  assert (negb (value_state_eqb (state (sample_at v 0)) S) = true) as ->.
  { apply negb_true_iff. destruct (value_state_eqb _ _) eqn:E; [| reflexivity].
    apply value_state_eqb_eq in E. contradiction. }
  eexists. split; [| split].
  - unfold value_dump. cbn [TRACE_DEPTH with_write update_sample with_samples _idx_write].
    rewrite HD. cbn [Z.eqb Pos.eqb negb].
    unfold dump_sample. rewrite (sample_at_update _ 1 v HD Hlen). reflexivity.
  - unfold value_dump. cbn [TRACE_DEPTH with_write update_sample with_samples _idx_write].
    rewrite HD. reflexivity.
  - unfold set_state. cbn [TRACE_DEPTH with_write update_sample with_samples].
    rewrite HD. cbn [Z.eqb Pos.eqb].
    change (sample_at (with_write 0 (with_write 1 (update_sample (sample_set_state cur_seq S) 0 v))) 0)
      with (sample_at (with_write 1 (update_sample (sample_set_state cur_seq S) 0 v)) 0).
    rewrite (sample_at_update _ 1 v HD Hlen). cbn [state sample_set_state].
    assert (value_state_eqb S S = true) as -> by (apply value_state_eqb_eq; reflexivity).
    reflexivity.
Qed.

Lemma unbuffered_state_dump_witness :
  (value_dump (unknown 1 (set 0 1 (with_scope {| identifier := "!"; updater := nop_update |}
                                     (value_new T_bool 1 1 0 0 None)))) true).1.1
  = [L_text "x!"].
Proof.
  destruct (unbuffered_state_dump 1 unknown_x
              (set 0 1 (with_scope {| identifier := "!"; updater := nop_update |}
                          (value_new T_bool 1 1 0 0 None))) true true)
    as (v' & H & _); [reflexivity | vm_compute; constructor | vm_compute; discriminate |].
  unfold unknown. rewrite H. reflexivity.
Defined.
